(** * bt2disk: saving a Bigtable instance to SQLite and restoring it

    A shallow embedding of [bt2disk.go] (package [bt2disk]): the functions
    [filterErrors], [Restore], [RestoreTable], [SaveAll] and [SaveTable],
    together with models of the library calls they make ([hash/fnv],
    [fmt.Fprintf], [time], [strings.TrimPrefix], [sort.Strings], the
    Bigtable client and [database/sql]), and of [main] of [cmd/main.go],
    the command that calls [Restore] and [SaveAll].

    Go strings are [string] (sequences of bytes), byte slices are
    [list byte], Go integers are [Z] with the wrap-around written out where
    the program can reach it. *)

From Stdlib Require Import ZArith Ascii Strings.Byte.
From stdpp Require Import base option list sorting strings gmap fin_maps.

Local Open Scope Z_scope.

(** ** Library models *)

(** Bytes of a Go string, and the numeric value of a byte. *)
Definition bytesOf (s : string) : list byte := String.list_byte_of_string s.
Definition byteVal (c : byte) : Z := Z.of_N (Byte.to_N c).
Definition code (c : ascii) : Z := Z.of_N (N_of_ascii c).
Definition chr (n : Z) : ascii := ascii_of_N (Z.to_N n).

(** int64 wrap-around. *)
Definition wrap64 (z : Z) : Z := (z + 2 ^ 63) mod 2 ^ 64 - 2 ^ 63.

(** *** hash/fnv: the 32-bit FNV-1a hash *)
Module Fnv.
Definition offset32 : Z := 2166136261.
Definition prime32 : Z := 16777619.

(** [fnv.New32a()] *)
Definition New32a : Z := offset32.

(** [sum32a.Write]: [hash ^= c; hash *= prime32] for each byte. *)
Definition Write (s : Z) (data : list byte) : Z :=
  fold_left (fun hash c => (Z.lxor hash (byteVal c) * prime32) mod 2 ^ 32) data s.

(** [sum32a.Sum32] *)
Definition Sum32 (s : Z) : Z := s.
End Fnv.

(** *** strings *)
Module Strings.
(** [strings.HasPrefix(s, prefix)] *)
Fixpoint HasPrefix (s prefix : string) {struct prefix} : bool :=
  match prefix, s with
  | EmptyString, _ => true
  | String a prefix', String b s' => if decide (a = b) then HasPrefix s' prefix' else false
  | String _ _, EmptyString => false
  end.

(** [s[n:]] *)
Fixpoint from (n : nat) (s : string) : string :=
  match n, s with
  | O, _ => s
  | S n', String _ s' => from n' s'
  | S _, EmptyString => EmptyString
  end.

(** [strings.TrimPrefix(s, prefix)] *)
Definition TrimPrefix (s prefix : string) : string :=
  if HasPrefix s prefix then from (String.length prefix) s else s.
End Strings.

(** *** sort *)
Module Sort.
(** [sort.Strings]: Go compares strings byte by byte, which is
    [String.le]; the result is the increasing rearrangement of the slice
    (unique, the order being total and antisymmetric). *)
Definition Strings (x : list string) : list string := merge_sort String.le x.
End Sort.

(** *** fmt: [Fprintf(w, format)] called with no operands

    This follows [pp.doPrintf] for an empty operand list: text is copied,
    [%%] writes one percent sign, and every other directive is written as an
    error marker. *)
Module Fmt.
Definition isDigit (c : ascii) : bool := (48 <=? code c) && (code c <=? 57).
Definition isFlag (c : ascii) : bool :=
  match c with
  | "#"%char | "0"%char | "+"%char | "-"%char | " "%char => true
  | _ => false
  end.

(** [tooLarge]: a width or index beyond 10^6 is given up. *)
Definition tooLarge (x : Z) : bool := x >? 1000000.

(** [parsenum(s, start, end)] on [s[start:end]]: whether a number was
    read, and what is left. On overflow the whole range is consumed. *)
Fixpoint parsenumFrom (s : string) (num : Z) (isnum : bool) : bool * string :=
  match s with
  | EmptyString => (isnum, EmptyString)
  | String c s' =>
      if isDigit c then
        if tooLarge num then (false, EmptyString)
        else parsenumFrom s' (num * 10 + (code c - 48)) true
      else (isnum, s)
  end.
Definition parsenum (s : string) : bool * string := parsenumFrom s 0 false.

(** Splits at the first closing bracket: the text before it and the text
    after it. *)
Fixpoint untilBracket (s : string) : option (string * string) :=
  match s with
  | EmptyString => None
  | String c s' =>
      if decide (c = "]"%char) then Some (EmptyString, s')
      else match untilBracket s' with
           | Some (inside, rest) => Some (String c inside, rest)
           | None => None
           end
  end.

(** [parseArgNumber(format)] for [format] starting with an opening
    bracket, given as the text [s] after that bracket: the text after
    the index and whether the index was well formed. *)
Definition parseArgNumber (s : string) : string * bool :=
  if (String.length s <? 2)%nat then (s, false)
  else match untilBracket s with
       | Some (inside, rest) =>
           match parsenum inside with
           | (true, EmptyString) => (rest, true)
           | _ => (rest, false)
           end
       | None => (s, false)
       end.

(** [pp.argNumber] with [numArgs = 0]: an index is never in range, so
    [goodArgNum] is cleared whenever a bracket is met. Returns the rest of
    the format, [found] and [goodArgNum]. *)
Definition argNumber (s : string) (good : bool) : string * bool * bool :=
  match s with
  | String "["%char s' => let '(rest, ok) := parseArgNumber s' in (rest, ok, false)
  | _ => (s, false, good)
  end.

Fixpoint skipFlags (s : string) : string :=
  match s with
  | String c s' => if isFlag c then skipFlags s' else s
  | EmptyString => s
  end.

Definition cont (c : ascii) (lo hi : Z) : bool := (lo <=? code c) && (code c <=? hi).

(** [utf8.DecodeRuneInString] followed by [utf8.AppendRune]: the bytes
    written for the verb, and the rest of the format. A malformed
    sequence is one byte long and is written as U+FFFD. *)
Definition runeError : string :=
  String (chr 239) (String (chr 191) (String (chr 189) EmptyString)).

Definition decodeVerb (s : string) : string * string :=
  match s with
  | EmptyString => (EmptyString, EmptyString)
  | String c0 s1 =>
      let n0 := code c0 in
      let bad := (runeError, s1) in
      if n0 <? 128 then (String c0 EmptyString, s1)
      else if (194 <=? n0) && (n0 <=? 223) then
        match s1 with
        | String c1 s2 =>
            if cont c1 128 191 then (String c0 (String c1 EmptyString), s2) else bad
        | _ => bad
        end
      else if (224 <=? n0) && (n0 <=? 239) then
        match s1 with
        | String c1 (String c2 s3) =>
            let lo := if n0 =? 224 then 160 else 128 in
            let hi := if n0 =? 237 then 159 else 191 in
            if cont c1 lo hi && cont c2 128 191
            then (String c0 (String c1 (String c2 EmptyString)), s3) else bad
        | _ => bad
        end
      else if (240 <=? n0) && (n0 <=? 244) then
        match s1 with
        | String c1 (String c2 (String c3 s4)) =>
            let lo := if n0 =? 240 then 144 else 128 in
            let hi := if n0 =? 244 then 143 else 191 in
            if cont c1 lo hi && cont c2 128 191 && cont c3 128 191
            then (String c0 (String c1 (String c2 (String c3 EmptyString))), s4) else bad
        | _ => bad
        end
      else bad
  end.

(** One directive, given the text after its percent sign: what is
    written, and the rest of the format. *)
Definition directive (s : string) : string * string :=
  let s := skipFlags s in
  let '(s, afterIndex, good) := argNumber s true in
  (* width *)
  let '(out1, s, afterIndex, good) :=
    match s with
    | String "*"%char s' => ("%!(BADWIDTH)", s', false, good)
    | _ => let '(widPresent, s') := parsenum s in
           (EmptyString, s', afterIndex, if afterIndex && widPresent then false else good)
    end in
  (* precision *)
  let '(out2, s, afterIndex, good) :=
    match s with
    | String "."%char s' =>
        let good := if afterIndex then false else good in
        let '(s', afterIndex, good) := argNumber s' good in
        match s' with
        | String "*"%char s'' => ("%!(BADPREC)", s'', false, good)
        | _ => let '(_, s'') := parsenum s' in (EmptyString, s'', afterIndex, good)
        end
    | _ => (EmptyString, s, afterIndex, good)
    end in
  let '(s, _, good) := if afterIndex then (s, afterIndex, good) else argNumber s good in
  match s with
  | EmptyString => (out1 +:+ out2 +:+ "%!(NOVERB)", EmptyString)
  | _ =>
      let '(verb, s') := decodeVerb s in
      if decide (verb = "%") then (out1 +:+ out2 +:+ "%", s')
      else if negb good then (out1 +:+ out2 +:+ "%!" +:+ verb +:+ "(BADINDEX)", s')
      else (out1 +:+ out2 +:+ "%!" +:+ verb +:+ "(MISSING)", s')
  end.

Fixpoint doPrintf (fuel : nat) (format : string) : string :=
  match fuel with
  | O => EmptyString
  | S fuel' =>
      match format with
      | EmptyString => EmptyString
      | String c rest =>
          if decide (c = "%"%char) then
            let '(out, rest') := directive rest in out +:+ doPrintf fuel' rest'
          else String c (doPrintf fuel' rest)
      end
  end.

(** What [fmt.Fprintf(w, format)] writes to [w]. *)
Definition Sprintf (format : string) : string :=
  doPrintf (S (String.length format)) format.

(** [fmt.Fprintf(hasher, format)] on an FNV hasher. *)
Definition Fprintf (hasher : Z) (format : string) : Z :=
  Fnv.Write hasher (bytesOf (Sprintf format)).
End Fmt.

(** *** time *)
Module Time.
(** A [*time.Location] as the offset east of UTC, in seconds, in force at
    a Unix time in seconds. Every [Time] of this program is built by
    [time.Unix], so it carries [time.Local]. *)
Definition Location : Type := Z -> Z.
Definition UTC : Location := fun _ => 0.

(** A [time.Time]: seconds since the Unix epoch and nanoseconds within
    the second. *)
Record Time : Type := mkTime { sec : Z; nsec : Z }.

(** [time.Unix(sec, nsec)] *)
Definition Unix (sec nsec : Z) : Time :=
  if (nsec <? 0) || (nsec >=? 10 ^ 9) then
    let n := Z.quot nsec (10 ^ 9) in
    let sec := wrap64 (sec + n) in
    let nsec := nsec - n * 10 ^ 9 in
    if nsec <? 0 then mkTime (wrap64 (sec - 1)) (nsec + 10 ^ 9)
    else mkTime sec nsec
  else mkTime sec nsec.

(** [Time.UnixNano]: [sec*1e9 + nsec] in int64 arithmetic. *)
Definition UnixNano (t : Time) : Z := wrap64 (sec t * 10 ^ 9 + nsec t).

Fixpoint decimalFrom (fuel : nat) (u : Z) (acc : string) : string :=
  match fuel with
  | O => acc
  | S fuel' =>
      let acc' := String (chr (48 + u mod 10)) acc in
      if u <? 10 then acc' else decimalFrom fuel' (u / 10) acc'
  end.
(** The decimal digits of [u >= 0]. *)
Definition decimal (u : Z) : string :=
  decimalFrom (S (Z.to_nat (Z.log2 u))) u EmptyString.

Fixpoint zeros (n : nat) : string :=
  match n with O => EmptyString | S n' => String "0"%char (zeros n') end.

(** [appendInt(b, x, width)]: sign, zero padding to [width], digits. *)
Definition appendInt (x : Z) (width : nat) : string :=
  let d := decimal (Z.abs x) in
  (if x <? 0 then "-" else EmptyString) +:+ zeros (width - String.length d) +:+ d.

(** Removes the trailing characters [c] of [s]. *)
Fixpoint trimRight (c : ascii) (s : string) : string :=
  match s with
  | EmptyString => EmptyString
  | String a s' =>
      match trimRight c s' with
      | EmptyString => if decide (a = c) then EmptyString else String a EmptyString
      | t => String a t
      end
  end.
Definition dropLast (c : ascii) (s : string) : string :=
  match String.rev s with
  | String a r => if decide (a = c) then String.rev r else s
  | EmptyString => s
  end.

(** [appendNano(b, nanosec, std)] for the layout element [.999999999]:
    nothing for a whole second, else a dot and nine digits with the
    trailing zeros removed. *)
Definition appendNano (nanosec : Z) : string :=
  if nanosec =? 0 then EmptyString
  else dropLast "."%char (trimRight "0"%char ("." +:+ appendInt nanosec 9)).

(** The civil date (proleptic Gregorian calendar) of a day counted from
    1970-01-01, as [absDate] gives it. *)
Definition date (days : Z) : Z * Z * Z :=
  let z := days + 719468 in
  let era := z / 146097 in
  let doe := z mod 146097 in
  let yoe := (doe - doe / 1460 + doe / 36524 - doe / 146096) / 365 in
  let doy := doe - (365 * yoe + yoe / 4 - yoe / 100) in
  let mp := (5 * doy + 2) / 153 in
  let day := doy - (153 * mp + 2) / 5 + 1 in
  let month := if mp <? 10 then mp + 3 else mp - 9 in
  let year := yoe + era * 400 + (if month <=? 2 then 1 else 0) in
  (year, month, day).

(** [t.Format(time.RFC3339Nano)], layout
    [2006-01-02T15:04:05.999999999Z07:00], for [t] in [loc]. *)
Definition Format (loc : Location) (t : Time) : string :=
  let offset := loc (sec t) in
  let abs := sec t + offset in
  let '(year, month, day) := date (abs / 86400) in
  let clock := abs mod 86400 in
  let zone := Z.quot offset 60 in
  appendInt year 4 +:+ "-" +:+ appendInt month 2 +:+ "-" +:+ appendInt day 2 +:+ "T"
    +:+ appendInt (clock / 3600) 2 +:+ ":" +:+ appendInt (clock mod 3600 / 60) 2 +:+ ":"
    +:+ appendInt (clock mod 60) 2
    +:+ appendNano (nsec t)
    +:+ (if offset =? 0 then "Z"
         else (if zone <? 0 then "-" else "+")
                +:+ appendInt (Z.abs zone / 60) 2 +:+ ":" +:+ appendInt (Z.abs zone mod 60) 2).
End Time.

(** *** cloud.google.com/go/bigtable: data types *)
Module ReadItem.
(** [bigtable.ReadItem]; [Timestamp] is a [bigtable.Timestamp], an int64
    count of microseconds. *)
Record t : Type := mk { Row : string; Column : string; Timestamp : Z; Value : list byte }.
End ReadItem.

Module Bigtable.
(** [bigtable.Row], a [map[string][]ReadItem] from a column family to its
    items. The list gives the families in the order in which [range]
    visits them, which Go leaves unspecified. *)
Definition Row : Type := list (string * list ReadItem.t).

(** [Row.Key] *)
Fixpoint Key (r : Row) : string :=
  match r with
  | [] => EmptyString
  | (_, item :: _) :: _ => ReadItem.Row item
  | (_, []) :: r' => Key r'
  end.

(** One [SetCell] entry of a mutation. *)
Record SetCell : Type :=
  mkSetCell { FamilyName : string; ColumnQualifier : string; TimestampMicros : Z; CellValue : list byte }.
Definition Mutation : Type := list SetCell.
Definition NewMutation : Mutation := [].

Definition ServerTime : Z := -1.

(** [Timestamp.TruncateToMilliseconds] *)
Definition TruncateToMilliseconds (ts : Z) : Z :=
  if ts =? ServerTime then ts else wrap64 (ts - Z.rem ts 1000).

(** [Mutation.Set] *)
Definition Set_ (m : Mutation) (family column : string) (ts : Z) (value : list byte) : Mutation :=
  m ++ [mkSetCell family column (TruncateToMilliseconds ts) value].

(** [bigtable.Time(t)]: [Timestamp(t.UnixNano() / 1e3)] *)
Definition Time (t : Time.Time) : Z := Z.quot (Time.UnixNano t) 1000.

(** [Timestamp.Time]: [time.Unix(int64(ts)/1e6, int64(ts)%1e6*1e3)] *)
Definition Timestamp_Time (ts : Z) : Time.Time :=
  Time.Unix (Z.quot ts (10 ^ 6)) (Z.rem ts (10 ^ 6) * 10 ^ 3).
End Bigtable.

(** ** The snapshot schema *)

(** A row of a snapshot table:
    [(key TEXT, column_family TEXT, column TEXT, value BLOB, timestamp INTEGER, chk INTEGER)]. *)
Record SnapRow : Type := mkSnapRow {
  key : string;
  column_family : string;
  column : string;
  value : list byte;
  timestamp : Z;
  chk : Z
}.

(** The statements the program prepares, and its two queries. *)
Inductive Stmt : Type :=
| DropTable (table : string)    (* DROP TABLE IF EXISTS "table" *)
| CreateTable (table : string)  (* CREATE TABLE IF NOT EXISTS "table" (key TEXT, ...) *)
| InsertInto (table : string).  (* INSERT INTO "table" VALUES (?, ?, ?, ?, ?, ?) *)

(** ** Errors and events *)

(** A Go [error] of a library is its message; [None] is [nil]. *)
Inductive result (A : Type) : Type :=
| ok (a : A)
| fail (err : string).
Arguments ok {A} a.
Arguments fail {A} err.

(** The errors the package returns: one constructor for each [fmt.Errorf]
    call, with the operands of its format. *)
Inductive Error : Type :=
| FailedListTables (err : string)          (* failed to list BT tables: %s *)
| FailedDeleteTable (table : string)       (* failed to delete table %q *)
| FailedQueryTableList                     (* failed to query sqlite for list of tables *)
| FailedScan (err : string)                (* failed to scan table-list results: %s *)
| FailedRestoreTable (table : string) (err : Error) (* failed to restore table %q: %s *)
| FailedQueryContents (err : string)       (* failed to query table contents: %s *)
| IntegrityCheckFailed (chk computed : Z)  (* integrity check failed, db.chk=%d, computed hash = %d *)
| FailedWrite (err : string)               (* failed to write to bigtable: %s *)
| FailedWriteItems (n : nat) (first : string) (* failed to write to bigtable, %d errors, first: %s *)
| FailedSaveTable (table : string) (err : Error) (* failed to save table %q: %s *)
| FailedPrepareDrop (err : string)         (* failed to prepare DROP TABLE: %s *)
| FailedExecDrop (err : string)            (* failed to execute DROP TABLE: %s *)
| FailedPrepareCreate (err : string)       (* failed to prepare CREATE TABLE: %s *)
| FailedExecCreate (err : string)          (* failed to execute CREATE TABLE: %s *)
| FailedPrepareInsert (err : string)       (* failed to prepare INSERT: %s *)
| FailedSaveRow (key : string) (err : string) (* failed to save row %s: %s *)
| FailureIterating (err : string).         (* failure while iterating rows: %s *)

(** The lines written with [log.Printf]. *)
Inductive LogLine : Type :=
| Restoring (table : string)          (* restoring %q table... *)
| Restored (c : Z) (table : string)   (* restored %d rows for %s *)
| Saving (table : string)             (* saving %q table... *)
| Saved (c : Z) (table : string).     (* saved %d rows for %s *)

(** What a run does to the outside, in order. A bulk write is recorded
    with its answer. *)
Inductive Event : Type :=
| EvLog (line : LogLine)
| EvTables
| EvDropAllRows (table : string)
| EvReadRows (table : string)
| EvApplyBulk (table : string) (rowKeys : list string) (muts : list Bigtable.Mutation)
              (errs : list (option string)) (err : option string)
| EvPrepare (q : Stmt)
| EvExec (q : Stmt) (args : option SnapRow)
| EvQueryTables
| EvQueryRows (table : string).

(** ** The collaborators

    The Bigtable admin and data clients and the SQL database, as the
    operations the program calls on them, over a state [World] of their
    own. *)
Record Env : Type := {
  World : Type;
  (** [time.Local] of the process *)
  Local : Time.Location;
  (** [adminClient.Tables(ctx)] *)
  Tables : World -> result (list string) * World;
  (** [adminClient.DropAllRows(ctx, table)] *)
  DropAllRows : string -> World -> option string * World;
  (** The rows that [tbl.ReadRows(ctx, an infinite range, f)]
      streams, and the error that ends the stream. *)
  ReadRows : string -> World -> (list Bigtable.Row * option string) * World;
  (** [tbl.ApplyBulk(ctx, keys, muts)]: the per-item errors and the error
      of the call. *)
  ApplyBulk : string -> list string -> list Bigtable.Mutation -> World ->
              (list (option string) * option string) * World;
  (** [db.Prepare(sql)] *)
  Prepare : Stmt -> World -> option string * World;
  (** [stmt.Exec(args...)] *)
  Exec : Stmt -> option SnapRow -> World -> option string * World;
  (** [SELECT name FROM sqlite_master WHERE type='table' AND name NOT LIKE 'sqlite_%']:
      what each [rows.Next(); rows.Scan(&table)] gives. *)
  QueryTables : World -> result (list (result string)) * World;
  (** [SELECT key, column_family, column, value, timestamp, chk FROM "table"]:
      what each [rows.Next(); rows.Scan(...)] gives. *)
  QueryRows : string -> World -> result (list (result SnapRow)) * World
}.

(** ** The program *)

(** [filterErrors]: the errors of [errs] that are not [nil], in order. *)
Fixpoint filterErrors (errs : list (option string)) : list string :=
  match errs with
  | [] => []
  | Some err :: errs' => err :: filterErrors errs'
  | None :: errs' => filterErrors errs'
  end.

Section Program.
Context (E : Env).

(** The state of a run: the collaborators and the events so far. *)
Record State : Type := mkState { world : World E; trace : list Event }.

Definition M (A : Type) : Type := State -> A * State.
Definition ret {A} (a : A) : M A := fun s => (a, s).
Definition bind {A B} (m : M A) (k : A -> M B) : M B :=
  fun s => let '(a, s') := m s in k a s'.

Notation "'let*' x ':=' m 'in' k" := (bind m (fun x => k))
  (at level 10, x pattern, m at level 100, k at level 200, only parsing).

Definition emit (ev : Event) : M unit :=
  fun s => (tt, mkState (world s) (trace s ++ [ev])).

(** A call of an operation [op] of the collaborators, recorded as [ev]. *)
Definition call {A} (ev : Event) (op : World E -> A * World E) : M A :=
  fun s => let '(a, w) := op (world s) in (a, mkState w (trace s ++ [ev])).

Definition logPrintf (line : LogLine) : M unit := emit (EvLog line).

(** [tbl.ApplyBulk], recorded with its answer. *)
Definition callApplyBulk (table : string) (keys : list string) (muts : list Bigtable.Mutation)
  : M (list (option string) * option string) :=
  fun s => let '((errs, err), w) := ApplyBulk E table keys muts (world s) in
           ((errs, err), mkState w (trace s ++ [EvApplyBulk table keys muts errs err])).

(** *** RestoreTable *)

(** The checksum as [RestoreTable] recomputes it from a scanned row
    (lines 83 to 92). *)
Definition restoreSum (key cf col : string) (value : list byte) (ts : Z) : Z :=
  let timestamp := Time.Unix 0 ts in
  let hasher := Fnv.New32a in
  let hasher := Fmt.Fprintf hasher key in
  let hasher := Fmt.Fprintf hasher cf in
  let hasher := Fmt.Fprintf hasher col in
  let hasher := Fnv.Write hasher value in
  let hasher := Fmt.Fprintf hasher (Time.Format (Local E) timestamp) in
  Fnv.Sum32 hasher.

(** The bulk write and the check of its answer; the source has this
    block twice, in the loop and after it. *)
Definition applyBulk (table : string) (keys : list string) (muts : list Bigtable.Mutation)
  : M (option Error) :=
  let* (errs, err) := callApplyBulk table keys muts in
  match err with
  | Some err => ret (Some (FailedWrite err))
  | None =>
      let errs := filterErrors errs in
      match errs with
      | first :: _ => ret (Some (FailedWriteItems (length errs) first))
      | [] => ret None
      end
  end.

(** The loop [for rows.Next()] over what the query yields, from the
    counter [c] and the pending batch [keys], [muts]: an error, or the
    state at the end of the rows. *)
Fixpoint restoreRows (table : string) (rows : list (result SnapRow))
    (c : Z) (keys : list string) (muts : list Bigtable.Mutation)
  : M (Error + Z * list string * list Bigtable.Mutation) :=
  match rows with
  | [] => ret (inr (c, keys, muts))
  | fail err :: _ => ret (inl (FailedScan err))
  | ok (mkSnapRow key cf col value ts chk) :: rows' =>
      let timestamp := Time.Unix 0 ts in
      let computed := restoreSum key cf col value ts in
      if negb (chk =? computed) then ret (inl (IntegrityCheckFailed chk computed))
      else
        let m := Bigtable.Set_ Bigtable.NewMutation cf col (Bigtable.Time timestamp) value in
        let c := c + 1 in
        let keys := keys ++ [key] in
        let muts := muts ++ [m] in
        if (length muts =? 100)%nat then
          let* e := applyBulk table keys muts in
          match e with
          | Some e => ret (inl e)
          | None => restoreRows table rows' c [] []
          end
        else restoreRows table rows' c keys muts
  end.

Definition RestoreTable (table : string) : M (option Error) :=
  let* _ := logPrintf (Restoring table) in
  let* q := call (EvQueryRows table) (QueryRows E table) in
  match q with
  | fail err => ret (Some (FailedQueryContents err))
  | ok rows =>
      let* r := restoreRows table rows 0 [] [] in
      match r with
      | inl e => ret (Some e)
      | inr (c, keys, muts) =>
          let* e := (if (0 <? length muts)%nat then applyBulk table keys muts else ret None) in
          match e with
          | Some e => ret (Some e)
          | None => let* _ := logPrintf (Restored c table) in ret None
          end
      end
  end.

(** *** Restore *)

(** The loop that clears the remote tables. *)
Fixpoint dropTables (tables : list string) : M (option Error) :=
  match tables with
  | [] => ret None
  | table :: tables' =>
      let* e := call (EvDropAllRows table) (DropAllRows E table) in
      match e with
      | Some _ => ret (Some (FailedDeleteTable table))
      | None => dropTables tables'
      end
  end.

(** The loop over the names of the snapshot tables. *)
Fixpoint restoreTables (rows : list (result string)) : M (option Error) :=
  match rows with
  | [] => ret None
  | fail err :: _ => ret (Some (FailedScan err))
  | ok table :: rows' =>
      let* e := RestoreTable table in
      match e with
      | Some e => ret (Some (FailedRestoreTable table e))
      | None => restoreTables rows'
      end
  end.

Definition Restore : M (option Error) :=
  let* r := call EvTables (Tables E) in
  match r with
  | fail err => ret (Some (FailedListTables err))
  | ok tables =>
      let tables := Sort.Strings tables in
      let* e := dropTables tables in
      match e with
      | Some e => ret (Some e)
      | None =>
          let* q := call EvQueryTables (QueryTables E) in
          match q with
          | fail _ => ret (Some FailedQueryTableList)
          | ok rows => restoreTables rows
          end
      end
  end.

(** *** SaveTable *)

(** The checksum as [SaveTable] computes it for an item (lines 177 to
    182). *)
Definition saveSum (item : ReadItem.t) (cf col : string) : Z :=
  let hasher := Fnv.New32a in
  let hasher := Fmt.Fprintf hasher (ReadItem.Row item) in
  let hasher := Fmt.Fprintf hasher cf in
  let hasher := Fmt.Fprintf hasher col in
  let hasher := Fnv.Write hasher (ReadItem.Value item) in
  let hasher :=
    Fmt.Fprintf hasher (Time.Format (Local E) (Bigtable.Timestamp_Time (ReadItem.Timestamp item))) in
  Fnv.Sum32 hasher.

(** The snapshot row that [SaveTable] inserts for an item of family [cf]. *)
Definition snapRow (cf : string) (item : ReadItem.t) : SnapRow :=
  (* tricky!  the item.Column that we get back is prefixed with the column family *)
  let col := Strings.TrimPrefix (ReadItem.Column item) (cf +:+ ":") in
  mkSnapRow (ReadItem.Row item) cf col (ReadItem.Value item)
    (Time.UnixNano (Bigtable.Timestamp_Time (ReadItem.Timestamp item)))
    (saveSum item cf col).

(** [for _, item := range items]: the counter, and [rowErr] if an insert
    failed. *)
Fixpoint saveItems (table : string) (row : Bigtable.Row) (cf : string)
    (items : list ReadItem.t) (c : Z) : M (Z * option Error) :=
  match items with
  | [] => ret (c, None)
  | item :: items' =>
      let args := snapRow cf item in
      let* e := call (EvExec (InsertInto table) (Some args)) (Exec E (InsertInto table) (Some args)) in
      match e with
      | Some err => ret (c, Some (FailedSaveRow (Bigtable.Key row) err))
      | None => saveItems table row cf items' (c + 1)
      end
  end.

(** [for cf, items := range row] *)
Fixpoint saveFamilies (table : string) (row : Bigtable.Row)
    (families : list (string * list ReadItem.t)) (c : Z) : M (Z * option Error) :=
  match families with
  | [] => ret (c, None)
  | (cf, items) :: families' =>
      let* (c, rowErr) := saveItems table row cf items c in
      match rowErr with
      | Some _ => ret (c, rowErr)
      | None => saveFamilies table row families' c
      end
  end.

(** [tbl.ReadRows] calling back for each row of the stream: it stops
    without an error when the callback returns false, and returns the
    error of the stream otherwise. Gives [err], [c] and [rowErr]. *)
Fixpoint readRows (table : string) (rows : list Bigtable.Row) (streamErr : option string)
    (c : Z) : M (option string * Z * option Error) :=
  match rows with
  | [] => ret (streamErr, c, None)
  | row :: rows' =>
      let* (c, rowErr) := saveFamilies table row row c in
      match rowErr with
      | Some _ => ret (None, c, rowErr)
      | None => readRows table rows' streamErr c
      end
  end.

Definition SaveTable (table : string) : M (option Error) :=
  let* _ := logPrintf (Saving table) in
  let* e := call (EvPrepare (DropTable table)) (Prepare E (DropTable table)) in
  match e with Some err => ret (Some (FailedPrepareDrop err)) | None =>
  let* e := call (EvExec (DropTable table) None) (Exec E (DropTable table) None) in
  match e with Some err => ret (Some (FailedExecDrop err)) | None =>
  let* e := call (EvPrepare (CreateTable table)) (Prepare E (CreateTable table)) in
  match e with Some err => ret (Some (FailedPrepareCreate err)) | None =>
  let* e := call (EvExec (CreateTable table) None) (Exec E (CreateTable table) None) in
  match e with Some err => ret (Some (FailedExecCreate err)) | None =>
  let* e := call (EvPrepare (InsertInto table)) (Prepare E (InsertInto table)) in
  match e with Some err => ret (Some (FailedPrepareInsert err)) | None =>
  let* (rows, streamErr) := call (EvReadRows table) (ReadRows E table) in
  let* (err, c, rowErr) := readRows table rows streamErr 0 in
  match err with Some err => ret (Some (FailureIterating err)) | None =>
  match rowErr with Some rowErr => ret (Some rowErr) | None =>
  let* _ := logPrintf (Saved c table) in ret None
  end end end end end end end.

(** *** SaveAll *)

(** The loop over the sorted remote tables. *)
Fixpoint saveTables (tables : list string) : M (option Error) :=
  match tables with
  | [] => ret None
  | table :: tables' =>
      let* e := SaveTable table in
      match e with
      | Some e => ret (Some (FailedSaveTable table e))
      | None => saveTables tables'
      end
  end.

Definition SaveAll : M (option Error) :=
  let* r := call EvTables (Tables E) in
  match r with
  | fail err => ret (Some (FailedListTables err))
  | ok tables =>
      let tables := Sort.Strings tables in
      saveTables tables
  end.
End Program.

Arguments mkState {E} world trace.
Arguments world {E} s.
Arguments trace {E} s.

(** ** An in-memory Bigtable and SQLite

    The collaborators as they behave when nothing fails on its own: a
    Bigtable instance whose tables hold cells under
    (row key, family, qualifier, timestamp), and a SQLite file whose tables
    hold rows in insertion order. The process runs in UTC.

    Bigtable tells its tables apart by the bytes of their names. SQLite
    does not: it compares the names of tables without regard to the case
    of the ASCII letters, and it keeps the names that start with [sqlite_]
    for itself. The program puts the name of a table between double quotes
    in the text of a statement: the statements of the model are those of
    the names that stand for themselves there ([quotable]: no double
    quote, no zero byte), as the ids of Bigtable tables do. *)
Module Mem.
Definition CellId : Type := string * string * string * Z.

(** A remote table: its column families and its cells. *)
Record Table : Type := mkTable {
  families : list string;
  cells : gmap CellId (list byte)
}.

Record World : Type := mkWorld {
  bt : list (string * Table);        (* the tables, as the admin client lists them *)
  clock : Z;                         (* the time of the server, in microseconds *)
  mapSeed : nat;                     (* stands for Go's choice of an order for [range] over a map *)
  db : list (string * list SnapRow)  (* the tables of sqlite_master, and their rows *)
}.

Definition rowKey (c : CellId * list byte) : string := c.1.1.1.1.
Definition family (c : CellId * list byte) : string := c.1.1.1.2.

(** The client names the column of an item [family:qualifier]. *)
Definition toItem (c : CellId * list byte) : ReadItem.t :=
  let '((row, fam, qual, ts), v) := c in ReadItem.mk row (fam +:+ ":" +:+ qual) ts v.

(** The row of key [k]: its families, each with its items. *)
Definition rowOf (seed : nat) (cs : list (CellId * list byte)) (k : string) : Bigtable.Row :=
  let here := filter (fun c => rowKey c = k) cs in
  rotate seed
    (map (fun f => (f, map toItem (filter (fun c => family c = f) here)))
         (remove_dups (map family here))).

(** A scan of the whole table: the rows in the order of their keys. *)
Definition scan (seed : nat) (t : Table) : list Bigtable.Row :=
  let cs := map_to_list (cells t) in
  map (rowOf seed cs) (Sort.Strings (remove_dups (map rowKey cs))).

Fixpoint lookup {A} (name : string) (l : list (string * A)) : option A :=
  match l with
  | [] => None
  | (n, a) :: l' => if decide (n = name) then Some a else lookup name l'
  end.

Fixpoint update {A} (name : string) (f : A -> A) (l : list (string * A)) : list (string * A) :=
  match l with
  | [] => []
  | (n, a) :: l' => if decide (n = name) then (n, f a) :: l' else (n, a) :: update name f l'
  end.

(** SQLite compares the names of tables without regard to the case of
    the ASCII letters: [DROP TABLE "t"] drops a table made as [T]. *)
Definition lower (c : ascii) : ascii :=
  if (65 <=? code c) && (code c <=? 90) then chr (code c + 32) else c.
Fixpoint lowerString (s : string) : string :=
  match s with
  | EmptyString => EmptyString
  | String c s' => String (lower c) (lowerString s')
  end.
Definition sameName (a b : string) : Prop := lowerString a = lowerString b.

#[global] Instance sameName_dec a b : Decision (sameName a b).
Proof. unfold sameName. apply _. Defined.

(** The table that a statement of SQLite calls [name]: its name as it is
    stored, and what it holds. A database file has no two tables whose
    names differ in case only, so that at most one table answers to a
    name; the table of the very name is taken when there is one. *)
Definition find {A} (name : string) (l : list (string * A)) : option (string * A) :=
  match lookup name l with
  | Some a => Some (name, a)
  | None => head (filter (fun e => sameName e.1 name) l)
  end.

(** The tables that do not answer to [name]. *)
Fixpoint remove {A} (name : string) (l : list (string * A)) : list (string * A) :=
  match l with
  | [] => []
  | (n, a) :: l' => if decide (sameName n name) then remove name l' else (n, a) :: remove name l'
  end.

(** One [SetCell] on the row [key]; [ServerTime] takes the clock. *)
Definition setCell (now : Z) (key : string) (cs : gmap CellId (list byte)) (op : Bigtable.SetCell)
  : gmap CellId (list byte) :=
  let ts := Bigtable.TimestampMicros op in
  let ts := if ts =? Bigtable.ServerTime then now else ts in
  <[(key, Bigtable.FamilyName op, Bigtable.ColumnQualifier op, ts) := Bigtable.CellValue op]> cs.

Definition knownFamilies (t : Table) (m : Bigtable.Mutation) : bool :=
  forallb (fun op => bool_decide (Bigtable.FamilyName op ∈ families t)) m.

(** The entries of a bulk write, one after the other: an entry that
    names an unknown family is refused as a whole, the others are
    applied. *)
Fixpoint applyEntries (now : Z) (entries : list (string * Bigtable.Mutation)) (t : Table)
  : list (option string) * Table :=
  match entries with
  | [] => ([], t)
  | (key, m) :: entries' =>
      if knownFamilies t m then
        let t' := mkTable (families t) (foldl (setCell now key) (cells t) m) in
        let '(errs, t'') := applyEntries now entries' t' in (None :: errs, t'')
      else
        let '(errs, t'') := applyEntries now entries' t in (Some "unknown family" :: errs, t'')
  end.

(** A name that stands for itself between double quotes in the text of
    a statement: it has no double quote, which would end the name, and no
    zero byte, at which the text that SQLite is given ends. *)
Fixpoint quotable (name : string) : bool :=
  match name with
  | EmptyString => true
  | String c name' =>
      negb (bool_decide (c = chr 34)) && negb (bool_decide (c = chr 0)) && quotable name'
  end.

(** [name LIKE 'sqlite_%']: the six letters in either case, then at
    least one character. *)
Definition likeSqlite (name : string) : bool :=
  Strings.HasPrefix (lowerString name) "sqlite" && (6 <? String.length name)%nat.

(** The names that SQLite keeps for itself: [sqlite_], in either case,
    and what follows. [CREATE TABLE] refuses them. *)
Definition reserved (name : string) : bool :=
  Strings.HasPrefix (lowerString name) "sqlite_".

(** [DROP TABLE] refuses the schema table, which is always there and goes
    by four names (two of them from version 3.33 on), and the tables of a
    reserved name other than those of the statistics and of the
    parameters. *)
Definition schemaTable (name : string) : bool :=
  bool_decide (lowerString name ∈
    ["sqlite_master"; "sqlite_schema"; "sqlite_temp_master"; "sqlite_temp_schema"]).
Definition mayNotBeDropped (name : string) : bool :=
  reserved name && negb (Strings.HasPrefix (lowerString name) "sqlite_stat")
    && negb (Strings.HasPrefix (lowerString name) "sqlite_parameters").

Definition Tables (w : World) : result (list string) * World := (ok (map fst (bt w)), w).

Definition DropAllRows (table : string) (w : World) : option string * World :=
  match lookup table (bt w) with
  | Some _ =>
      (None, mkWorld (update table (fun t => mkTable (families t) ∅) (bt w))
                     (clock w) (mapSeed w) (db w))
  | None => (Some "table not found", w)
  end.

Definition ReadRows (table : string) (w : World) : (list Bigtable.Row * option string) * World :=
  match lookup table (bt w) with
  | Some t => ((scan (mapSeed w) t, None), mkWorld (bt w) (clock w) (S (mapSeed w)) (db w))
  | None => (([], Some "table not found"), w)
  end.

Definition ApplyBulk (table : string) (keys : list string) (muts : list Bigtable.Mutation)
    (w : World) : (list (option string) * option string) * World :=
  if negb (length keys =? length muts)%nat
  then (([], Some "mismatched rowKeys and mutation array lengths"), w)
  else match lookup table (bt w) with
       | Some t =>
           let '(errs, t') := applyEntries (clock w) (zip keys muts) t in
           let errs := if forallb (fun e => bool_decide (e = None)) errs then [] else errs in
           ((errs, None), mkWorld (update table (fun _ => t') (bt w)) (clock w) (mapSeed w) (db w))
       | None => (([], Some "table not found"), w)
       end.

(** [db.Prepare]: SQLite compiles the statement, and looks the table up
    as it does so. *)
Definition Prepare (q : Stmt) (w : World) : option string * World :=
  match q with
  | DropTable table =>
      if mayNotBeDropped table && (schemaTable table || bool_decide (is_Some (find table (db w))))
      then (Some "table may not be dropped", w)
      else (None, w)
  | CreateTable table =>
      if reserved table then (Some "object name reserved for internal use", w)
      else (None, w)
  | InsertInto table =>
      match find table (db w) with
      | Some _ => (None, w)
      | None => (Some "no such table", w)
      end
  end.

(** [stmt.Exec]: a statement runs as it is compiled when it runs (SQLite
    compiles it again when the schema has changed). [DROP TABLE IF EXISTS]
    drops the table that answers to the name, [CREATE TABLE IF NOT EXISTS]
    does nothing when a table answers to the name, and adds the table
    after the others when none does. *)
Definition Exec (q : Stmt) (args : option SnapRow) (w : World) : option string * World :=
  match Prepare q w with
  | (Some err, _) => (Some err, w)
  | (None, _) =>
      match q, args with
      | DropTable table, _ =>
          (None, mkWorld (bt w) (clock w) (mapSeed w) (remove table (db w)))
      | CreateTable table, _ =>
          match find table (db w) with
          | Some _ => (None, w)
          | None => (None, mkWorld (bt w) (clock w) (mapSeed w) (db w ++ [(table, [])]))
          end
      | InsertInto table, Some row =>
          match find table (db w) with
          | Some (stored, _) =>
              (None, mkWorld (bt w) (clock w) (mapSeed w)
                       (update stored (fun rows => rows ++ [row]) (db w)))
          | None => (Some "no such table", w)
          end
      | InsertInto table, None => (Some "missing arguments", w)
      end
  end.

Definition QueryTables (w : World) : result (list (result string)) * World :=
  (ok (map ok (filter (fun name => likeSqlite name = false) (map fst (db w)))), w).

Definition QueryRows (table : string) (w : World) : result (list (result SnapRow)) * World :=
  match find table (db w) with
  | Some (_, rows) => (ok (map ok rows), w)
  | None => (fail "no such table", w)
  end.

(** The collaborators, for a process in the time zone [loc]. *)
Definition envAt (loc : Time.Location) : Env :=
  Build_Env World loc Tables DropAllRows ReadRows ApplyBulk Prepare Exec
    QueryTables QueryRows.
Definition env : Env := envAt Time.UTC.

(** A run from the world [w] with no events yet. *)
Definition run {A} (m : M env A) (w : World) : A * State env := m (mkState (E := env) w []).
End Mem.

(** ** Notions used to state the properties *)

(** The entry of a bulk write that [RestoreTable] builds for a scanned
    row: its key and its mutation. *)
Definition entry (r : SnapRow) : string * Bigtable.Mutation :=
  (key r,
   Bigtable.Set_ Bigtable.NewMutation (column_family r) (column r)
     (Bigtable.Time (Time.Unix 0 (timestamp r))) (value r)).

(** A row whose stored checksum is the one [RestoreTable] recomputes. *)
Definition verified (E : Env) (r : SnapRow) : Prop :=
  chk r = restoreSum E (key r) (column_family r) (column r) (value r) (timestamp r).

#[global] Instance verified_dec E r : Decision (verified E r).
Proof. unfold verified. apply _. Defined.

(** The error that the program derives from the answer of a bulk write,
    if any. *)
Definition verdict (errs : list (option string)) (err : option string) : option Error :=
  match err with
  | Some e => Some (FailedWrite e)
  | None =>
      match filterErrors errs with
      | first :: rest => Some (FailedWriteItems (S (length rest)) first)
      | [] => None
      end
  end.

Definition isBulk (ev : Event) : Prop :=
  match ev with EvApplyBulk _ _ _ _ _ => True | _ => False end.

(** The answer recorded in a bulk write reports no failure. *)
Definition accepted (ev : Event) : Prop :=
  match ev with EvApplyBulk _ _ _ errs err => verdict errs err = None | _ => True end.

#[global] Instance accepted_dec ev : Decision (accepted ev).
Proof. destruct ev; simpl; apply _. Defined.

(** The bulk writes of a trace: table, keys and mutations. *)
Definition bulkCalls (tr : list Event) : list (string * list string * list Bigtable.Mutation) :=
  omap (fun ev => match ev with
                  | EvApplyBulk table keys muts _ _ => Some (table, keys, muts)
                  | _ => None
                  end) tr.

(** The tables cleared in a trace, in order. *)
Definition dropped (tr : list Event) : list string :=
  omap (fun ev => match ev with EvDropAllRows table => Some table | _ => None end) tr.

(** The tables for which [RestoreTable], respectively [SaveTable], was
    entered in a trace, in order: each logs its first line on entry. *)
Definition restoring (tr : list Event) : list string :=
  omap (fun ev => match ev with EvLog (Restoring table) => Some table | _ => None end) tr.
Definition saving (tr : list Event) : list string :=
  omap (fun ev => match ev with EvLog (Saving table) => Some table | _ => None end) tr.

(** The rows inserted in a trace, in order. *)
Definition inserted (tr : list Event) : list (string * SnapRow) :=
  omap (fun ev => match ev with
                  | EvExec (InsertInto table) (Some r) => Some (table, r)
                  | _ => None
                  end) tr.

(** The events that a computation adds to the trace of [s]. *)
Definition events {E A} (m : M E A) (s : State E) : list Event :=
  drop (length (trace s)) (trace (m s).2).

(** [l] cut into consecutive pieces of [n] elements, the last one shorter
    when [n] does not divide the length. *)
Fixpoint chunksFrom {A} (fuel n : nat) (l : list A) : list (list A) :=
  match fuel, l with
  | _, [] => []
  | O, _ => []
  | S fuel', _ => take n l :: chunksFrom fuel' n (drop n l)
  end.
Definition chunks {A} (n : nat) (l : list A) : list (list A) := chunksFrom (length l) n l.

(** The bulk write of a piece of entries on [table]. *)
Definition bulkOf (table : string) (piece : list (string * Bigtable.Mutation))
  : string * list string * list Bigtable.Mutation :=
  (table, piece.*1, piece.*2).

(** The names that a query of the snapshot tables scanned successfully. *)
Definition scanned {A} (rows : list (result A)) : list A :=
  omap (fun r => match r with ok a => Some a | fail _ => None end) rows.

(** The snapshot rows of a stream of rows, in the order in which
    [SaveTable] visits the items. *)
Definition snapRows (E : Env) (rows : list Bigtable.Row) : list SnapRow :=
  row ← rows; '(cf, items) ← row; snapRow E cf <$> items.

(** A string without a percent sign. *)
Fixpoint plain (s : string) : bool :=
  match s with
  | EmptyString => true
  | String c s' => negb (bool_decide (c = "%"%char)) && plain s'
  end.

(** Modelled on the words of the specification, for comparison with the
    program: the timestamp as an ISO-8601 string with nine digits of
    fraction, whatever they are. *)
Definition fixedPrecision (loc : Time.Location) (t : Time.Time) : string :=
  let offset := loc (Time.sec t) in
  let abs := Time.sec t + offset in
  let '(year, month, day) := Time.date (abs / 86400) in
  let clock := abs mod 86400 in
  let zone := Z.quot offset 60 in
  Time.appendInt year 4 +:+ "-" +:+ Time.appendInt month 2 +:+ "-" +:+ Time.appendInt day 2 +:+ "T"
    +:+ Time.appendInt (clock / 3600) 2 +:+ ":" +:+ Time.appendInt (clock mod 3600 / 60) 2 +:+ ":"
    +:+ Time.appendInt (clock mod 60) 2
    +:+ "." +:+ Time.appendInt (Time.nsec t) 9
    +:+ (if offset =? 0 then "Z"
         else (if zone <? 0 then "-" else "+")
                +:+ Time.appendInt (Z.abs zone / 60) 2 +:+ ":" +:+ Time.appendInt (Z.abs zone mod 60) 2).

(** The checksum as the specification words it: the hash of the row key,
    the family, the column and the value as raw bytes, then of the
    timestamp in fixed precision. *)
Definition specChecksum (loc : Time.Location) (key cf col : string) (value : list byte)
    (t : Time.Time) : Z :=
  Fnv.Sum32 (Fnv.Write Fnv.New32a
    (bytesOf key ++ bytesOf cf ++ bytesOf col ++ value ++ bytesOf (fixedPrecision loc t))).

(** The checksum of a cell at the instant [t]: the hash of the row key,
    the family, the column and the value as raw bytes, then of the
    timestamp in the layout RFC3339Nano. *)
Definition checksum (loc : Time.Location) (key cf col : string) (value : list byte)
    (t : Time.Time) : Z :=
  Fnv.Sum32 (Fnv.Write Fnv.New32a
    (bytesOf key ++ bytesOf cf ++ bytesOf col ++ value ++ bytesOf (Time.Format loc t))).

(** How a run stands with the store: every bulk write was accepted, or
    the last event is a bulk write that was not, and the run returns the
    error derived from its answer. *)
Definition stopsAtRefusal (evs : list Event) (res : option Error) : Prop :=
  Forall accepted evs \/
  exists evs0 t k m errs err e,
    evs = evs0 ++ [EvApplyBulk t k m errs err] /\ Forall accepted evs0 /\
    verdict errs err = Some e /\ res = Some e.

Definition errorOf {A} (r : Error + A) : option Error :=
  match r with inl e => Some e | inr _ => None end.

(** The index and the key of the first item that a bulk write of the
    trace reports as failed. *)
Fixpoint firstFailed (i : nat) (keys : list string) (errs : list (option string))
  : option (nat * string) :=
  match errs, keys with
  | Some _ :: _, key :: _ => Some (i, key)
  | None :: errs', _ :: keys' => firstFailed (S i) keys' errs'
  | _, _ => None
  end.
Definition failedItem (evs : list Event) : option (nat * string) :=
  head (omap (fun ev => match ev with
                        | EvApplyBulk _ keys _ errs None => firstFailed 0 keys errs
                        | _ => None
                        end) evs).

(** The events of [RestoreTable] after its first line and its query: bulk
    writes and the line that counts the rows. *)
Definition restoreTail (ev : Event) : Prop :=
  match ev with
  | EvApplyBulk _ _ _ _ _ | EvLog (Restored _ _) => True
  | _ => False
  end.

(** The events of [RestoreTable]. *)
Definition restoreEvent (ev : Event) : Prop :=
  match ev with
  | EvApplyBulk _ _ _ _ _ | EvLog (Restored _ _) | EvLog (Restoring _) | EvQueryRows _ => True
  | _ => False
  end.

(** The state of a run of [Restore] from [s] once the remote tables
    [tables] are listed and cleared: the one in which the snapshot tables
    are queried. *)
Definition afterClear (E : Env) (tables : list string) (s : State E) : State E :=
  (dropTables E (Sort.Strings tables) (call E EvTables (Tables E) s).2).2.

(** The insertion of a row in a snapshot table, as an event. *)
Definition insertOf (table : string) (r : SnapRow) : Event := EvExec (InsertInto table) (Some r).

(** The snapshot rows of the families of a row. *)
Definition familyRows (E : Env) (families : list (string * list ReadItem.t)) : list SnapRow :=
  '(cf, items) ← families; snapRow E cf <$> items.

(** The events of [SaveTable] before its first insertion. *)
Definition setupEvent (ev : Event) : Prop :=
  match ev with
  | EvPrepare _ | EvExec (DropTable _) _ | EvExec (CreateTable _) _ | EvReadRows _ => True
  | _ => False
  end.

(** A computation that adds to the trace only events that satisfy [P]. *)
Definition emits {E A} (P : Event -> Prop) (m : M E A) : Prop :=
  forall s, exists evs, trace (m s).2 = trace s ++ evs /\ Forall P evs.

(** An event that is not the first line of [SaveTable]. *)
Definition notSaving (ev : Event) : Prop :=
  match ev with EvLog (Saving _) => False | _ => True end.

(** The snapshot after the insertion of [rows] in [table]. *)
Definition withRows (table : string) (rows : list SnapRow) (w : Mem.World) : Mem.World :=
  Mem.mkWorld (Mem.bt w) (Mem.clock w) (Mem.mapSeed w)
    (Mem.update table (fun old => old ++ rows) (Mem.db w)).

(** The remote store with every table emptied, as a restore finds it
    when it starts from an empty store. *)
Definition emptied (w : Mem.World) : Mem.World :=
  Mem.mkWorld ((fun nt => (nt.1, Mem.mkTable (Mem.families nt.2) ∅)) <$> Mem.bt w)
    (Mem.clock w) (Mem.mapSeed w) (Mem.db w).

(** A table is saved, then restored from the snapshot into the emptied
    store: what the restore returns, and the state it leaves. *)
Definition saveThenRestore (table : string) (s : State Mem.env) : option Error * State Mem.env :=
  let saved := (SaveTable Mem.env table s).2 in
  RestoreTable Mem.env table (mkState (E := Mem.env) (emptied (world saved)) (trace saved)).

(** An event of [SaveTable] on [table]: if it inserts a row, the row goes
    to [table] and is the snapshot row of an item of a stream of rows that
    the remote table gave. *)
Definition fromStream (E : Env) (table : string) (ev : Event) : Prop :=
  match ev with
  | EvExec (InsertInto t) (Some r) =>
      t = table /\
      exists w row cf items item,
        row ∈ (ReadRows E table w).1.1 /\ (cf, items) ∈ row /\ item ∈ items /\
        r = snapRow E cf item
  | _ => True
  end.

(** The cells of a table after the entries of bulk writes were applied
    to it, one after the other. *)
Definition applyAll (now : Z) (entries : list (string * Bigtable.Mutation))
    (cells : gmap Mem.CellId (list byte)) : gmap Mem.CellId (list byte) :=
  foldl (fun cs e => foldl (Mem.setCell now e.1) cs e.2) cells entries.

(** A table as Bigtable keeps it (cells in families of the table, with
    timestamps from the epoch on, in whole milliseconds), and whose
    timestamps fit, in nanoseconds, in an int64. *)
Definition inRange (t : Mem.Table) : Prop :=
  forall row fam qual ts v,
    Mem.cells t !! (row, fam, qual, ts) = Some v ->
    fam ∈ Mem.families t /\ 0 <= ts /\ ts mod 1000 = 0 /\ ts * 1000 < 2 ^ 63.

(** The snapshot row of a cell. *)
Definition cellRow (c : Mem.CellId * list byte) : SnapRow :=
  snapRow Mem.env (Mem.family c) (Mem.toItem c).

(** ** Concrete scenarios *)

(** A verified snapshot row of the family [cf], numbered [i]. *)
Definition sampleRowIn (cf : string) (i : nat) : SnapRow :=
  let key := "row" +:+ Time.decimal (Z.of_nat i) in
  let ts := 1600000000000000000 + Z.of_nat i * 1000000 in
  mkSnapRow key cf "c" (bytesOf "v") ts (restoreSum Mem.env key cf "c" (bytesOf "v") ts).
Definition sampleRow (i : nat) : SnapRow := sampleRowIn "cf" i.

(** A snapshot of the table [t] with the given rows, and an empty remote
    table [t] with the family [cf]. *)
Definition snapshotWorld (rows : list SnapRow) : Mem.World :=
  Mem.mkWorld [("t", Mem.mkTable ["cf"] ∅)] 0 0 [("t", rows)].

(** A snapshot with [n] verified rows. *)
Definition sampleRows (n : nat) : list SnapRow := sampleRow <$> seq 0 n.
Definition sampleWorld (n : nat) : Mem.World := snapshotWorld (sampleRows n).
Definition sampleState (n : nat) : State Mem.env := mkState (E := Mem.env) (sampleWorld n) [].

(** Snapshots of two rows, one of them of a family [zz] that the remote
    table does not have: the first row, respectively the second. *)
Definition refusedFirst : State Mem.env :=
  mkState (E := Mem.env) (snapshotWorld [sampleRowIn "zz" 0; sampleRowIn "cf" 1]) [].
Definition refusedSecond : State Mem.env :=
  mkState (E := Mem.env) (snapshotWorld [sampleRowIn "cf" 0; sampleRowIn "zz" 1]) [].

(** A snapshot of three rows; a byte of the value of the second one was
    changed after it was saved. *)
Definition corrupt (r : SnapRow) : SnapRow :=
  mkSnapRow (key r) (column_family r) (column r) (bytesOf "w") (timestamp r) (chk r).
Definition corruptedState : State Mem.env :=
  mkState (E := Mem.env) (snapshotWorld [sampleRow 0; corrupt (sampleRow 1); sampleRow 2]) [].

(** An item whose column the store qualifies with its family [cf1]. *)
Definition cf1Item : ReadItem.t :=
  ReadItem.mk "r1" "cf1:mycolumn" 1600000000000000 (bytesOf "v").

(** Remote tables listed as [b], [a], [c], and a snapshot whose tables
    are stored as [a], [c], [b]. *)
Definition orderWorld : Mem.World :=
  Mem.mkWorld [("b", Mem.mkTable ["cf"] ∅); ("a", Mem.mkTable ["cf"] ∅); ("c", Mem.mkTable ["cf"] ∅)]
    0 0 [("a", []); ("c", []); ("b", [])].
Definition orderState : State Mem.env := mkState (E := Mem.env) orderWorld [].

(** How such a snapshot comes about: the three tables were saved, then
    only [b] was left in the instance and saved again. *)
Definition onlyB (w : Mem.World) : Mem.World :=
  Mem.mkWorld [("b", Mem.mkTable ["cf"] ∅)] (Mem.clock w) (Mem.mapSeed w) (Mem.db w).
Definition savedTwice : Mem.World :=
  let w0 := Mem.mkWorld (Mem.bt orderWorld) 0 0 [] in
  let w1 := world (Mem.run (SaveAll Mem.env) w0).2 in
  world (Mem.run (SaveAll Mem.env) (onlyB w1)).2.

(** A remote table [t] with one row of two families, and no snapshot. *)
Definition twoFamilies : Mem.Table :=
  Mem.mkTable ["cf1"; "cf2"]
    {[ ("r1", "cf1", "a", 1600000000000000) := bytesOf "x";
       ("r1", "cf2", "b", 1600000000001000) := bytesOf "y" ]}.
Definition twoFamiliesState : State Mem.env :=
  mkState (E := Mem.env) (Mem.mkWorld [("t", twoFamilies)] 0 0 []) [].

(** A remote table [t] with one cell, whose timestamp is
    10^16 microseconds (in November 2286). *)
Definition farTable : Mem.Table :=
  Mem.mkTable ["cf"] {[ ("r", "cf", "c", 10 ^ 16) := bytesOf "v" ]}.
Definition farState : State Mem.env :=
  mkState (E := Mem.env) (Mem.mkWorld [("t", farTable)] 0 0 []) [].

(** A remote table [t] with one cell of the family [cf1] and the column
    [mycolumn], and no snapshot. *)
Definition cf1State : State Mem.env :=
  mkState (E := Mem.env)
    (Mem.mkWorld [("t", Mem.mkTable ["cf1"]
                          {[ ("r1", "cf1", "mycolumn", 1600000000000000) := bytesOf "v" ]})]
       0 0 []) [].

(** A remote table [t] with two families and three cells: a value with
    zero bytes, an empty value, and a row key with a percent sign; the
    snapshot holds an older table [t]. *)
Definition zeroTable : Mem.Table :=
  Mem.mkTable ["cf"; "meta"]
    (<[ ("r1", "cf", "a", 1600000000000000) := [Byte.x00; Byte.x61; Byte.x00] ]>
       (<[ ("r1", "meta", "b", 0) := [] ]>
          {[ ("r2%d", "cf", "a", 1600000000001000) := bytesOf "v" ]})).
Definition zeroState : State Mem.env :=
  mkState (E := Mem.env) (Mem.mkWorld [("t", zeroTable)] 7 1 [("t", [sampleRow 0])]) [].

(** ** Notions for the sizes of the bulk writes *)

(** A bulk write of exactly 100 entries on [table], and a bulk write of
    the entries that are left when the rows end. *)
Definition fullBulk (table : string) (b : string * list string * list Bigtable.Mutation) : Prop :=
  b.1.1 = table /\ length b.1.2 = 100%nat /\ length b.2 = 100%nat.
Definition lastBulk (table : string) (b : string * list string * list Bigtable.Mutation) : Prop :=
  b.1.1 = table /\ length b.1.2 = length b.2 /\ (1 <= length b.2 < 100)%nat.

(** The entries of a bulk write: each key with its mutation. *)
Definition entriesOf (b : string * list string * list Bigtable.Mutation)
  : list (string * Bigtable.Mutation) := zip b.1.2 b.2.

(** The collaborators in memory, with a snapshot that is damaged: the
    query of the rows of a table yields [rows], then fails to scan. *)
Definition scanFails (rows : list SnapRow) (err : string) : Env :=
  Build_Env Mem.World Time.UTC Mem.Tables Mem.DropAllRows Mem.ReadRows Mem.ApplyBulk
    Mem.Prepare Mem.Exec Mem.QueryTables
    (fun _ w => (ok ((ok <$> rows) ++ [fail err]), w)).
(** A damaged snapshot of 101 verified rows, and the state of a run on
    it. *)
Definition damagedState : State (scanFails (sampleRows 101) "database disk image is malformed") :=
  mkState (E := scanFails (sampleRows 101) "database disk image is malformed") (sampleWorld 0) [].

(** The collaborators in memory, with an admin client that is not
    allowed to clear the table [victim]. *)
Definition denyDrop (victim : string) : Env :=
  Build_Env Mem.World Time.UTC Mem.Tables
    (fun table w => if decide (table = victim) then (Some "permission denied", w)
                    else Mem.DropAllRows table w)
    Mem.ReadRows Mem.ApplyBulk Mem.Prepare Mem.Exec Mem.QueryTables Mem.QueryRows.
Definition deniedState : State (denyDrop "b") := mkState (E := denyDrop "b") orderWorld [].

(** The events of [SaveTable] up to the scan of the remote table. *)
Definition setupOf (table : string) : list Event :=
  [EvLog (Saving table); EvPrepare (DropTable table); EvExec (DropTable table) None;
   EvPrepare (CreateTable table); EvExec (CreateTable table) None;
   EvPrepare (InsertInto table); EvReadRows table].

(** The errors of the five steps of [SaveTable] before the scan. *)
Definition setupError (e : Error) : Prop :=
  match e with
  | FailedPrepareDrop _ | FailedExecDrop _ | FailedPrepareCreate _ | FailedExecCreate _
  | FailedPrepareInsert _ => True
  | _ => False
  end.

(** What [SaveTable] does after the scan has begun: it inserts rows in
    its table and logs the count. *)
Definition afterScan (table : string) (ev : Event) : Prop :=
  match ev with
  | EvExec (InsertInto t) (Some _) => t = table
  | EvLog (Saved _ t) => t = table
  | _ => False
  end.

(** The collaborators in memory, with a database file that is full once a
    table holds [quota] rows, and with a database file that is opened
    read-only. *)
Definition diskFull (quota : nat) : Env :=
  Build_Env Mem.World Time.UTC Mem.Tables Mem.DropAllRows Mem.ReadRows Mem.ApplyBulk Mem.Prepare
    (fun q args w =>
       match q with
       | InsertInto table =>
           match Mem.find table (Mem.db w) with
           | Some (_, rows) =>
               if (quota <=? length rows)%nat then (Some "database or disk is full", w)
               else Mem.Exec q args w
           | None => Mem.Exec q args w
           end
       | _ => Mem.Exec q args w
       end)
    Mem.QueryTables Mem.QueryRows.
Definition readOnlyDb : Env :=
  Build_Env Mem.World Time.UTC Mem.Tables Mem.DropAllRows Mem.ReadRows Mem.ApplyBulk Mem.Prepare
    (fun _ _ w => (Some "attempt to write a readonly database", w))
    Mem.QueryTables Mem.QueryRows.

(** A remote table with its rows dropped. *)
Definition cleared (t : Mem.Table) : Mem.Table := Mem.mkTable (Mem.families t) ∅.

(** The user tables of the snapshot: the names that the query of
    [Restore] lists. *)
Definition userTables (w : Mem.World) : list string :=
  filter (fun name => Mem.likeSqlite name = false) (Mem.db w).*1.

(** The cells of the snapshot table [name]: what the entries of its rows
    set, one after the other, in an empty table; nothing when the snapshot
    has no user table of that name. *)
Definition snapshotCells (w : Mem.World) (name : string) : gmap Mem.CellId (list byte) :=
  if decide (name ∈ userTables w)
  then applyAll (Mem.clock w) (entry <$> default [] (Mem.lookup name (Mem.db w))) ∅
  else ∅.

(** An instance whose only table has a name that starts with [sqlite],
    and no snapshot. *)
Definition sqliteNamed : State Mem.env :=
  mkState (E := Mem.env) (Mem.mkWorld [("sqlitedata", zeroTable)] 0 0 []) [].

(** An instance of two tables, and a snapshot with an older table [a]. *)
Definition twoTables : State Mem.env :=
  mkState (E := Mem.env)
    (Mem.mkWorld [("b", zeroTable); ("a", twoFamilies)] 5 2 [("a", [sampleRow 0])]) [].

(** The collaborators in memory, with a snapshot file that is not a
    database: the query of its tables fails. *)
Definition notADatabase : Env :=
  Build_Env Mem.World Time.UTC Mem.Tables Mem.DropAllRows Mem.ReadRows Mem.ApplyBulk
    Mem.Prepare Mem.Exec
    (fun w => (fail "file is not a database", w))
    Mem.QueryRows.

(** The collaborators in memory, with a stream of rows that breaks after
    [n] rows. *)
Definition streamBreaks (n : nat) (err : string) : Env :=
  Build_Env Mem.World Time.UTC Mem.Tables Mem.DropAllRows
    (fun table w => let '((rows, _), w') := Mem.ReadRows table w in ((take n rows, Some err), w'))
    Mem.ApplyBulk Mem.Prepare Mem.Exec Mem.QueryTables Mem.QueryRows.
(** The table [t] of two rows, read through a stream that breaks after
    the first one. *)
Definition brokenState : State (streamBreaks 1 "connection reset by peer") :=
  mkState (E := streamBreaks 1 "connection reset by peer") (world zeroState) [].

(** A snapshot of 103 rows; a byte of the value of the 102nd was changed
    after it was saved. *)
Definition corruptedLate : State Mem.env :=
  mkState (E := Mem.env)
    (snapshotWorld (sampleRows 101 ++ [corrupt (sampleRow 101); sampleRow 102])) [].


(** An instance whose only table has a name that SQLite keeps for
    itself, and no snapshot. *)
Definition reservedState : State Mem.env :=
  mkState (E := Mem.env) (Mem.mkWorld [("sqlite_foo", twoFamilies)] 0 0 []) [].

(** An instance with two tables whose names differ in case only, and no
    snapshot. *)
Definition caseState : State Mem.env :=
  mkState (E := Mem.env) (Mem.mkWorld [("t", zeroTable); ("T", twoFamilies)] 0 0 []) [].

(** ** The command

    [main] of [cmd/main.go], after [flag.Parse]: the values of the flags
    and the remaining arguments are given. The process ends by returning
    from [main], by [os.Exit(2)] after a line on the standard error, or by
    [log.Fatalf], which exits with status 1. *)
Module Main.
(** The flags [-db], [-project], [-instance] and [-gcp]. *)
Record Flags : Type := mkFlags { db : string; project : string; instance : string; gcp : bool }.

(** The lines written to the standard error before [os.Exit(2)]. *)
Inductive Complaint : Type :=
| MustSetHost                        (* BIGTABLE_EMULATOR_HOST must be set OR -gcp=true must be set *)
| MustProvideAction                  (* must provide an action ('restore' or 'save') *)
| ExpectedSingleArgument             (* expected only a single argument *)
| UnrecognizedAction (arg : string). (* unrecognized action: %q *)

(** The messages of [log.Fatalf]. *)
Inductive Fatal : Type :=
| FailedConnect (err : string)        (* failed to connect to bigtable instance: %s *)
| FailedOpen (db : string) (err : string) (* failed to open %q: %s *)
| FailedRestore (err : Error)         (* failed to restore: %s *)
| FailedSave (err : Error)            (* failed to save: %s *)
| FailedClose (err : string).         (* failed to close database: %s *)

Inductive Outcome : Type :=
| Returned
| Exit2 (line : Complaint)
| Fatalf (msg : Fatal).

(** The calls that [main] makes, in order. *)
Inductive Call : Type :=
| NewAdminClient (project instance : string)
| NewClient (project instance : string)
| Open (db : string)
| RunRestore
| RunSaveAll
| Close.

(** What [main] calls besides the package: the environment of the
    process, the constructors of the two clients, [sql.Open] and
    [dbClient.Close], over the state of the collaborators. [lowerMap] is
    [strings.Map(unicode.ToLower, s)], which [strings.ToLower] applies to a
    string that has a byte outside ASCII. *)
Record Shell (E : Env) : Type := {
  Getenv : string -> string;
  newAdminClient : string -> string -> World E -> option string * World E;
  newClient : string -> string -> World E -> option string * World E;
  sqlOpen : string -> World E -> option string * World E;
  dbClose : World E -> option string * World E;
  lowerMap : string -> string
}.
Arguments Getenv {E} _ _.
Arguments newAdminClient {E} _ _ _ _.
Arguments newClient {E} _ _ _ _.
Arguments sqlOpen {E} _ _ _.
Arguments dbClose {E} _ _.
Arguments lowerMap {E} _ _.

Fixpoint isASCII (s : string) : bool :=
  match s with
  | EmptyString => true
  | String c s' => (code c <? 128) && isASCII s'
  end.

Fixpoint lowerASCII (s : string) : string :=
  match s with
  | EmptyString => EmptyString
  | String c s' =>
      String (if (65 <=? code c) && (code c <=? 90) then chr (code c + 32) else c) (lowerASCII s')
  end.

(** [strings.ToLower(s)] *)
Definition ToLower (lowerMap : string -> string) (s : string) : string :=
  if isASCII s then lowerASCII s else lowerMap s.

(** The file of the snapshot: [-db], or the name of the instance with
    [.db] after it. *)
Definition dbFile (f : Flags) : string :=
  if decide (db f = EmptyString) then instance f +:+ ".db" else db f.

Section Command.
Context {E : Env} (sh : Shell E).

(** The end of [main]: the database is closed. *)
Definition close (calls : list Call) (s : State E) : Outcome * list Call * State E :=
  let '(e, w) := dbClose sh (world s) in
  let s := mkState w (trace s) in
  match e with
  | Some err => (Fatalf (FailedClose err), calls ++ [Close], s)
  | None => (Returned, calls ++ [Close], s)
  end.

Definition main (f : Flags) (args : list string) (s : State E) : Outcome * list Call * State E :=
  if bool_decide (Getenv sh "BIGTABLE_EMULATOR_HOST" = EmptyString) && negb (gcp f)
  then (Exit2 MustSetHost, [], s)
  else
    let db := dbFile f in
    match args with
    | [] => (Exit2 MustProvideAction, [], s)
    | [action] =>
        let calls := [NewAdminClient (project f) (instance f)] in
        let '(e, w) := newAdminClient sh (project f) (instance f) (world s) in
        let s := mkState w (trace s) in
        match e with Some err => (Fatalf (FailedConnect err), calls, s) | None =>
        let calls := calls ++ [NewClient (project f) (instance f)] in
        let '(e, w) := newClient sh (project f) (instance f) (world s) in
        let s := mkState w (trace s) in
        match e with Some err => (Fatalf (FailedConnect err), calls, s) | None =>
        let calls := calls ++ [Open db] in
        let '(e, w) := sqlOpen sh db (world s) in
        let s := mkState w (trace s) in
        match e with Some err => (Fatalf (FailedOpen db err), calls, s) | None =>
        let lowered := ToLower (lowerMap sh) action in
        if decide (lowered = "restore") then
          let '(e, s) := Restore E s in
          match e with
          | Some err => (Fatalf (FailedRestore err), calls ++ [RunRestore], s)
          | None => close (calls ++ [RunRestore]) s
          end
        else if decide (lowered = "save") then
          let '(e, s) := SaveAll E s in
          match e with
          | Some err => (Fatalf (FailedSave err), calls ++ [RunSaveAll], s)
          | None => close (calls ++ [RunSaveAll]) s
          end
        else (Exit2 (UnrecognizedAction action), calls, s)
        end end end
    | _ => (Exit2 ExpectedSingleArgument, [], s)
    end.
End Command.

(** A process on the in-memory collaborators: the emulator host is
    [host], the connections succeed and the database closes. *)
Definition memShell (host : string) : Shell Mem.env :=
  {| Getenv := fun name => if decide (name = "BIGTABLE_EMULATOR_HOST") then host else EmptyString;
     newAdminClient := fun _ _ w => (None, w);
     newClient := fun _ _ w => (None, w);
     sqlOpen := fun _ w => (None, w);
     dbClose := fun w => (None, w);
     lowerMap := fun s => s |}.
End Main.

(** A snapshot of a table [t] with one row, and a remote table [t] that
    holds cells of its own. *)
Definition mergeState : State Mem.env :=
  mkState (E := Mem.env) (Mem.mkWorld [("t", zeroTable)] 0 0 [("t", [sampleRow 0])]) [].

(** * Properties *)

(** ** The library models on known values *)

Example Write_a : Fnv.Write Fnv.New32a (bytesOf "a") = 3826002220.
Proof. reflexivity. Qed.
Example Write_foobar : Fnv.Write Fnv.New32a (bytesOf "foobar") = 3214735720.
Proof. reflexivity. Qed.
Example Sprintf_plain : Fmt.Sprintf "row-1" = "row-1".
Proof. reflexivity. Qed.
Example Sprintf_percent : Fmt.Sprintf "100%" = "100%!(NOVERB)".
Proof. reflexivity. Qed.
Example Sprintf_verb : Fmt.Sprintf "a%db%%c" = "a%!d(MISSING)b%c".
Proof. reflexivity. Qed.
Example Sprintf_index : Fmt.Sprintf "%[1]d|%[x]d|%*d|%.*d|%5.2f" =
  "%!d(BADINDEX)|%!d(BADINDEX)|%!(BADWIDTH)%!d(MISSING)|%!(BADPREC)%!d(MISSING)|%!f(MISSING)".
Proof. reflexivity. Qed.
Example Format_epoch : Time.Format Time.UTC (Time.Unix 0 0) = "1970-01-01T00:00:00Z".
Proof. reflexivity. Qed.
Example Format_micro : Time.Format Time.UTC (Time.Unix 0 1000) = "1970-01-01T00:00:00.000001Z".
Proof. reflexivity. Qed.
Example Format_milli :
  Time.Format Time.UTC (Time.Unix 1000000000 123000000) = "2001-09-09T01:46:40.123Z".
Proof. reflexivity. Qed.
Example Format_leap : Time.Format Time.UTC (Time.Unix 951782400 0) = "2000-02-29T00:00:00Z".
Proof. reflexivity. Qed.
Example Format_before : Time.Format Time.UTC (Time.Unix 0 (-1)) = "1969-12-31T23:59:59.999999999Z".
Proof. reflexivity. Qed.
Example Format_far : Time.Format Time.UTC (Time.Unix 10000000000 0) = "2286-11-20T17:46:40Z".
Proof. reflexivity. Qed.
Example Format_zone :
  Time.Format (fun _ => 19800) (Time.Unix 0 0) = "1970-01-01T05:30:00+05:30"
  /\ Time.Format (fun _ => -18000) (Time.Unix 0 0) = "1969-12-31T19:00:00-05:00".
Proof. split; reflexivity. Qed.

(** ** Pieces of a list *)

Lemma chunksFrom_fuel {A} n (l : list A) : forall fuel fuel',
  (0 < n)%nat -> (length l <= fuel)%nat -> (length l <= fuel')%nat ->
  chunksFrom fuel n l = chunksFrom fuel' n l.
Proof.
  intros fuel. revert l. induction fuel as [|fuel IH]; intros l fuel' Hn H1 H2.
  - destruct l; simpl in *; [by destruct fuel'|lia].
  - destruct l as [|a l]; [by destruct fuel'|].
    destruct fuel' as [|fuel']; simpl in *; [lia|].
    f_equal. apply IH; [done| |].
    + destruct n; [lia|]. simpl. rewrite length_drop. lia.
    + destruct n; [lia|]. simpl. rewrite length_drop. lia.
Qed.

Lemma chunks_nil {A} n : chunks n (@nil A) = [].
Proof. done. Qed.

Lemma chunks_cons {A} n (l : list A) :
  (0 < n)%nat -> l <> [] -> chunks n l = take n l :: chunks n (drop n l).
Proof.
  intros Hn Hl. unfold chunks. destruct l as [|a l]; [done|].
  cbn [length chunksFrom]. f_equal.
  apply chunksFrom_fuel; [done| |done].
  destruct n; [lia|]. simpl. rewrite length_drop. lia.
Qed.

Lemma chunks_app {A} n (a b : list A) :
  (0 < n)%nat -> length a = n -> chunks n (a ++ b) = a :: chunks n b.
Proof.
  intros Hn Ha. rewrite chunks_cons; [|done|].
  - rewrite take_app_length', drop_app_length'; done.
  - destruct a; simpl in *; [lia|done].
Qed.

Lemma chunks_short {A} n (l : list A) :
  l <> [] -> (length l <= n)%nat -> chunks n l = [l].
Proof.
  intros Hl Hn. rewrite chunks_cons; [|destruct l; simpl in *; [done|lia]|done].
  rewrite take_ge, drop_ge by done. done.
Qed.

Lemma length_chunks_100 {A} (l : list A) :
  length (chunks 100 l) = ((length l + 99) `div` 100)%nat.
Proof.
  remember (length l) as m eqn:Hm. revert l Hm.
  induction m as [m IH] using lt_wf_ind. intros l ->.
  destruct l as [|a l]; [done|].
  rewrite chunks_cons by (done || lia).
  cbn [length]. erewrite (IH (length (drop 100 (a :: l)))); [| |done].
  - rewrite length_drop. cbn [length].
    destruct (decide (100 <= S (length l))%nat).
    + replace (S (length l) + 99)%nat with ((S (length l) - 100 + 99) + 1 * 100)%nat by lia.
      rewrite Nat.div_add by lia. lia.
    + replace (S (length l) - 100)%nat with 0%nat by lia.
      change ((0 + 99) `div` 100)%nat with 0%nat.
      apply (Nat.div_unique _ 100 1 (length l)); lia.
  - rewrite length_drop. cbn [length]. lia.
Qed.

(** ** Bulk writes *)

Section RestoreFacts.
Context (E : Env).

Lemma events_spec {A} (m : M E A) s evs :
  trace (m s).2 = trace s ++ evs -> events m s = evs.
Proof. intros H. unfold events. rewrite H. by rewrite drop_app_length. Qed.

Lemma applyBulk_spec table keys muts s :
  exists errs err w,
    ApplyBulk E table keys muts (world s) = ((errs, err), w) /\
    applyBulk E table keys muts s =
      (verdict errs err, mkState w (trace s ++ [EvApplyBulk table keys muts errs err])).
Proof.
  unfold applyBulk, bind, callApplyBulk, verdict, ret.
  destruct (ApplyBulk E table keys muts (world s)) as [[errs err] w].
  exists errs, err, w. split; [done|].
  destruct err; [done|]. by destruct (filterErrors errs).
Qed.

End RestoreFacts.

Section RestoreLoop.
Context (E : Env).

Lemma bulkCalls_bulk t k m errs err l :
  bulkCalls (EvApplyBulk t k m errs err :: l) = (t, k, m) :: bulkCalls l.
Proof. done. Qed.

Lemma restoreRows_app table rows1 rows2 : forall c keys muts s,
  restoreRows E table (rows1 ++ rows2) c keys muts s =
  match restoreRows E table rows1 c keys muts s with
  | (inl e, s1) => (inl e, s1)
  | (inr (c1, keys1, muts1), s1) => restoreRows E table rows2 c1 keys1 muts1 s1
  end.
Proof.
  induction rows1 as [|r rows1 IH]; intros c keys muts s; [done|].
  destruct r as [[k cf col v ts ch]|err]; [|done].
  cbn [app restoreRows].
  destruct (negb (ch =? restoreSum E k cf col v ts)); [done|].
  destruct (length (muts ++ _) =? 100)%nat; [|apply IH].
  unfold bind.
  destruct (applyBulk E table _ _ s) as [[e|] s1]; [done|]. apply IH.
Qed.

(** The loop on verified rows, from a pending batch [pend] shorter than
    100: it issues bulk writes only, for the first pieces of 100 of the
    entries; it stops at the first write that is not accepted. *)
Lemma restoreRows_verified table rows : forall c pend s,
  Forall (verified E) rows -> (length pend < 100)%nat ->
  exists evs,
    trace (restoreRows E table (ok <$> rows) c pend.*1 pend.*2 s).2 = trace s ++ evs /\
    Forall isBulk evs /\
    match (restoreRows E table (ok <$> rows) c pend.*1 pend.*2 s).1 with
    | inr (c', keys, muts) =>
        exists B p, chunks 100 (pend ++ (entry <$> rows)) = B ++ (if decide (p = []) then [] else [p]) /\
          (length p < 100)%nat /\ keys = p.*1 /\ muts = p.*2 /\
          c' = c + Z.of_nat (length rows) /\
          Forall accepted evs /\ bulkCalls evs = bulkOf table <$> B
    | inl e =>
        exists evs0 t k m errs err,
          evs = evs0 ++ [EvApplyBulk t k m errs err] /\ Forall accepted evs0 /\
          verdict errs err = Some e /\
          bulkCalls evs = bulkOf table <$> take (length evs) (chunks 100 (pend ++ (entry <$> rows)))
    end.
Proof.
  induction rows as [|r rows IH]; intros c pend s Hv Hp.
  - exists []. simpl. rewrite app_nil_r. split; [done|]. split; [done|].
    exists [], pend. rewrite app_nil_r. repeat split; try done; try lia.
    case_decide as Hx; [by subst|]. apply chunks_short; [done|lia].
  - apply Forall_cons in Hv as [Hr Hv].
    destruct r as [k cf col v ts ch]. unfold verified in Hr. simpl in Hr.
    set (e := Bigtable.Set_ Bigtable.NewMutation cf col (Bigtable.Time (Time.Unix 0 ts)) v).
    assert (Hk : pend.*1 ++ [k] = (pend ++ [(k, e)]).*1) by (by rewrite fmap_app).
    assert (Hm : pend.*2 ++ [e] = (pend ++ [(k, e)]).*2) by (by rewrite fmap_app).
    assert (Hall : pend ++ (entry <$> mkSnapRow k cf col v ts ch :: rows)
                   = (pend ++ [(k, e)]) ++ (entry <$> rows)).
    { rewrite <-app_assoc. done. }
    rewrite Hall. clear Hall.
    rewrite (fmap_cons ok). cbn [restoreRows].
    rewrite Hr, Z.eqb_refl. cbn [negb]. fold e.
    rewrite Hk, Hm.
    rewrite length_fmap.
    destruct (length (pend ++ [(k, e)]) =? 100)%nat eqn:Hlen.
    + apply Nat.eqb_eq in Hlen.
      unfold bind.
      destruct (applyBulk_spec E table (pend ++ [(k, e)]).*1 (pend ++ [(k, e)]).*2 s)
        as (errs & err & w & _ & Hab).
      rewrite Hab. clear Hab.
      rewrite chunks_app by (done || lia).
      destruct (verdict errs err) as [e0|] eqn:Hverd.
      * simpl. eexists. split; [done|]. split; [by repeat constructor|].
        exists [], table, (pend ++ [(k, e)]).*1, (pend ++ [(k, e)]).*2, errs, err.
        repeat split; try done.
      * destruct (IH (c + 1) [] (mkState w (trace s ++
           [EvApplyBulk table (pend ++ [(k, e)]).*1 (pend ++ [(k, e)]).*2 errs err])) Hv)
          as (evs & Htr & Hb & Hres); [simpl; lia|].
        change ((@nil (string * Bigtable.Mutation)).*1) with (@nil string) in *.
        change ((@nil (string * Bigtable.Mutation)).*2) with (@nil Bigtable.Mutation) in *.
        rewrite app_nil_l in Hres.
        cbn [fst snd] in *. cbv beta iota.
        exists (EvApplyBulk table (pend ++ [(k, e)]).*1 (pend ++ [(k, e)]).*2 errs err :: evs).
        split; [rewrite Htr; cbn [trace]; by rewrite <-app_assoc|].
        split; [by constructor|].
        destruct (restoreRows E table (ok <$> rows) (c + 1) [] [] _).1 as [e1|[[c' keys] muts]].
        -- destruct Hres as (evs0 & t & k0 & m & errs0 & err0 & -> & Hacc & Hv0 & Hcalls).
           exists (EvApplyBulk table (pend ++ [(k, e)]).*1 (pend ++ [(k, e)]).*2 errs err :: evs0),
             t, k0, m, errs0, err0.
           repeat split; try done.
           ++ constructor; done.
           ++ rewrite length_cons. cbn [take]. rewrite fmap_cons.
              rewrite bulkCalls_bulk. rewrite <-Hcalls. done.
        -- destruct Hres as (B & p & HB & Hlp & -> & -> & -> & Hacc & Hcalls).
           exists ((pend ++ [(k, e)]) :: B), p. rewrite HB.
           repeat split; try done.
           ++ rewrite length_cons. lia.
           ++ constructor; done.
           ++ rewrite bulkCalls_bulk, fmap_cons, Hcalls. done.
    + apply Nat.eqb_neq in Hlen.
      destruct (IH (c + 1) (pend ++ [(k, e)]) s Hv) as (evs & Htr & Hb & Hres).
      { rewrite length_app in *. simpl in *. lia. }
      exists evs. split; [done|]. split; [done|].
      destruct (restoreRows E table (ok <$> rows) (c + 1) _ _ s).1 as [e1|[[c' keys] muts]]; [done|].
      destruct Hres as (B & p & HB & Hlp & -> & -> & -> & Hacc & Hcalls).
      exists B, p. repeat split; try done. rewrite length_cons. lia.
Qed.

End RestoreLoop.

(** ** RestoreTable *)

Section RestoreTableFacts.
Context (E : Env).

Lemma bulkCalls_app l1 l2 : bulkCalls (l1 ++ l2) = bulkCalls l1 ++ bulkCalls l2.
Proof. apply omap_app. Qed.

(** [RestoreTable] once the query has given its rows. *)
Lemma RestoreTable_rows table s rows w :
  QueryRows E table (world s) = (ok rows, w) ->
  RestoreTable E table s =
    match restoreRows E table rows 0 [] []
            (mkState w ((trace s ++ [EvLog (Restoring table)]) ++ [EvQueryRows table])) with
    | (inl e, s1) => (Some e, s1)
    | (inr (c, keys, muts), s1) =>
        if (0 <? length muts)%nat then
          match applyBulk E table keys muts s1 with
          | (Some e, s2) => (Some e, s2)
          | (None, s2) => (None, mkState (world s2) (trace s2 ++ [EvLog (Restored c table)]))
          end
        else (None, mkState (world s1) (trace s1 ++ [EvLog (Restored c table)]))
    end.
Proof.
  intros Hq. unfold RestoreTable, bind, logPrintf, emit, call, ret. cbn [world trace].
  rewrite Hq.
  destruct (restoreRows E table rows 0 [] [] _) as [[e|[[c keys] muts]] s1]; [done|].
  destruct (0 <? length muts)%nat; [|done].
  by destruct (applyBulk E table keys muts s1) as [[e|] s2].
Qed.

(** C10. [RestoreTable] on a snapshot table without rows returns nil,
    issues no bulk write, and logs that 0 rows were restored: it does
    nothing else than log its entry, query the rows, and log the count. *)
Theorem C10_empty_snapshot table s :
  (QueryRows E table (world s)).1 = ok [] ->
  (RestoreTable E table s).1 = None /\
  events (RestoreTable E table) s =
    [EvLog (Restoring table); EvQueryRows table; EvLog (Restored 0 table)] /\
  bulkCalls (events (RestoreTable E table) s) = [].
Proof.
  intros Hq. destruct (QueryRows E table (world s)) as [q w] eqn:HQ. simpl in Hq. subst q.
  assert (Hev : events (RestoreTable E table) s =
    [EvLog (Restoring table); EvQueryRows table; EvLog (Restored 0 table)]).
  { apply events_spec. rewrite (RestoreTable_rows _ _ _ _ HQ). simpl.
    by rewrite <-!app_assoc. }
  split; [by rewrite (RestoreTable_rows _ _ _ _ HQ)|]. split; [done|]. by rewrite Hev.
Qed.

(** C4. When the query yields [rows], all verified, and the store
    accepts every bulk write, [RestoreTable] returns nil and its bulk
    writes are the entries of the rows cut into pieces of 100, the last
    one holding the remainder when there is one: one write for 99 rows,
    one for 100, two for 101. *)
Theorem C4_batches_of_100 table s rows :
  (QueryRows E table (world s)).1 = ok (ok <$> rows) ->
  Forall (verified E) rows ->
  Forall accepted (events (RestoreTable E table) s) ->
  (RestoreTable E table s).1 = None /\
  bulkCalls (events (RestoreTable E table) s) = bulkOf table <$> chunks 100 (entry <$> rows) /\
  length (bulkCalls (events (RestoreTable E table) s)) = ((length rows + 99) `div` 100)%nat /\
  (length rows = 99%nat -> length (bulkCalls (events (RestoreTable E table) s)) = 1%nat) /\
  (length rows = 100%nat -> length (bulkCalls (events (RestoreTable E table) s)) = 1%nat) /\
  (length rows = 101%nat -> length (bulkCalls (events (RestoreTable E table) s)) = 2%nat).
Proof.
  intros Hq Hv Hacc.
  destruct (QueryRows E table (world s)) as [q w] eqn:HQ. simpl in Hq. subst q.
  pose proof (RestoreTable_rows _ _ _ _ HQ) as HR.
  set (s0 := mkState w ((trace s ++ [EvLog (Restoring table)]) ++ [EvQueryRows table])) in *.
  destruct (restoreRows_verified E table rows 0 [] s0 Hv) as (evs & Htr & Hb & Hres); [simpl; lia|].
  change ((@nil (string * Bigtable.Mutation)).*1) with (@nil string) in *.
  change ((@nil (string * Bigtable.Mutation)).*2) with (@nil Bigtable.Mutation) in *.
  rewrite app_nil_l in Hres.
  destruct (restoreRows E table (ok <$> rows) 0 [] [] s0) as [r s1]. cbn [fst snd] in *.
  assert (Hmain : (RestoreTable E table s).1 = None /\
    bulkCalls (events (RestoreTable E table) s) = bulkOf table <$> chunks 100 (entry <$> rows)).
  { destruct r as [e|[[c keys] muts]].
    - exfalso. destruct Hres as (evs0 & t & k & m & errs & err & -> & _ & Hverd & _).
      assert (Hev : events (RestoreTable E table) s =
        [EvLog (Restoring table); EvQueryRows table] ++ evs0 ++ [EvApplyBulk t k m errs err]).
      { apply events_spec. rewrite HR. cbn [snd]. rewrite Htr. unfold s0. cbn [trace].
        by rewrite <-!app_assoc. }
      rewrite Hev in Hacc. rewrite !Forall_app, Forall_singleton in Hacc.
      destruct Hacc as (_ & _ & Hbad). simpl in Hbad. congruence.
    - destruct Hres as (B & p & HB & Hlp & -> & -> & -> & Hacc0 & Hcalls).
      rewrite length_fmap in HR.
      destruct p as [|x p].
      + simpl in HR. rewrite decide_True in HB by done. rewrite app_nil_r in HB.
        assert (Hev : events (RestoreTable E table) s =
          [EvLog (Restoring table); EvQueryRows table] ++ evs ++
          [EvLog (Restored (0 + Z.of_nat (length rows)) table)]).
        { apply events_spec. rewrite HR. cbn [snd trace]. rewrite Htr. unfold s0. cbn [trace].
          by rewrite <-!app_assoc. }
        split; [by rewrite HR|].
        rewrite Hev, !bulkCalls_app, Hcalls, HB. simpl. by rewrite app_nil_r.
      + cbn [length Nat.ltb Nat.leb] in HR.
        rewrite decide_False in HB by done.
        destruct (applyBulk_spec E table ((x :: p).*1) ((x :: p).*2) s1)
          as (errs & err & w2 & _ & Hab).
        rewrite Hab in HR.
        assert (Hev : exists tl, events (RestoreTable E table) s =
          [EvLog (Restoring table); EvQueryRows table] ++ evs ++
          [EvApplyBulk table (x :: p).*1 (x :: p).*2 errs err] ++ tl /\
          (verdict errs err = None -> tl = [EvLog (Restored (0 + Z.of_nat (length rows)) table)])).
        { destruct (verdict errs err) eqn:Hverd.
          - exists []. split; [|done]. apply events_spec. rewrite HR. cbn [snd trace].
            rewrite Htr. unfold s0. cbn [trace]. by rewrite <-!app_assoc.
          - eexists. split; [|done]. apply events_spec. rewrite HR. cbn [snd trace].
            rewrite Htr. unfold s0. cbn [trace]. by rewrite <-!app_assoc. }
        destruct Hev as (tl & Hev & Htl).
        rewrite Hev in Hacc. rewrite !Forall_app, Forall_singleton in Hacc.
        destruct Hacc as (_ & _ & Hok & _). simpl in Hok.
        rewrite Hok in HR. split; [by rewrite HR|].
        rewrite Hev, (Htl Hok), !bulkCalls_app, Hcalls, HB. simpl.
        by rewrite fmap_app. }
  destruct Hmain as [Hnil Hcalls]. split; [done|]. split; [done|].
  assert (Hlen : length (bulkCalls (events (RestoreTable E table) s)) =
                 ((length rows + 99) `div` 100)%nat).
  { by rewrite Hcalls, length_fmap, length_chunks_100, length_fmap. }
  split; [done|]. rewrite Hlen. repeat split; intros ->; done.
Qed.

End RestoreTableFacts.

Lemma C10_empty_snapshot_witness :
  (QueryRows Mem.env "t" (world (sampleState 0))).1 = ok [] /\
  (RestoreTable Mem.env "t" (sampleState 0)).1 = None /\
  events (RestoreTable Mem.env "t") (sampleState 0) =
    [EvLog (Restoring "t"); EvQueryRows "t"; EvLog (Restored 0 "t")] /\
  bulkCalls (events (RestoreTable Mem.env "t") (sampleState 0)) = [].
Proof.
  split; [reflexivity|]. apply (C10_empty_snapshot Mem.env "t" (sampleState 0)). reflexivity.
Defined.

Lemma C4_batches_of_100_witness :
  (QueryRows Mem.env "t" (world (sampleState 101))).1 = ok (ok <$> sampleRows 101) /\
  Forall (verified Mem.env) (sampleRows 101) /\
  Forall accepted (events (RestoreTable Mem.env "t") (sampleState 101)) /\
  (RestoreTable Mem.env "t" (sampleState 101)).1 = None /\
  length (bulkCalls (events (RestoreTable Mem.env "t") (sampleState 101))) = 2%nat.
Proof.
  assert (H1 : (QueryRows Mem.env "t" (world (sampleState 101))).1 = ok (ok <$> sampleRows 101))
    by reflexivity.
  assert (H2 : Forall (verified Mem.env) (sampleRows 101))
    by (apply (bool_decide_unpack _); vm_compute; exact I).
  assert (H3 : Forall accepted (events (RestoreTable Mem.env "t") (sampleState 101)))
    by (apply (bool_decide_unpack _); vm_compute; exact I).
  split; [exact H1|]. split; [exact H2|]. split; [exact H3|].
  destruct (C4_batches_of_100 Mem.env "t" (sampleState 101) (sampleRows 101) H1 H2 H3)
    as (Hnil & _ & _ & _ & _ & H101).
  split; [exact Hnil|]. apply H101. reflexivity.
Defined.

(** ** The outcome of a restore *)

Section RestoreOutcome.
Context (E : Env).

Lemma stopsAtRefusal_cons ev evs res :
  accepted ev -> stopsAtRefusal evs res -> stopsAtRefusal (ev :: evs) res.
Proof.
  intros Hev [Hacc|(evs0 & t & k & m & errs & err & e & -> & Hacc & Hv & ->)].
  - left. by constructor.
  - right. exists (ev :: evs0), t, k, m, errs, err, e. repeat split; try done. by constructor.
Qed.

Lemma stopsAtRefusal_app evs1 evs2 res :
  Forall accepted evs1 -> stopsAtRefusal evs2 res -> stopsAtRefusal (evs1 ++ evs2) res.
Proof.
  induction evs1 as [|ev evs1 IH]; intros Hacc H; [done|].
  apply Forall_cons in Hacc as [??]. apply stopsAtRefusal_cons; auto.
Qed.

Lemma restoreRows_outcome table rows : forall c keys muts s,
  exists evs,
    trace (restoreRows E table rows c keys muts s).2 = trace s ++ evs /\
    Forall isBulk evs /\
    stopsAtRefusal evs (errorOf (restoreRows E table rows c keys muts s).1).
Proof.
  induction rows as [|r rows IH]; intros c keys muts s.
  - exists []. simpl. rewrite app_nil_r. repeat split; try done. by left.
  - destruct r as [[k cf col v ts ch]|err].
    2:{ exists []. simpl. rewrite app_nil_r. repeat split; try done. by left. }
    cbn [restoreRows].
    destruct (negb (ch =? restoreSum E k cf col v ts)).
    { exists []. simpl. rewrite app_nil_r. repeat split; try done. by left. }
    destruct (length (muts ++ _) =? 100)%nat; [|apply IH].
    unfold bind.
    destruct (applyBulk_spec E table (keys ++ [k]) (muts ++
      [Bigtable.Set_ Bigtable.NewMutation cf col (Bigtable.Time (Time.Unix 0 ts)) v]) s)
      as (errs & err & w & _ & Hab).
    rewrite Hab. clear Hab.
    destruct (verdict errs err) as [e|] eqn:Hverd.
    + eexists. split; [done|]. split; [by repeat constructor|].
      right. eexists [], _, _, _, errs, err, e. by repeat split.
    + match goal with |- context [restoreRows E table rows ?c' [] [] ?s'] =>
        destruct (IH c' [] [] s') as (evs & Htr & Hb & Hstop) end.
      cbn [trace] in Htr.
      eexists (_ :: evs). split; [rewrite Htr; by rewrite <-app_assoc|].
      split; [by constructor|].
      apply stopsAtRefusal_cons; [done|]. done.
Qed.

Lemma RestoreTable_outcome table s :
  exists evs,
    events (RestoreTable E table) s = [EvLog (Restoring table); EvQueryRows table] ++ evs /\
    stopsAtRefusal evs (RestoreTable E table s).1.
Proof.
  destruct (QueryRows E table (world s)) as [[rows|err] w] eqn:HQ.
  2:{ exists []. split; [|by left]. apply events_spec.
      unfold RestoreTable, bind, logPrintf, emit, call, ret. cbn [world trace]. rewrite HQ.
      cbn [snd trace]. by rewrite <-app_assoc. }
  pose proof (RestoreTable_rows E _ _ _ _ HQ) as HR.
  set (s0 := mkState w ((trace s ++ [EvLog (Restoring table)]) ++ [EvQueryRows table])) in *.
  destruct (restoreRows_outcome table rows 0 [] [] s0) as (evs & Htr & _ & Hstop).
  destruct (restoreRows E table rows 0 [] [] s0) as [[e|[[c keys] muts]] s1]; cbn [fst snd] in *.
  - exists evs. split; [|by rewrite HR]. apply events_spec. rewrite HR. cbn [snd].
    rewrite Htr. unfold s0. cbn [trace]. by rewrite <-!app_assoc.
  - simpl in Hstop. assert (Hacc : Forall accepted evs).
    { destruct Hstop as [?|(?&?&?&?&?&?&?&?&?&?&?)]; [done|congruence]. }
    destruct (0 <? length muts)%nat.
    + destruct (applyBulk_spec E table keys muts s1) as (errs & err & w2 & _ & Hab).
      rewrite Hab in HR.
      destruct (verdict errs err) as [e|] eqn:Hverd.
      * exists (evs ++ [EvApplyBulk table keys muts errs err]). split.
        -- apply events_spec. rewrite HR. cbn [snd trace]. rewrite Htr. unfold s0. cbn [trace].
           by rewrite <-!app_assoc.
        -- rewrite HR. right. exists evs, table, keys, muts, errs, err, e. by repeat split.
      * exists (evs ++ [EvApplyBulk table keys muts errs err; EvLog (Restored c table)]). split.
        -- apply events_spec. rewrite HR. cbn [snd trace]. rewrite Htr. unfold s0. cbn [trace].
           by rewrite <-!app_assoc.
        -- left. rewrite Forall_app. split; [done|]. by repeat constructor.
    + exists (evs ++ [EvLog (Restored c table)]). split.
      * apply events_spec. rewrite HR. cbn [snd trace]. rewrite Htr. unfold s0. cbn [trace].
        by rewrite <-!app_assoc.
      * left. rewrite Forall_app. split; [done|]. by repeat constructor.
Qed.

Lemma split_at_last {A} (pre post evs0 : list A) (x y : A) :
  pre ++ x :: post = evs0 ++ [y] -> (post = [] /\ x = y /\ pre = evs0) \/ x ∈ evs0.
Proof.
  revert evs0. induction pre as [|a pre IH]; intros evs0 H.
  - destruct evs0 as [|b evs0]; simpl in H.
    + injection H as -> ->. by left.
    + injection H as -> _. right. by left.
  - destruct evs0 as [|b evs0]; simpl in H.
    + injection H as _ H. by destruct pre.
    + injection H as -> H. destruct (IH _ H) as [(-> & -> & ->)|Hin].
      * by left.
      * right. by right.
Qed.

(** C6, as the program has it. For every bulk write of [RestoreTable]: if
    the call returns an error, the restore of the table stops there with
    that error; if the call succeeds and some items failed, it stops there
    with an error that gives the number of failed items and the message of
    the first of them. *)
Theorem C6_bulk_write_failure table s pre t keys muts errs err post :
  events (RestoreTable E table) s = pre ++ EvApplyBulk t keys muts errs err :: post ->
  (forall e, err = Some e ->
     (RestoreTable E table s).1 = Some (FailedWrite e) /\ post = []) /\
  (forall first rest, err = None -> filterErrors errs = first :: rest ->
     (RestoreTable E table s).1 = Some (FailedWriteItems (S (length rest)) first) /\ post = []).
Proof.
  intros Hev.
  assert (Hmain : forall e, verdict errs err = Some e ->
            (RestoreTable E table s).1 = Some e /\ post = []).
  { intros e He. destruct (RestoreTable_outcome table s) as (evs & Hevs & Hstop).
    rewrite Hev in Hevs.
    destruct Hstop as [Hacc|(evs0 & t' & k' & m' & errs' & err' & e' & -> & Hacc & Hv & Hres)].
    - exfalso.
      assert (Hin : EvApplyBulk t keys muts errs err ∈
                [EvLog (Restoring table); EvQueryRows table] ++ evs).
      { rewrite <-Hevs. apply elem_of_app. right. by left. }
      apply elem_of_app in Hin as [Hin|Hin].
      + apply elem_of_cons in Hin as [?|Hin]; [done|].
        apply elem_of_cons in Hin as [?|Hin]; [done|]. by apply elem_of_nil in Hin.
      + rewrite Forall_forall in Hacc. specialize (Hacc _ Hin). simpl in Hacc. congruence.
    - rewrite app_assoc in Hevs.
      apply split_at_last in Hevs as [(-> & Heq & _)|Hin].
      + injection Heq as <- <- <- <- <-. split; [|done]. congruence.
      + exfalso. apply elem_of_app in Hin as [Hin|Hin].
        * apply elem_of_cons in Hin as [?|Hin]; [done|].
          apply elem_of_cons in Hin as [?|Hin]; [done|]. by apply elem_of_nil in Hin.
        * rewrite Forall_forall in Hacc. specialize (Hacc _ Hin). simpl in Hacc. congruence. }
  split.
  - intros e ->. by apply Hmain.
  - intros first rest -> Hf. apply Hmain. unfold verdict. by rewrite Hf.
Qed.

End RestoreOutcome.

(** The returned error does not tell which item failed: two restores that
    fail on different items return the same error. *)
Lemma C6_error_without_index :
  ~ exists f : option Error -> option (nat * string),
      forall s : State Mem.env,
        f (RestoreTable Mem.env "t" s).1 = failedItem (events (RestoreTable Mem.env "t") s).
Proof.
  intros [f Hf].
  pose proof (Hf refusedFirst) as H1. pose proof (Hf refusedSecond) as H2.
  vm_compute in H1, H2. congruence.
Qed.

Lemma C6_bulk_write_failure_witness :
  events (RestoreTable Mem.env "t") refusedFirst =
    [EvLog (Restoring "t"); EvQueryRows "t"] ++
    EvApplyBulk "t" (key <$> [sampleRowIn "zz" 0; sampleRowIn "cf" 1])
      ((entry <$> [sampleRowIn "zz" 0; sampleRowIn "cf" 1]).*2)
      [Some "unknown family"; None] None :: [] /\
  (RestoreTable Mem.env "t" refusedFirst).1 = Some (FailedWriteItems 1 "unknown family").
Proof.
  assert (H : events (RestoreTable Mem.env "t") refusedFirst =
    [EvLog (Restoring "t"); EvQueryRows "t"] ++
    EvApplyBulk "t" (key <$> [sampleRowIn "zz" 0; sampleRowIn "cf" 1])
      ((entry <$> [sampleRowIn "zz" 0; sampleRowIn "cf" 1]).*2)
      [Some "unknown family"; None] None :: []) by (vm_compute; reflexivity).
  split; [exact H|].
  destruct (C6_bulk_write_failure Mem.env "t" refusedFirst _ _ _ _ _ _ _ H) as [_ H2].
  apply (H2 "unknown family" []); reflexivity.
Defined.

(** ** Restore *)

Section RestoreAll.
Context (E : Env).

Lemma restoreRows_tail table rows : forall c keys muts s,
  exists evs,
    trace (restoreRows E table rows c keys muts s).2 = trace s ++ evs /\ Forall restoreTail evs.
Proof.
  intros c keys muts s.
  destruct (restoreRows_outcome E table rows c keys muts s) as (evs & Htr & Hb & _).
  exists evs. split; [done|]. eapply Forall_impl; [exact Hb|]. by intros [].
Qed.

(** [RestoreTable] logs its entry, queries the rows, then only writes in
    bulk and logs the count. *)
Lemma RestoreTable_shape table s :
  exists evs,
    trace (RestoreTable E table s).2 =
      trace s ++ [EvLog (Restoring table); EvQueryRows table] ++ evs /\
    Forall restoreTail evs.
Proof.
  destruct (QueryRows E table (world s)) as [[rows|err] w] eqn:HQ.
  2:{ exists []. split; [|done].
      unfold RestoreTable, bind, logPrintf, emit, call, ret. cbn [world trace]. rewrite HQ.
      cbn [snd trace]. by rewrite <-app_assoc. }
  pose proof (RestoreTable_rows E _ _ _ _ HQ) as HR.
  set (s0 := mkState w ((trace s ++ [EvLog (Restoring table)]) ++ [EvQueryRows table])) in *.
  destruct (restoreRows_tail table rows 0 [] [] s0) as (evs & Htr & Ht).
  destruct (restoreRows E table rows 0 [] [] s0) as [[e|[[c keys] muts]] s1]; cbn [fst snd] in *.
  - exists evs. split; [|done]. rewrite HR. cbn [snd].
    rewrite Htr. unfold s0. cbn [trace]. by rewrite <-!app_assoc.
  - destruct (0 <? length muts)%nat.
    + destruct (applyBulk_spec E table keys muts s1) as (errs & err & w2 & _ & Hab).
      rewrite Hab in HR.
      destruct (verdict errs err) as [e|] eqn:Hverd.
      * exists (evs ++ [EvApplyBulk table keys muts errs err]). split.
        -- rewrite HR. cbn [snd trace]. rewrite Htr. unfold s0. cbn [trace]. by rewrite <-!app_assoc.
        -- rewrite Forall_app. split; [done|]. by repeat constructor.
      * exists (evs ++ [EvApplyBulk table keys muts errs err; EvLog (Restored c table)]). split.
        -- rewrite HR. cbn [snd trace]. rewrite Htr. unfold s0. cbn [trace]. by rewrite <-!app_assoc.
        -- rewrite Forall_app. split; [done|]. by repeat constructor.
    + exists (evs ++ [EvLog (Restored c table)]). split.
      * rewrite HR. cbn [snd trace]. rewrite Htr. unfold s0. cbn [trace]. by rewrite <-!app_assoc.
      * rewrite Forall_app. split; [done|]. by repeat constructor.
Qed.

Lemma restoring_tail evs : Forall restoreTail evs -> restoring evs = [].
Proof.
  induction 1 as [|ev evs Hev _ IH]; [done|].
  destruct ev as [[]| | | | | | | |]; try done.
Qed.

Lemma restoring_app l1 l2 : restoring (l1 ++ l2) = restoring l1 ++ restoring l2.
Proof. apply omap_app. Qed.
Lemma dropped_app l1 l2 : dropped (l1 ++ l2) = dropped l1 ++ dropped l2.
Proof. apply omap_app. Qed.

Lemma dropped_restoreEvent evs : Forall restoreEvent evs -> dropped evs = [].
Proof.
  induction 1 as [|ev evs Hev _ IH]; [done|]. by destruct ev.
Qed.

Lemma restoreTail_event evs : Forall restoreTail evs -> Forall restoreEvent evs.
Proof. intros H. eapply Forall_impl; [exact H|]. by intros [[]| | | | | | | |]. Qed.

(** The loop over the snapshot tables enters [RestoreTable] for the names
    scanned, in their order, and for all of them when it returns nil; it
    clears nothing. *)
Lemma restoreTables_shape rows : forall s,
  exists evs k,
    trace (restoreTables E rows s).2 = trace s ++ evs /\
    Forall restoreEvent evs /\
    restoring evs = take k (scanned rows) /\
    ((restoreTables E rows s).1 = None -> restoring evs = scanned rows).
Proof.
  induction rows as [|r rows IH]; intros s.
  - exists [], 0%nat. simpl. rewrite app_nil_r. done.
  - destruct r as [table|err].
    2:{ exists [], 0%nat. simpl. rewrite app_nil_r. done. }
    cbn [restoreTables]. unfold bind.
    destruct (RestoreTable_shape table s) as (evs1 & Htr1 & Ht1).
    destruct (RestoreTable E table s) as [[e|] s1]; cbn [fst snd] in *.
    + exists ([EvLog (Restoring table); EvQueryRows table] ++ evs1), 1%nat.
      split; [done|]. split.
      { apply Forall_app. split; [by repeat constructor|by apply restoreTail_event]. }
      split; [|done]. rewrite restoring_app, (restoring_tail _ Ht1). done.
    + destruct (IH s1) as (evs2 & k & Htr2 & Ht2 & Hk & Hall).
      exists (([EvLog (Restoring table); EvQueryRows table] ++ evs1) ++ evs2), (S k).
      split; [rewrite Htr2, Htr1; by rewrite <-!app_assoc|].
      split.
      { rewrite !Forall_app. split; [split|done]; [by repeat constructor|by apply restoreTail_event]. }
      rewrite !restoring_app, (restoring_tail _ Ht1), app_nil_r.
      split; [simpl; by rewrite Hk|]. intros Hnil. simpl. by rewrite (Hall Hnil).
Qed.

(** The clearing loop clears the tables in the order given, all of them
    when it returns nil, and does nothing else. *)
Lemma dropTables_shape tables : forall s,
  exists k,
    trace (dropTables E tables s).2 = trace s ++ (EvDropAllRows <$> take k tables) /\
    ((dropTables E tables s).1 = None -> k = length tables).
Proof.
  induction tables as [|table tables IH]; intros s.
  - exists 0%nat. simpl. by rewrite app_nil_r.
  - cbn [dropTables]. unfold bind, call.
    destruct (DropAllRows E table (world s)) as [[err|] w].
    + exists 1%nat. simpl. done.
    + match goal with |- context [dropTables E tables ?s'] =>
        destruct (IH s') as (k & Htr & Hk) end.
      exists (S k). cbn [trace] in Htr. split; [rewrite Htr; by rewrite <-app_assoc|].
      intros H. simpl. by rewrite (Hk H).
Qed.

Lemma dropped_drops tables : dropped (EvDropAllRows <$> tables) = tables.
Proof.
  induction tables as [|t tables IH]; [done|].
  rewrite fmap_cons. change (dropped (EvDropAllRows t :: ?l)) with (t :: dropped l).
  by rewrite IH.
Qed.

Lemma restoring_drops tables : restoring (EvDropAllRows <$> tables) = [].
Proof. induction tables as [|t tables IH]; [done|]. done. Qed.


Lemma Restore_eq s tables w :
  Tables E (world s) = (ok tables, w) ->
  Restore E s =
    match dropTables E (Sort.Strings tables) (mkState w (trace s ++ [EvTables])) with
    | (Some e, s2) => (Some e, s2)
    | (None, s2) =>
        match QueryTables E (world s2) with
        | (fail _, w3) => (Some FailedQueryTableList, mkState w3 (trace s2 ++ [EvQueryTables]))
        | (ok rows, w3) => restoreTables E rows (mkState w3 (trace s2 ++ [EvQueryTables]))
        end
    end.
Proof.
  intros HT. unfold Restore, bind. unfold call at 1. rewrite HT.
  destruct (dropTables E (Sort.Strings tables) _) as [[e|] s2]; [done|].
  unfold call. by destruct (QueryTables E (world s2)) as [[rows|err] w3].
Qed.

(** A run of [Restore] either stops while it clears the remote tables, or
    clears them all in sorted order, queries the snapshot tables and
    restores them. *)
Lemma Restore_events s tables :
  (Tables E (world s)).1 = ok tables ->
  (exists k e,
     events (Restore E) s = [EvTables] ++ (EvDropAllRows <$> take k (Sort.Strings tables)) /\
     (Restore E s).1 = Some e) \/
  (exists R,
     events (Restore E) s =
       [EvTables] ++ (EvDropAllRows <$> Sort.Strings tables) ++ EvQueryTables :: R /\
     Forall restoreEvent R /\
     forall names, (QueryTables E (world (afterClear E tables s))).1 = ok names ->
       exists j, restoring R = take j (scanned names) /\
                 ((Restore E s).1 = None -> restoring R = scanned names)).
Proof.
  intros HT. destruct (Tables E (world s)) as [r w] eqn:HTables. simpl in HT. subst r.
  pose proof (Restore_eq _ _ _ HTables) as HR.
  unfold afterClear, call. rewrite HTables. cbn [snd].
  set (s1 := mkState w (trace s ++ [EvTables])) in *.
  destruct (dropTables_shape (Sort.Strings tables) s1) as (k & Htr & Hk).
  destruct (dropTables E (Sort.Strings tables) s1) as [[e|] s2]; cbn [fst snd] in *.
  - left. exists k, e. split; [|by rewrite HR].
    apply events_spec. rewrite HR. cbn [snd]. rewrite Htr. unfold s1. cbn [trace].
    by rewrite <-app_assoc.
  - right. rewrite (Hk eq_refl), firstn_all in Htr.
    destruct (QueryTables E (world s2)) as [[rows|err] w3]; cbn [fst].
    + destruct (restoreTables_shape rows (mkState w3 (trace s2 ++ [EvQueryTables])))
        as (evs & j & Htr2 & Hev & Hj & Hall).
      exists evs. split.
      { apply events_spec. rewrite HR, Htr2. cbn [trace]. rewrite Htr. unfold s1. cbn [trace].
        by rewrite <-!app_assoc. }
      split; [done|]. intros names [= <-]. exists j. split; [done|]. by rewrite HR.
    + exists []. split.
      { apply events_spec. rewrite HR. cbn [snd trace]. rewrite Htr. unfold s1. cbn [trace].
        by rewrite <-!app_assoc. }
      split; [done|]. intros names [=].
Qed.


Lemma Strings_Permutation tables : Sort.Strings tables ≡ₚ tables.
Proof. apply merge_sort_Permutation. Qed.

Lemma Strings_Sorted tables : Sorted String.le (Sort.Strings tables).
Proof. apply (Sorted_merge_sort String.le). Qed.


End RestoreAll.


(** ** SaveTable *)

Section SaveFacts.
Context (E : Env).

Lemma saveItems_shape table row cf items : forall c s,
  exists ins,
    trace (saveItems E table row cf items c s).2 = trace s ++ (insertOf table <$> ins) /\
    ins `prefix_of` (snapRow E cf <$> items) /\
    ((saveItems E table row cf items c s).1.2 = None -> ins = snapRow E cf <$> items).
Proof.
  induction items as [|item items IH]; intros c s.
  - exists []. simpl. rewrite app_nil_r. done.
  - cbn [saveItems]. unfold bind, call.
    destruct (Exec E (InsertInto table) (Some (snapRow E cf item)) (world s)) as [[err|] w].
    + exists [snapRow E cf item]. split; [done|]. split; [|done].
      rewrite fmap_cons. apply prefix_cons, prefix_nil.
    + match goal with |- context [saveItems E table row cf items ?c' ?s'] =>
        destruct (IH c' s') as (ins & Htr & Hp & Hall) end.
      exists (snapRow E cf item :: ins). cbn [trace] in Htr.
      split; [rewrite Htr; by rewrite <-app_assoc|].
      split; [rewrite fmap_cons; by apply prefix_cons|].
      intros H. rewrite fmap_cons. by rewrite (Hall H).
Qed.

Lemma saveFamilies_shape table row families : forall c s,
  exists ins,
    trace (saveFamilies E table row families c s).2 = trace s ++ (insertOf table <$> ins) /\
    ins `prefix_of` familyRows E families /\
    ((saveFamilies E table row families c s).1.2 = None -> ins = familyRows E families).
Proof.
  induction families as [|[cf items] families IH]; intros c s.
  - exists []. simpl. rewrite app_nil_r. done.
  - cbn [saveFamilies]. unfold bind.
    destruct (saveItems_shape table row cf items c s) as (ins1 & Htr1 & Hp1 & Hall1).
    destruct (saveItems E table row cf items c s) as [[c1 [e|]] s1]; cbn [fst snd] in *.
    + exists ins1. split; [done|]. split; [|done].
      unfold familyRows. rewrite bind_cons. by apply prefix_app_r.
    + destruct (IH c1 s1) as (ins2 & Htr2 & Hp2 & Hall2).
      rewrite (Hall1 eq_refl) in *.
      exists ((snapRow E cf <$> items) ++ ins2).
      split; [rewrite Htr2, Htr1, fmap_app; by rewrite <-app_assoc|].
      unfold familyRows at 1 2. rewrite bind_cons.
      split; [by apply prefix_app|]. intros H. by rewrite (Hall2 H).
Qed.

(** The rows that the scan inserts are the first snapshot rows of the
    stream, and all of them when no insertion fails. *)
Lemma readRows_shape table rows streamErr : forall c s,
  exists ins,
    trace (readRows E table rows streamErr c s).2 = trace s ++ (insertOf table <$> ins) /\
    ins `prefix_of` snapRows E rows /\
    ((readRows E table rows streamErr c s).1.2 = None -> ins = snapRows E rows).
Proof.
  induction rows as [|row rows IH]; intros c s.
  - exists []. simpl. rewrite app_nil_r. done.
  - cbn [readRows]. unfold bind.
    destruct (saveFamilies_shape table row row c s) as (ins1 & Htr1 & Hp1 & Hall1).
    destruct (saveFamilies E table row row c s) as [[c1 [e|]] s1]; cbn [fst snd] in *.
    + exists ins1. split; [done|]. split; [|done].
      unfold snapRows. rewrite bind_cons. by apply prefix_app_r.
    + destruct (IH c1 s1) as (ins2 & Htr2 & Hp2 & Hall2).
      rewrite (Hall1 eq_refl) in *.
      exists (familyRows E row ++ ins2).
      split; [rewrite Htr2, Htr1, fmap_app; by rewrite <-app_assoc|].
      unfold snapRows at 1 2. rewrite bind_cons.
      split; [by apply prefix_app|]. intros H. by rewrite (Hall2 H).
Qed.

Lemma inserted_app l1 l2 : inserted (l1 ++ l2) = inserted l1 ++ inserted l2.
Proof. apply omap_app. Qed.

Lemma inserted_insertOf table ins : inserted (insertOf table <$> ins) = (fun r => (table, r)) <$> ins.
Proof.
  induction ins as [|r ins IH]; [done|].
  rewrite !fmap_cons. change (inserted (insertOf table r :: ?l)) with ((table, r) :: inserted l).
  by rewrite IH.
Qed.

(** A snapshot row comes from an item of its family in a row of the
    stream. *)
Lemma elem_of_snapRows rows r :
  r ∈ snapRows E rows <->
  exists row cf items item, row ∈ rows /\ (cf, items) ∈ row /\ item ∈ items /\ r = snapRow E cf item.
Proof.
  unfold snapRows. rewrite list_elem_of_bind. split.
  - intros (row & Hr & Hrow). apply list_elem_of_bind in Hr as ([cf items] & Hr & Hfam).
    apply list_elem_of_fmap in Hr as (item & -> & Hitem). by exists row, cf, items, item.
  - intros (row & cf & items & item & Hrow & Hfam & Hitem & ->).
    exists row. split; [|done]. apply list_elem_of_bind. exists (cf, items). split; [|done].
    apply list_elem_of_fmap. by exists item.
Qed.

End SaveFacts.
Lemma append_cons (x : ascii) (a b : string) : String x a +:+ b = String x (a +:+ b).
Proof. done. Qed.

Lemma append_assoc (a b c : string) : (a +:+ b) +:+ c = a +:+ (b +:+ c).
Proof. induction a as [|x a IH]; [reflexivity|]. by rewrite !append_cons, IH. Qed.

Lemma append_nil_r (a : string) : a +:+ EmptyString = a.
Proof. induction a as [|x a IH]; [reflexivity|]. by rewrite append_cons, IH. Qed.

Lemma length_append (a b : string) :
  String.length (a +:+ b) = (String.length a + String.length b)%nat.
Proof.
  induction a as [|x a IH]; [reflexivity|]. rewrite append_cons. cbn [String.length].
  by rewrite IH.
Qed.

Lemma HasPrefix_append p q : Strings.HasPrefix (p +:+ q) p = true.
Proof.
  induction p as [|x p IH]; [reflexivity|]. rewrite append_cons. cbn [Strings.HasPrefix].
  by rewrite decide_True.
Qed.

Lemma from_append p q : Strings.from (String.length p) (p +:+ q) = q.
Proof. induction p as [|x p IH]; [reflexivity|]. rewrite append_cons. exact IH. Qed.

(** [strings.TrimPrefix] removes a prefix that is there, once. *)
Lemma TrimPrefix_append p q : Strings.TrimPrefix (p +:+ q) p = q.
Proof. unfold Strings.TrimPrefix. by rewrite HasPrefix_append, from_append. Qed.


Example TrimPrefix_cf1 : Strings.TrimPrefix "cf1:mycolumn" ("cf1" +:+ ":") = "mycolumn".
Proof. reflexivity. Qed.
Example TrimPrefix_once : Strings.TrimPrefix "cf1:cf1:x" ("cf1" +:+ ":") = "cf1:x".
Proof. reflexivity. Qed.

Section SaveAllFacts.
Context (E : Env).

Lemma saving_app l1 l2 : saving (l1 ++ l2) = saving l1 ++ saving l2.
Proof. apply omap_app. Qed.

Lemma saving_insertOf table ins : saving (insertOf table <$> ins) = [].
Proof. induction ins as [|r ins IH]; [done|]. rewrite fmap_cons. exact IH. Qed.

Lemma emits_ret {A} P (a : A) : emits P (ret E a).
Proof. intros s. exists []. simpl. by rewrite app_nil_r. Qed.

Lemma emits_bind {A B} P (m : M E A) (k : A -> M E B) :
  emits P m -> (forall a, emits P (k a)) -> emits P (bind E m k).
Proof.
  intros Hm Hk s. unfold bind. destruct (Hm s) as (evs1 & Htr1 & H1).
  destruct (m s) as [a s1]. cbn [snd] in *.
  destruct (Hk a s1) as (evs2 & Htr2 & H2).
  exists (evs1 ++ evs2). split; [rewrite Htr2, Htr1; by rewrite <-app_assoc|].
  by apply Forall_app.
Qed.

Lemma emits_call {A} (P : Event -> Prop) ev (op : World E -> A * World E) :
  P ev -> emits P (call E ev op).
Proof.
  intros HP s. unfold call. destruct (op (world s)) as [a w].
  exists [ev]. split; [done|]. by constructor.
Qed.

Lemma emits_logPrintf (P : Event -> Prop) line : P (EvLog line) -> emits P (logPrintf E line).
Proof. intros HP s. exists [EvLog line]. split; [done|]. by constructor. Qed.

Lemma emits_readRows table rows streamErr c :
  emits notSaving (readRows E table rows streamErr c).
Proof.
  intros s. destruct (readRows_shape E table rows streamErr c s) as (ins & Htr & _ & _).
  exists (insertOf table <$> ins). split; [done|]. apply Forall_fmap, Forall_true. by intros ?.
Qed.

Lemma saving_notSaving evs : Forall notSaving evs -> saving evs = [].
Proof.
  induction 1 as [|ev evs Hev _ IH]; [done|].
  destruct ev as [[]| | | | | | | |]; try done.
Qed.

(** [SaveTable] logs its entry once, first. *)
Lemma SaveTable_shape table s :
  exists evs,
    trace (SaveTable E table s).2 = trace s ++ EvLog (Saving table) :: evs /\ saving evs = [].
Proof.
  unfold SaveTable. unfold bind at 1. unfold logPrintf at 1. unfold emit. cbn [world trace].
  match goal with |- context [bind E ?m ?k] =>
    assert (H : emits notSaving (bind E m k)) end.
  { repeat (apply emits_bind; [by apply emits_call|]; intros [?|]; [by apply emits_ret|]).
    apply emits_bind; [by apply emits_call|]. intros [rows streamErr].
    apply emits_bind; [apply emits_readRows|]. intros [[[?|] c] [?|]]; try apply emits_ret.
    apply emits_bind; [by apply emits_logPrintf|]. intros ?. apply emits_ret. }
  match goal with |- context [bind E ?m ?k ?s'] => destruct (H s') as (evs & Htr & Hall) end.
  exists evs. cbn [trace] in Htr. split; [rewrite Htr; by rewrite <-app_assoc|].
  by apply saving_notSaving.
Qed.

(** The loop of [SaveAll] enters [SaveTable] for the tables in the order
    given, for all of them when it returns nil. *)
Lemma saveTables_shape tables : forall s,
  exists evs,
    trace (saveTables E tables s).2 = trace s ++ evs /\
    saving evs `prefix_of` tables /\
    ((saveTables E tables s).1 = None -> saving evs = tables).
Proof.
  induction tables as [|table tables IH]; intros s.
  - exists []. simpl. rewrite app_nil_r. done.
  - cbn [saveTables]. unfold bind.
    destruct (SaveTable_shape table s) as (evs1 & Htr1 & Hs1).
    destruct (SaveTable E table s) as [[e|] s1]; cbn [fst snd] in *.
    + exists (EvLog (Saving table) :: evs1). split; [done|].
      change (saving (EvLog (Saving table) :: evs1)) with (table :: saving evs1).
      rewrite Hs1. split; [|done]. apply prefix_cons, prefix_nil.
    + destruct (IH s1) as (evs2 & Htr2 & Hp & Hall).
      exists ((EvLog (Saving table) :: evs1) ++ evs2).
      split; [rewrite Htr2, Htr1; by rewrite <-app_assoc|].
      rewrite saving_app.
      change (saving (EvLog (Saving table) :: evs1)) with (table :: saving evs1).
      rewrite Hs1. cbn [app]. split; [by apply prefix_cons|].
      intros H. by rewrite (Hall H).
Qed.

Lemma SaveAll_shape s tables :
  (Tables E (world s)).1 = ok tables ->
  saving (events (SaveAll E) s) `prefix_of` Sort.Strings tables /\
  ((SaveAll E s).1 = None -> saving (events (SaveAll E) s) = Sort.Strings tables).
Proof.
  intros HT. unfold SaveAll at 2. unfold events, SaveAll, bind, call.
  destruct (Tables E (world s)) as [r w]. simpl in HT. subst r.
  match goal with |- context [saveTables E ?t ?s'] =>
    destruct (saveTables_shape t s') as (evs & Htr & Hp & Hall) end.
  rewrite Htr. cbn [trace]. rewrite <-app_assoc, drop_app_length.
  change (saving ([EvTables] ++ evs)) with (saving evs). done.
Qed.

End SaveAllFacts.

(** ** The column of a snapshot row *)

Section Columns.
Context (E : Env).

(** The snapshot row of an item whose column is qualified with its family
    holds the unqualified suffix. *)
Lemma snapRow_column cf item q :
  ReadItem.Column item = cf +:+ ":" +:+ q ->
  column (snapRow E cf item) = q /\ column (snapRow E cf item) <> ReadItem.Column item.
Proof.
  intros H. cbn [snapRow column]. rewrite H, <-append_assoc, TrimPrefix_append.
  split; [done|]. intros Heq. apply (f_equal String.length) in Heq.
  rewrite !length_append in Heq. simpl in Heq. lia.
Qed.

Lemma emits_bind_call {A B} (P : Event -> Prop) ev (op : World E -> A * World E)
    (k : A -> M E B) :
  P ev -> (forall w, emits P (k (op w).1)) -> emits P (bind E (call E ev op) k).
Proof.
  intros HP Hk s. unfold bind, call.
  destruct (op (world s)) as [a w] eqn:Hop.
  pose proof (Hk (world s)) as Hka. rewrite Hop in Hka. cbn [fst] in Hka.
  destruct (Hka (mkState w (trace s ++ [ev]))) as (evs & Htr & Hall).
  exists (ev :: evs). cbn [trace] in Htr. split; [rewrite Htr; by rewrite <-app_assoc|].
  by constructor.
Qed.

Lemma fromStream_readRows table w c :
  emits (fromStream E table)
    (readRows E table (ReadRows E table w).1.1 (ReadRows E table w).1.2 c).
Proof.
  intros s.
  destruct (readRows_shape E table (ReadRows E table w).1.1 (ReadRows E table w).1.2 c s)
    as (ins & Htr & Hp & _).
  exists (insertOf table <$> ins). split; [done|].
  apply Forall_fmap, Forall_forall. intros r Hr. split; [done|].
  apply (elem_of_prefix _ _ _ Hr) in Hp.
  apply elem_of_snapRows in Hp as (row & cf & items & item & Hrow & Hfam & Hitem & ->).
  by exists w, row, cf, items, item.
Qed.

(** [SaveTable] inserts only snapshot rows of items that its scan of the
    remote table gave. *)
Lemma SaveTable_fromStream table : emits (fromStream E table) (SaveTable E table).
Proof.
  unfold SaveTable.
  apply emits_bind; [by apply emits_logPrintf|]. intros _.
  repeat (apply emits_bind; [by apply emits_call|]; intros [?|]; [by apply emits_ret|]).
  apply emits_bind_call; [done|]. intros w.
  destruct (ReadRows E table w) as [[rows streamErr] w'] eqn:HR. cbn [fst].
  apply emits_bind.
  { pose proof (fromStream_readRows table w 0) as H. by rewrite HR in H. }
  intros [[[?|] c] [?|]]; try apply emits_ret.
  apply emits_bind; [by apply emits_logPrintf|]. intros ?. apply emits_ret.
Qed.

(** C8. Every row that [SaveTable] inserts is the snapshot row of an item
    that the scan of the remote table returned: when the column of the
    item is qualified as [family:column] under its family, the column of
    the snapshot row is the unqualified suffix, and not the qualified
    name. *)
Theorem C8_column_prefix_stripped table s t r :
  (t, r) ∈ inserted (events (SaveTable E table) s) ->
  exists w row cf items item,
    row ∈ (ReadRows E table w).1.1 /\ (cf, items) ∈ row /\ item ∈ items /\
    t = table /\ r = snapRow E cf item /\
    forall q, ReadItem.Column item = cf +:+ ":" +:+ q ->
      column r = q /\ column r <> ReadItem.Column item.
Proof.
  intros Hin. destruct (SaveTable_fromStream table s) as (evs & Htr & Hall).
  rewrite (events_spec E _ _ _ Htr) in Hin.
  apply list_elem_of_omap in Hin as (ev & Hev & Hins).
  rewrite Forall_forall in Hall. specialize (Hall ev Hev).
  destruct ev as [| | | | | |q args| |]; try done.
  destruct q as [| |t']; try done. destruct args as [r'|]; [|done].
  injection Hins as -> ->. destruct Hall as (-> & w & row & cf & items & item & H1 & H2 & H3 & ->).
  exists w, row, cf, items, item. do 5 (split; [done|]).
  intros q Hq. by apply snapRow_column.
Qed.

End Columns.

Example SaveTable_cf1 :
  Mem.lookup "t" (Mem.db (world (SaveTable Mem.env "t" cf1State).2)) =
    Some [snapRow Mem.env "cf1" cf1Item] /\
  ReadItem.Column cf1Item = "cf1:mycolumn" /\
  column (snapRow Mem.env "cf1" cf1Item) = "mycolumn".
Proof. vm_compute. repeat split; reflexivity. Qed.

Lemma C8_column_prefix_stripped_witness :
  ("t", snapRow Mem.env "cf1" cf1Item) ∈ inserted (events (SaveTable Mem.env "t") cf1State) /\
  exists w row cf items item,
    row ∈ (ReadRows Mem.env "t" w).1.1 /\ (cf, items) ∈ row /\ item ∈ items /\
    "t" = "t" /\ snapRow Mem.env "cf1" cf1Item = snapRow Mem.env cf item /\
    forall q, ReadItem.Column item = cf +:+ ":" +:+ q ->
      column (snapRow Mem.env "cf1" cf1Item) = q /\
      column (snapRow Mem.env "cf1" cf1Item) <> ReadItem.Column item.
Proof.
  assert (H1 : ("t", snapRow Mem.env "cf1" cf1Item) ∈
    inserted (events (SaveTable Mem.env "t") cf1State)).
  { assert (Hev : inserted (events (SaveTable Mem.env "t") cf1State) =
                  [("t", snapRow Mem.env "cf1" cf1Item)]) by (vm_compute; reflexivity).
    rewrite Hev. by left. }
  split; [exact H1|].
  exact (C8_column_prefix_stripped Mem.env "t" cf1State _ _ H1).
Defined.

(** ** The order of the tables *)

Section Order.
Context (E : Env).

(** C3, as the program has it. [SaveAll] enters [SaveTable] for the
    remote tables in sorted order. [Restore] clears the remote tables in
    sorted order, and enters [RestoreTable] for the tables of the snapshot
    in the order in which the query of the snapshot lists them. *)
Theorem C3_table_order s tables :
  (Tables E (world s)).1 = ok tables ->
  Sorted String.le (Sort.Strings tables) /\ Sort.Strings tables ≡ₚ tables /\
  saving (events (SaveAll E) s) `prefix_of` Sort.Strings tables /\
  ((SaveAll E s).1 = None -> saving (events (SaveAll E) s) = Sort.Strings tables) /\
  dropped (events (Restore E) s) `prefix_of` Sort.Strings tables /\
  ((Restore E s).1 = None -> dropped (events (Restore E) s) = Sort.Strings tables) /\
  (forall names, (QueryTables E (world (afterClear E tables s))).1 = ok names ->
     restoring (events (Restore E) s) `prefix_of` scanned names /\
     ((Restore E s).1 = None -> restoring (events (Restore E) s) = scanned names)).
Proof.
  intros HT.
  split; [apply Strings_Sorted|]. split; [apply Strings_Permutation|].
  destruct (SaveAll_shape E s tables HT) as [Hs1 Hs2]. split; [done|]. split; [done|].
  destruct (Restore_events E s tables HT) as [(k & e & Hev & Hres)|(R & Hev & HR & Hnames)].
  - rewrite Hev, Hres.
    change (dropped ([EvTables] ++ ?l)) with (dropped l).
    change (restoring ([EvTables] ++ ?l)) with (restoring l).
    rewrite dropped_drops, restoring_drops.
    split; [apply prefix_take|]. split; [done|]. intros names _. split; [apply prefix_nil|done].
  - rewrite Hev.
    change (dropped ([EvTables] ++ ?l)) with (dropped l).
    change (restoring ([EvTables] ++ ?l)) with (restoring l).
    rewrite dropped_app, restoring_app, dropped_drops, restoring_drops.
    change (dropped (EvQueryTables :: R)) with (dropped R).
    change (restoring (EvQueryTables :: R)) with (restoring R).
    rewrite (dropped_restoreEvent _ HR), app_nil_r, app_nil_l.
    split; [done|]. split; [done|]. intros names Hq.
    destruct (Hnames names Hq) as (j & Hj & Hall). split; [|done].
    rewrite Hj. apply prefix_take.
Qed.

End Order.

(** With the remote tables listed as [b], [a], [c], [Restore] does not
    enter [RestoreTable] in the order [a], [b], [c] when the snapshot lists
    its tables otherwise. *)
Lemma C3_restore_follows_snapshot :
  (Tables Mem.env (world orderState)).1 = ok ["b"; "a"; "c"] /\
  (Restore Mem.env orderState).1 = None /\
  restoring (events (Restore Mem.env) orderState) = ["a"; "c"; "b"] /\
  restoring (events (Restore Mem.env) orderState) <> ["a"; "b"; "c"].
Proof.
  split; [reflexivity|]. split; [vm_compute; reflexivity|].
  assert (H : restoring (events (Restore Mem.env) orderState) = ["a"; "c"; "b"])
    by (vm_compute; reflexivity).
  split; [exact H|]. rewrite H. discriminate.
Qed.

Example snapshot_order_reachable : Mem.db savedTwice = Mem.db orderWorld.
Proof. vm_compute. reflexivity. Qed.

Lemma C3_table_order_witness :
  (Tables Mem.env (world orderState)).1 = ok ["b"; "a"; "c"] /\
  (SaveAll Mem.env orderState).1 = None /\
  (Restore Mem.env orderState).1 = None /\
  (QueryTables Mem.env (world (afterClear Mem.env ["b"; "a"; "c"] orderState))).1 =
    ok [ok "a"; ok "c"; ok "b"] /\
  saving (events (SaveAll Mem.env) orderState) = Sort.Strings ["b"; "a"; "c"] /\
  dropped (events (Restore Mem.env) orderState) = Sort.Strings ["b"; "a"; "c"] /\
  restoring (events (Restore Mem.env) orderState) = ["a"; "c"; "b"].
Proof.
  assert (H1 : (Tables Mem.env (world orderState)).1 = ok ["b"; "a"; "c"]) by reflexivity.
  assert (H2 : (SaveAll Mem.env orderState).1 = None) by (vm_compute; reflexivity).
  assert (H3 : (Restore Mem.env orderState).1 = None) by (vm_compute; reflexivity).
  assert (H4 : (QueryTables Mem.env (world (afterClear Mem.env ["b"; "a"; "c"] orderState))).1 =
    ok [ok "a"; ok "c"; ok "b"]) by (vm_compute; reflexivity).
  split; [exact H1|]. split; [exact H2|]. split; [exact H3|]. split; [exact H4|].
  destruct (C3_table_order Mem.env orderState ["b"; "a"; "c"] H1)
    as (_ & _ & _ & Hs & _ & Hd & Hr).
  split; [exact (Hs H2)|]. split; [exact (Hd H3)|].
  exact (proj2 (Hr _ H4) H3).
Defined.

(** ** The checksum *)

Lemma Write_app h a b : Fnv.Write (Fnv.Write h a) b = Fnv.Write h (a ++ b).
Proof. unfold Fnv.Write. by rewrite fold_left_app. Qed.

Lemma bytesOf_cons c s : bytesOf (String c s) = byte_of_ascii c :: bytesOf s.
Proof. done. Qed.

Lemma plain_append a b : plain (a +:+ b) = plain a && plain b.
Proof.
  induction a as [|x a IH]; [reflexivity|]. rewrite append_cons. cbn [plain].
  by rewrite IH, andb_assoc.
Qed.

Lemma doPrintf_plain s : forall fuel,
  plain s = true -> (String.length s < fuel)%nat -> Fmt.doPrintf fuel s = s.
Proof.
  induction s as [|c s IH]; intros fuel Hp Hf.
  - destruct fuel; [simpl in Hf; lia|done].
  - destruct fuel as [|fuel]; [simpl in Hf; lia|].
    cbn [plain] in Hp. apply andb_true_iff in Hp as [Hc Hp].
    cbn [Fmt.doPrintf]. destruct (decide (c = "%"%char)) as [->|_]; [done|].
    rewrite IH; [done|done|]. simpl in Hf. lia.
Qed.

(** A format without a percent sign is written as it is. *)
Lemma Sprintf_plain_id s : plain s = true -> Fmt.Sprintf s = s.
Proof. intros Hp. unfold Fmt.Sprintf. apply doPrintf_plain; [done|lia]. Qed.

Lemma Fprintf_plain h s : plain s = true -> Fmt.Fprintf h s = Fnv.Write h (bytesOf s).
Proof. intros Hp. unfold Fmt.Fprintf. by rewrite Sprintf_plain_id. Qed.

Lemma digit_plain d : 0 <= d < 10 -> bool_decide (chr (48 + d) = "%"%char) = false.
Proof.
  intros Hd.
  assert (H : d = 0 \/ d = 1 \/ d = 2 \/ d = 3 \/ d = 4 \/ d = 5 \/ d = 6 \/ d = 7 \/ d = 8 \/ d = 9)
    by lia.
  destruct H as [->|[->|[->|[->|[->|[->|[->|[->|[->| ->]]]]]]]]]; reflexivity.
Qed.

Lemma decimalFrom_plain fuel : forall u acc,
  plain acc = true -> plain (Time.decimalFrom fuel u acc) = true.
Proof.
  induction fuel as [|fuel IH]; intros u acc Hacc; [done|].
  cbn [Time.decimalFrom].
  assert (Hd : plain (String (chr (48 + u mod 10)) acc) = true).
  { cbn [plain]. rewrite digit_plain, Hacc; [done|]. apply Z.mod_pos_bound. lia. }
  destruct (u <? 10); [done|]. by apply IH.
Qed.

Lemma zeros_plain n : plain (Time.zeros n) = true.
Proof. induction n as [|n IH]; [done|]. cbn [Time.zeros plain]. by rewrite IH. Qed.

Lemma appendInt_plain x width : plain (Time.appendInt x width) = true.
Proof.
  unfold Time.appendInt. rewrite !plain_append, zeros_plain.
  unfold Time.decimal. rewrite decimalFrom_plain by done. by destruct (x <? 0).
Qed.

Lemma trimRight_plain c s : plain s = true -> plain (Time.trimRight c s) = true.
Proof.
  induction s as [|a s IH]; intros Hp; [done|].
  cbn [plain] in Hp. apply andb_true_iff in Hp as [Ha Hp].
  cbn [Time.trimRight]. specialize (IH Hp).
  destruct (Time.trimRight c s) as [|b t].
  - destruct (decide (a = c)); [done|]. cbn [plain]. by rewrite Ha.
  - cbn [plain] in *. by rewrite Ha, IH.
Qed.

Lemma rev_app_plain s : forall acc, plain (String.rev_app s acc) = plain s && plain acc.
Proof.
  induction s as [|a s IH]; intros acc; [done|].
  cbn [String.rev_app plain]. rewrite IH. cbn [plain].
  destruct (negb (bool_decide (a = "%"%char))), (plain s), (plain acc); done.
Qed.

Lemma rev_plain s : plain (String.rev s) = plain s.
Proof. unfold String.rev. rewrite rev_app_plain. cbn [plain]. by rewrite andb_true_r. Qed.

Lemma dropLast_plain c s : plain s = true -> plain (Time.dropLast c s) = true.
Proof.
  intros Hp. unfold Time.dropLast.
  destruct (String.rev s) as [|a r] eqn:Hr; [done|].
  destruct (decide (a = c)); [|done].
  rewrite rev_plain. rewrite <-rev_plain, Hr in Hp. cbn [plain] in Hp.
  by apply andb_true_iff in Hp as [_ ?].
Qed.

Lemma appendNano_plain n : plain (Time.appendNano n) = true.
Proof.
  unfold Time.appendNano. destruct (n =? 0); [done|].
  apply dropLast_plain, trimRight_plain. by rewrite plain_append, appendInt_plain.
Qed.

(** A formatted time has no percent sign. *)
Lemma Format_plain loc t : plain (Time.Format loc t) = true.
Proof.
  unfold Time.Format. destruct (Time.date _) as [[year month] day].
  rewrite !plain_append, !appendInt_plain, appendNano_plain.
  destruct (loc (Time.sec t) =? 0); [done|].
  rewrite !plain_append, !appendInt_plain. by destruct (Z.quot _ 60 <? 0).
Qed.

Lemma Write_range h data : 0 <= h < 2 ^ 32 -> 0 <= Fnv.Write h data < 2 ^ 32.
Proof.
  unfold Fnv.Write. revert h. induction data as [|c data IH]; intros h Hh; [done|].
  cbn [fold_left]. apply IH. apply Z.mod_pos_bound. lia.
Qed.

Lemma Fprintf_range h s : 0 <= h < 2 ^ 32 -> 0 <= Fmt.Fprintf h s < 2 ^ 32.
Proof. apply Write_range. Qed.

Section Checksum.
Context (E : Env).

(** C2, as the program has it. The checksum is a function of the row
    key, the family, the column, the value and the instant of the cell
    (and of the time zone of the process), with values in uint32: for
    strings without a percent sign it is the FNV-1a hash of their bytes in
    this order, of the bytes of the value, and of the instant in the layout
    RFC3339Nano, in which the fraction of the second has no trailing zeros.
    [SaveTable] and [RestoreTable] compute this same function, the first at
    the instant of the timestamp of the item, the second at the instant of
    the stored nanoseconds. *)
Theorem C2_checksum key cf col value ts item :
  plain cf = true -> plain col = true ->
  0 <= restoreSum E key cf col value ts < 2 ^ 32 /\
  0 <= saveSum E item cf col < 2 ^ 32 /\
  (plain key = true ->
   restoreSum E key cf col value ts = checksum (Local E) key cf col value (Time.Unix 0 ts)) /\
  (plain (ReadItem.Row item) = true ->
   saveSum E item cf col =
     checksum (Local E) (ReadItem.Row item) cf col (ReadItem.Value item)
       (Bigtable.Timestamp_Time (ReadItem.Timestamp item))).
Proof.
  intros Hcf Hcol.
  split; [unfold restoreSum, Fnv.Sum32; repeat (apply Fprintf_range || apply Write_range); done|].
  split; [unfold saveSum, Fnv.Sum32; repeat (apply Fprintf_range || apply Write_range); done|].
  split; intros Hkey.
  - unfold restoreSum, checksum.
    rewrite !Fprintf_plain, !Write_app by (done || apply Format_plain).
    by rewrite <-?app_assoc.
  - unfold saveSum, checksum.
    rewrite !Fprintf_plain, !Write_app by (done || apply Format_plain).
    by rewrite <-?app_assoc.
Qed.

End Checksum.

(** The timestamp is not hashed in fixed precision: at the epoch the
    program hashes [1970-01-01T00:00:00Z], not the string with nine digits
    of fraction. And the checksum of a cell is not the same in every time
    zone. *)
Lemma C2_not_fixed_precision :
  Time.Format Time.UTC (Time.Unix 0 0) = "1970-01-01T00:00:00Z" /\
  fixedPrecision Time.UTC (Time.Unix 0 0) = "1970-01-01T00:00:00.000000000Z" /\
  restoreSum Mem.env "r" "cf" "c" (bytesOf "v") 0 <>
    specChecksum Time.UTC "r" "cf" "c" (bytesOf "v") (Time.Unix 0 0) /\
  restoreSum (Mem.envAt (fun _ => 3600)) "r" "cf" "c" (bytesOf "v") 0 <>
    restoreSum Mem.env "r" "cf" "c" (bytesOf "v") 0.
Proof.
  split; [reflexivity|]. split; [reflexivity|]. split; vm_compute; discriminate.
Qed.

Lemma C2_checksum_witness :
  plain "cf" = true /\ plain "c" = true /\ plain "r" = true /\
  restoreSum Mem.env "r" "cf" "c" (bytesOf "v") 1600000000000000000 =
    checksum Time.UTC "r" "cf" "c" (bytesOf "v") (Time.Unix 0 1600000000000000000) /\
  saveSum Mem.env (ReadItem.mk "r" "cf:c" 1600000000000000 (bytesOf "v")) "cf" "c" =
    checksum Time.UTC "r" "cf" "c" (bytesOf "v") (Bigtable.Timestamp_Time 1600000000000000).
Proof.
  split; [reflexivity|]. split; [reflexivity|]. split; [reflexivity|].
  destruct (C2_checksum Mem.env "r" "cf" "c" (bytesOf "v") 1600000000000000000
              (ReadItem.mk "r" "cf:c" 1600000000000000 (bytesOf "v")) eq_refl eq_refl)
    as (_ & _ & H1 & H2).
  split; [exact (H1 eq_refl)|exact (H2 eq_refl)].
Defined.

(** ** The in-memory snapshot *)

Lemma Mem_lookup_remove {A} name (l : list (string * A)) : Mem.lookup name (Mem.remove name l) = None.
Proof.
  induction l as [|[n a] l IH]; [done|]. cbn [Mem.remove].
  destruct (decide (Mem.sameName n name)) as [Hs|Hne]; [done|]. cbn [Mem.lookup].
  rewrite decide_False; [done|]. intros ->. by apply Hne.
Qed.

(** A statement that names a table by its very name means that table. *)
Lemma Mem_find_exact {A} name a (l : list (string * A)) :
  Mem.lookup name l = Some a -> Mem.find name l = Some (name, a).
Proof. intros H. unfold Mem.find. by rewrite H. Qed.

Lemma Mem_find_remove {A} name (l : list (string * A)) : Mem.find name (Mem.remove name l) = None.
Proof.
  unfold Mem.find. rewrite Mem_lookup_remove.
  induction l as [|[n a] l IH]; [done|]. cbn [Mem.remove].
  destruct (decide (Mem.sameName n name)); [done|]. by rewrite filter_cons_False.
Qed.

Lemma Mem_find_None {A} name (l : list (string * A)) :
  Mem.find name l = None <-> Forall (fun e => ~ Mem.sameName e.1 name) l.
Proof.
  unfold Mem.find. induction l as [|[n a] l IH]; [done|]. cbn [Mem.lookup].
  rewrite Forall_cons. cbn [fst].
  destruct (decide (n = name)) as [->|Hne].
  - split; [done|]. intros [H _]. by destruct H.
  - destruct (decide (Mem.sameName n name)) as [Hs|Hs].
    + rewrite filter_cons_True by done. split; [by destruct (Mem.lookup name l)|]. by intros [? _].
    + rewrite filter_cons_False by done. rewrite IH. tauto.
Qed.

(** The names that the pattern of the query of [Restore] lets through
    are not reserved. *)
Lemma reserved_likeSqlite n : Mem.reserved n = true -> Mem.likeSqlite n = true.
Proof.
  unfold Mem.reserved, Mem.likeSqlite.
  destruct n as [|c1 [|c2 [|c3 [|c4 [|c5 [|c6 [|c7 n]]]]]]];
    cbn [Mem.lowerString Strings.HasPrefix String.length]; repeat case_decide; done.
Qed.

Lemma likeSqlite_reserved n : Mem.likeSqlite n = false -> Mem.reserved n = false.
Proof.
  intros H. destruct (Mem.reserved n) eqn:Hr; [|done].
  apply reserved_likeSqlite in Hr. congruence.
Qed.

Lemma mayNotBeDropped_reserved n : Mem.reserved n = false -> Mem.mayNotBeDropped n = false.
Proof. intros H. unfold Mem.mayNotBeDropped. by rewrite H. Qed.

(** The statements of [SaveTable], on a table whose name is not
    reserved. *)
Lemma Mem_Prepare_drop table w :
  Mem.reserved table = false -> Mem.Prepare (DropTable table) w = (None, w).
Proof. intros H. unfold Mem.Prepare. by rewrite mayNotBeDropped_reserved. Qed.

Lemma Mem_Exec_drop table w :
  Mem.reserved table = false ->
  Mem.Exec (DropTable table) None w =
    (None, Mem.mkWorld (Mem.bt w) (Mem.clock w) (Mem.mapSeed w) (Mem.remove table (Mem.db w))).
Proof. intros H. unfold Mem.Exec. by rewrite Mem_Prepare_drop. Qed.

Lemma Mem_Prepare_create table w :
  Mem.reserved table = false -> Mem.Prepare (CreateTable table) w = (None, w).
Proof. intros H. unfold Mem.Prepare. by rewrite H. Qed.

Lemma Mem_Exec_create table w :
  Mem.reserved table = false -> Mem.find table (Mem.db w) = None ->
  Mem.Exec (CreateTable table) None w =
    (None, Mem.mkWorld (Mem.bt w) (Mem.clock w) (Mem.mapSeed w) (Mem.db w ++ [(table, [])])).
Proof. intros H Hf. unfold Mem.Exec. by rewrite Mem_Prepare_create, Hf. Qed.

Lemma Mem_Prepare_insert table rows w :
  Mem.lookup table (Mem.db w) = Some rows -> Mem.Prepare (InsertInto table) w = (None, w).
Proof. intros H. unfold Mem.Prepare. by rewrite (Mem_find_exact _ _ _ H). Qed.

Lemma Mem_Exec_insert table rows row w :
  Mem.lookup table (Mem.db w) = Some rows ->
  Mem.Exec (InsertInto table) (Some row) w =
    (None, Mem.mkWorld (Mem.bt w) (Mem.clock w) (Mem.mapSeed w)
             (Mem.update table (fun rows => rows ++ [row]) (Mem.db w))).
Proof.
  intros H. unfold Mem.Exec. by rewrite (Mem_Prepare_insert _ _ _ H), (Mem_find_exact _ _ _ H).
Qed.

(** The query of the rows of a table, by its very name. *)
Lemma Mem_QueryRows table rows w :
  Mem.lookup table (Mem.db w) = Some rows -> Mem.QueryRows table w = (ok (ok <$> rows), w).
Proof. intros H. unfold Mem.QueryRows. by rewrite (Mem_find_exact _ _ _ H). Qed.

Lemma Mem_lookup_app_None {A} name (l1 l2 : list (string * A)) :
  Mem.lookup name l1 = None -> Mem.lookup name (l1 ++ l2) = Mem.lookup name l2.
Proof.
  induction l1 as [|[n a] l1 IH]; [done|]. cbn [Mem.lookup app].
  destruct (decide (n = name)); [done|]. exact IH.
Qed.

Lemma Mem_update_app_None {A} name (f : A -> A) (l1 l2 : list (string * A)) :
  Mem.lookup name l1 = None -> Mem.update name f (l1 ++ l2) = l1 ++ Mem.update name f l2.
Proof.
  induction l1 as [|[n a] l1 IH]; [done|]. cbn [Mem.lookup Mem.update app].
  destruct (decide (n = name)); [done|]. intros H. by rewrite IH.
Qed.

Lemma Mem_remove_app {A} name (l1 l2 : list (string * A)) :
  Mem.remove name (l1 ++ l2) = Mem.remove name l1 ++ Mem.remove name l2.
Proof.
  induction l1 as [|[n a] l1 IH]; [done|]. cbn [Mem.remove app].
  destruct (decide (Mem.sameName n name)); [done|]. by rewrite IH.
Qed.

Lemma Mem_remove_None {A} name (l : list (string * A)) :
  Mem.find name l = None -> Mem.remove name l = l.
Proof.
  rewrite Mem_find_None. induction 1 as [|[n a] l Hn _ IH]; [done|]. cbn [Mem.remove].
  rewrite decide_False by done. by rewrite IH.
Qed.

Lemma Mem_update_update {A} name (f g : A -> A) (l : list (string * A)) :
  Mem.update name f (Mem.update name g l) = Mem.update name (fun a => f (g a)) l.
Proof.
  induction l as [|[n a] l IH]; [done|]. cbn [Mem.update].
  destruct (decide (n = name)) as [->|Hne]; cbn [Mem.update].
  - by rewrite decide_True.
  - by rewrite decide_False, IH.
Qed.

Lemma Mem_update_ext {A} name (f g : A -> A) (l : list (string * A)) :
  (forall a, f a = g a) -> Mem.update name f l = Mem.update name g l.
Proof.
  intros H. induction l as [|[n a] l IH]; [done|]. cbn [Mem.update].
  destruct (decide (n = name)); [by rewrite H|by rewrite IH].
Qed.

Lemma Mem_update_id {A} name (l : list (string * A)) : Mem.update name (fun a => a) l = l.
Proof.
  induction l as [|[n a] l IH]; [done|]. cbn [Mem.update].
  destruct (decide (n = name)); [done|by rewrite IH].
Qed.

Lemma Mem_lookup_update {A} name (f : A -> A) (l : list (string * A)) :
  Mem.lookup name (Mem.update name f l) = f <$> Mem.lookup name l.
Proof.
  induction l as [|[n a] l IH]; [done|]. cbn [Mem.update Mem.lookup].
  destruct (decide (n = name)) as [->|Hne]; cbn [Mem.lookup].
  - by rewrite decide_True.
  - by rewrite decide_False.
Qed.

Lemma withRows_nil table w : withRows table [] w = w.
Proof.
  unfold withRows. rewrite (Mem_update_ext _ _ (fun a => a)) by (intros; apply app_nil_r).
  rewrite Mem_update_id. by destruct w.
Qed.

Lemma withRows_app table rows1 rows2 w :
  withRows table rows2 (withRows table rows1 w) = withRows table (rows1 ++ rows2) w.
Proof.
  unfold withRows. cbn [Mem.bt Mem.clock Mem.mapSeed Mem.db]. rewrite Mem_update_update.
  f_equal. apply Mem_update_ext. intros a. by rewrite app_assoc.
Qed.

Lemma lookup_withRows table rows w :
  Mem.lookup table (Mem.db (withRows table rows w)) =
    (fun old => old ++ rows) <$> Mem.lookup table (Mem.db w).
Proof. apply Mem_lookup_update. Qed.

(** In memory, the insertions of a scan all succeed when the table is
    there. *)
Lemma Mem_saveItems table row cf items : forall c (s : State Mem.env),
  is_Some (Mem.lookup table (Mem.db (world s))) ->
  (saveItems Mem.env table row cf items c s).1 = (c + Z.of_nat (length items), None) /\
  world (saveItems Mem.env table row cf items c s).2 =
    withRows table (snapRow Mem.env cf <$> items) (world s).
Proof.
  induction items as [|item items IH]; intros c s Hs.
  - cbn [saveItems ret fst snd length fmap list_fmap]. rewrite withRows_nil.
    split; [f_equal; lia|done].
  - cbn [saveItems]. unfold bind, call.
    change (Exec Mem.env) with Mem.Exec.
    destruct Hs as [old Hold]. rewrite (Mem_Exec_insert _ _ _ _ Hold).
    match goal with |- context [saveItems Mem.env table row cf items ?c' ?s'] =>
      destruct (IH c' s') as [H1 H2] end.
    { cbn [world Mem.db]. rewrite Mem_lookup_update, Hold. by eexists. }
    destruct (saveItems Mem.env table row cf items _ _) as [r s']. cbn [fst snd] in *.
    subst r. split; [f_equal; rewrite length_cons; lia|].
    rewrite H2. cbn [world]. rewrite fmap_cons.
    change (snapRow Mem.env cf item :: (snapRow Mem.env cf <$> items))
      with ([snapRow Mem.env cf item] ++ (snapRow Mem.env cf <$> items)).
    rewrite <-withRows_app. done.
Qed.

Lemma lookup_withRows_is_Some table rows w :
  is_Some (Mem.lookup table (Mem.db w)) ->
  is_Some (Mem.lookup table (Mem.db (withRows table rows w))).
Proof. intros [old H]. rewrite lookup_withRows, H. by eexists. Qed.

Lemma Mem_saveFamilies table row families : forall c (s : State Mem.env),
  is_Some (Mem.lookup table (Mem.db (world s))) ->
  exists c', (saveFamilies Mem.env table row families c s).1 = (c', None) /\
  world (saveFamilies Mem.env table row families c s).2 =
    withRows table (familyRows Mem.env families) (world s).
Proof.
  induction families as [|[cf items] families IH]; intros c s Hs.
  - exists c. cbn [saveFamilies ret fst snd]. by rewrite withRows_nil.
  - cbn [saveFamilies]. unfold bind.
    destruct (Mem_saveItems table row cf items c s Hs) as [H1 H2].
    destruct (saveItems Mem.env table row cf items c s) as [r s1]. cbn [fst snd] in *. subst r.
    destruct (IH (c + Z.of_nat (length items)) s1) as (c' & H3 & H4).
    { rewrite H2. by apply lookup_withRows_is_Some. }
    exists c'. split; [done|]. rewrite H4, H2, withRows_app.
    unfold familyRows at 2. by rewrite bind_cons.
Qed.

Lemma Mem_readRows table rows streamErr : forall c (s : State Mem.env),
  is_Some (Mem.lookup table (Mem.db (world s))) ->
  exists c', (readRows Mem.env table rows streamErr c s).1 = (streamErr, c', None) /\
  world (readRows Mem.env table rows streamErr c s).2 =
    withRows table (snapRows Mem.env rows) (world s).
Proof.
  induction rows as [|row rows IH]; intros c s Hs.
  - exists c. cbn [readRows ret fst snd]. by rewrite withRows_nil.
  - cbn [readRows]. unfold bind.
    destruct (Mem_saveFamilies table row row c s Hs) as (c1 & H1 & H2).
    destruct (saveFamilies Mem.env table row row c s) as [r s1]. cbn [fst snd] in *. subst r.
    destruct (IH c1 s1) as (c' & H3 & H4).
    { rewrite H2. by apply lookup_withRows_is_Some. }
    exists c'. split; [done|]. rewrite H4, H2, withRows_app.
    unfold snapRows at 2. by rewrite bind_cons.
Qed.

(** [SaveTable] in memory, on a remote table that exists: it returns nil
    and leaves in the snapshot, in place of what the table held, the
    snapshot rows of the scan. *)
Lemma Mem_SaveTable table t (s : State Mem.env) :
  Mem.lookup table (Mem.bt (world s)) = Some t ->
  Mem.reserved table = false ->
  (SaveTable Mem.env table s).1 = None /\
  world (SaveTable Mem.env table s).2 =
    Mem.mkWorld (Mem.bt (world s)) (Mem.clock (world s)) (S (Mem.mapSeed (world s)))
      (Mem.remove table (Mem.db (world s)) ++
       [(table, snapRows Mem.env (Mem.scan (Mem.mapSeed (world s)) t))]).
Proof.
  intros Ht Hres.
  assert (Hnew : forall l : list (string * list SnapRow),
            Mem.lookup table (Mem.remove table l ++ [(table, [])]) = Some []).
  { intros l. rewrite Mem_lookup_app_None by apply Mem_lookup_remove.
    cbn [Mem.lookup]. by rewrite decide_True. }
  unfold SaveTable, bind, logPrintf, emit, call.
  change (Prepare Mem.env) with Mem.Prepare. change (Exec Mem.env) with Mem.Exec.
  change (ReadRows Mem.env) with Mem.ReadRows.
  cbn [world trace]. rewrite (Mem_Prepare_drop _ _ Hres).
  cbn [world trace]. rewrite (Mem_Exec_drop _ _ Hres).
  cbn [world trace]. rewrite (Mem_Prepare_create _ _ Hres).
  cbn [world trace]. rewrite (Mem_Exec_create _ _ Hres) by apply Mem_find_remove.
  cbn [world trace Mem.bt Mem.db Mem.clock Mem.mapSeed].
  rewrite (Mem_Prepare_insert table []) by apply Hnew.
  unfold Mem.ReadRows. cbn [world trace Mem.bt Mem.db Mem.clock Mem.mapSeed]. rewrite Ht.
  match goal with |- context [readRows Mem.env table ?rows None 0 ?s'] =>
    destruct (Mem_readRows table rows None 0 s') as (c' & H1 & H2) end.
  { cbn [world Mem.db]. rewrite Mem_lookup_app_None by apply Mem_lookup_remove.
    cbn [Mem.lookup]. rewrite decide_True by done. by eexists. }
  destruct (readRows Mem.env table _ None 0 _) as [r s1]. cbn [fst snd] in *. subst r.
  cbn [fst snd world ret]. split; [done|]. rewrite H2. unfold withRows.
  cbn [world Mem.bt Mem.db Mem.clock Mem.mapSeed]. f_equal.
  rewrite Mem_update_app_None by apply Mem_lookup_remove. cbn [Mem.update].
  by rewrite decide_True.
Qed.

(** ** Saving twice *)

Lemma rotate_Permutation {A} n (l : list A) : rotate n l ≡ₚ l.
Proof.
  unfold rotate. rewrite Permutation_app_comm. by rewrite take_drop.
Qed.

Lemma bind_Permutation_pointwise {A B} (f g : A -> list B) l :
  (forall x, f x ≡ₚ g x) -> l ≫= f ≡ₚ l ≫= g.
Proof.
  intros H. induction l as [|x l IH]; [done|]. rewrite !bind_cons. by rewrite H, IH.
Qed.

Lemma snapRows_fmap E {A} (f : A -> Bigtable.Row) l :
  snapRows E (f <$> l) = l ≫= (fun x => familyRows E (f x)).
Proof.
  induction l as [|x l IH]; [done|].
  rewrite fmap_cons, bind_cons, <-IH. unfold snapRows. by rewrite bind_cons.
Qed.

(** The order that [range] takes over the families of a row changes the
    order of the snapshot rows, not the rows. *)
Lemma snapRows_scan E n n' t :
  snapRows E (Mem.scan n t) ≡ₚ snapRows E (Mem.scan n' t).
Proof.
  unfold Mem.scan. rewrite !snapRows_fmap.
  apply bind_Permutation_pointwise. intros k. unfold Mem.rowOf, familyRows.
  by rewrite !rotate_Permutation.
Qed.

(** C7. In memory, on a remote table that exists and whose name stands
    for itself in a statement and is not one that SQLite keeps for itself
    (it does not start with [sqlite_]).
    [SaveTable] returns nil and leaves in the snapshot table, whatever it
    held before, the snapshot rows of the scan, each with its checksum; run
    again on the unchanged remote table, it leaves the same rows (in the
    order in which the second run visits the families of each row); the
    tables of the snapshot whose names differ from the name of the table
    in more than case are not touched. *)
Theorem C7_save_idempotent table t (s : State Mem.env) :
  Mem.lookup table (Mem.bt (world s)) = Some t ->
  Mem.quotable table = true ->
  Mem.reserved table = false ->
  (SaveTable Mem.env table s).1 = None /\
  (SaveTable Mem.env table (SaveTable Mem.env table s).2).1 = None /\
  Mem.lookup table (Mem.db (world (SaveTable Mem.env table s).2)) =
    Some (snapRows Mem.env (Mem.scan (Mem.mapSeed (world s)) t)) /\
  (exists rows2,
     Mem.lookup table (Mem.db (world (SaveTable Mem.env table (SaveTable Mem.env table s).2).2)) =
       Some rows2 /\
     rows2 ≡ₚ snapRows Mem.env (Mem.scan (Mem.mapSeed (world s)) t)) /\
  Mem.remove table (Mem.db (world (SaveTable Mem.env table s).2)) =
    Mem.remove table (Mem.db (world s)) /\
  Mem.remove table (Mem.db (world (SaveTable Mem.env table (SaveTable Mem.env table s).2).2)) =
    Mem.remove table (Mem.db (world s)).
Proof.
  intros Ht _ Hres.
  destruct (Mem_SaveTable table t s Ht Hres) as [H1 H2].
  set (s1 := (SaveTable Mem.env table s).2) in *.
  assert (Ht1 : Mem.lookup table (Mem.bt (world s1)) = Some t) by (by rewrite H2).
  destruct (Mem_SaveTable table t s1 Ht1 Hres) as [H3 H4].
  set (s2 := (SaveTable Mem.env table s1).2) in *.
  assert (Hrm : forall (l : list (string * list SnapRow)) rows,
            Mem.remove table (Mem.remove table l ++ [(table, rows)]) = Mem.remove table l).
  { intros l rows. rewrite Mem_remove_app, (Mem_remove_None _ (Mem.remove table l)) by apply Mem_find_remove.
    cbn [Mem.remove]. rewrite decide_True by done. apply app_nil_r. }
  split; [done|]. split; [done|].
  split.
  { rewrite H2. cbn [Mem.db]. rewrite Mem_lookup_app_None by apply Mem_lookup_remove.
    cbn [Mem.lookup]. by rewrite decide_True. }
  split.
  { eexists. split.
    - rewrite H4. cbn [Mem.db]. rewrite Mem_lookup_app_None by apply Mem_lookup_remove.
      cbn [Mem.lookup]. by rewrite decide_True.
    - rewrite H2. cbn [Mem.mapSeed]. apply snapRows_scan. }
  split.
  - rewrite H2. cbn [Mem.db]. apply Hrm.
  - rewrite H4. cbn [Mem.db]. rewrite Hrm, H2. cbn [Mem.db]. apply Hrm.
Qed.

Lemma C7_save_idempotent_witness :
  Mem.lookup "t" (Mem.bt (world twoFamiliesState)) = Some twoFamilies /\
  Mem.quotable "t" = true /\
  Mem.reserved "t" = false /\
  (SaveTable Mem.env "t" twoFamiliesState).1 = None /\
  (SaveTable Mem.env "t" (SaveTable Mem.env "t" twoFamiliesState).2).1 = None /\
  Mem.lookup "t" (Mem.db (world (SaveTable Mem.env "t" twoFamiliesState).2)) =
    Some (snapRows Mem.env (Mem.scan 0 twoFamilies)).
Proof.
  split; [reflexivity|]. split; [reflexivity|]. split; [reflexivity|].
  destruct (C7_save_idempotent "t" twoFamilies twoFamiliesState eq_refl eq_refl eq_refl)
    as (H1 & H2 & H3 & _).
  split; [exact H1|]. split; [exact H2|exact H3].
Defined.

(** A remote table whose name starts with [sqlite_] is not saved: SQLite
    keeps such names for itself and refuses to create the table.
    [SaveTable] returns an error, however often it is run, and the
    snapshot has no table for the remote table. *)
Lemma C7_reserved_name_not_saved :
  Mem.lookup "sqlite_foo" (Mem.bt (world reservedState)) = Some twoFamilies /\
  (SaveTable Mem.env "sqlite_foo" reservedState).1 =
    Some (FailedPrepareCreate "object name reserved for internal use") /\
  (SaveTable Mem.env "sqlite_foo" (SaveTable Mem.env "sqlite_foo" reservedState).2).1 =
    Some (FailedPrepareCreate "object name reserved for internal use") /\
  Mem.db (world (SaveTable Mem.env "sqlite_foo"
                   (SaveTable Mem.env "sqlite_foo" reservedState).2).2) = [].
Proof. split; [reflexivity|]. vm_compute. repeat split. Qed.

(** The second run may visit the families in another order: the two
    snapshot tables hold the same rows, in different orders. *)
Example save_twice_order :
  let once := (SaveTable Mem.env "t" twoFamiliesState).2 in
  let twice := (SaveTable Mem.env "t" once).2 in
  column_family <$> default [] (Mem.lookup "t" (Mem.db (world once))) = ["cf1"; "cf2"] /\
  column_family <$> default [] (Mem.lookup "t" (Mem.db (world twice))) = ["cf2"; "cf1"].
Proof. vm_compute. split; reflexivity. Qed.
(** ** Saving, then restoring *)

(** C1 fails on a cell whose timestamp, in nanoseconds, does not fit in
    an int64. [SaveTable] hashes the instant of the timestamp but stores
    [UnixNano], which has wrapped around; [RestoreTable] hashes the instant
    of the stored value, finds another checksum, and gives up on a snapshot
    that nothing has altered: the cell is not restored. *)
Theorem C1_far_timestamp_not_restored :
  (SaveTable Mem.env "t" farState).1 = None /\
  Mem.lookup "t" (Mem.db (world (SaveTable Mem.env "t" farState).2)) =
    Some [mkSnapRow "r" "cf" "c" (bytesOf "v") (-8446744073709551616) 1163234041] /\
  (saveThenRestore "t" farState).1 = Some (IntegrityCheckFailed 1163234041 3402164118) /\
  Mem.lookup "t" (Mem.bt (world (saveThenRestore "t" farState).2)) = Some (Mem.mkTable ["cf"] ∅) /\
  Mem.lookup "t" (Mem.bt (world (saveThenRestore "t" farState).2)) <> Some farTable.
Proof.
  split; [vm_compute; reflexivity|]. split; [vm_compute; reflexivity|].
  split; [vm_compute; reflexivity|].
  assert (H : Mem.lookup "t" (Mem.bt (world (saveThenRestore "t" farState).2)) =
              Some (Mem.mkTable ["cf"] ∅)) by (vm_compute; reflexivity).
  split; [exact H|]. rewrite H. intros [= Heq].
Qed.

(** ** Times and cells *)

Lemma wrap64_small z : - 2 ^ 63 <= z < 2 ^ 63 -> wrap64 z = z.
Proof. intros H. unfold wrap64. rewrite Z.mod_small by lia. lia. Qed.

Ltac pow_consts :=
  change (10 ^ 3) with 1000 in *; change (10 ^ 6) with 1000000 in *;
  change (10 ^ 9) with 1000000000 in *;
  change (2 ^ 63) with 9223372036854775808 in *.

(** For a timestamp from the epoch on, the time of the timestamp and the
    time built from its nanoseconds are the same. *)
Lemma Timestamp_Time_nanos ts :
  0 <= ts -> ts * 1000 < 2 ^ 63 ->
  Bigtable.Timestamp_Time ts = Time.Unix 0 (ts * 1000) /\
  Time.UnixNano (Bigtable.Timestamp_Time ts) = ts * 1000.
Proof.
  intros Hts Hfit.
  pose proof (Z.div_mod ts 1000000 ltac:(lia)) as Hdm.
  pose proof (Z.mod_pos_bound ts 1000000 ltac:(lia)) as Hm.
  assert (Hleft : Bigtable.Timestamp_Time ts = Time.mkTime (ts / 1000000) (ts mod 1000000 * 1000)).
  { unfold Bigtable.Timestamp_Time, Time.Unix. pow_consts.
    rewrite (Z.quot_div_nonneg ts 1000000), (Z.rem_mod_nonneg ts 1000000) by lia.
    destruct (ts mod 1000000 * 1000 <? 0) eqn:H1; [apply Z.ltb_lt in H1; lia|].
    destruct (ts mod 1000000 * 1000 >=? 1000000000) eqn:H2; [apply Z.geb_le in H2; lia|].
    done. }
  split.
  - rewrite Hleft. unfold Time.Unix. pow_consts.
    destruct (ts * 1000 <? 0) eqn:H1; [apply Z.ltb_lt in H1; lia|].
    assert (Hq : ts * 1000 / 1000000000 = ts / 1000000).
    { symmetry. apply (Z.div_unique _ _ _ (ts mod 1000000 * 1000)); lia. }
    destruct (ts * 1000 >=? 1000000000) eqn:H2; cbn [orb].
    + rewrite Z.quot_div_nonneg by lia. rewrite Hq.
      assert (H0 : 0 <= ts / 1000000) by (apply Z.div_pos; lia).
      rewrite (wrap64_small (0 + ts / 1000000)) by (pow_consts; lia).
      destruct (ts * 1000 - ts / 1000000 * 1000000000 <? 0) eqn:H3;
        [apply Z.ltb_lt in H3; lia|].
      f_equal; lia.
    + assert (H3 : ts * 1000 < 1000000000).
      { destruct (Z.geb_spec (ts * 1000) 1000000000); [done|lia]. }
      rewrite Z.div_small in Hq by lia. f_equal; lia.
  - rewrite Hleft. unfold Time.UnixNano. cbn [Time.sec Time.nsec]. pow_consts.
    rewrite wrap64_small; pow_consts; lia.
Qed.

(** The timestamp that [RestoreTable] sets for the nanoseconds of a
    timestamp of a whole number of milliseconds. *)
Lemma restored_timestamp ts :
  0 <= ts -> ts * 1000 < 2 ^ 63 -> ts mod 1000 = 0 ->
  Bigtable.TruncateToMilliseconds (Bigtable.Time (Time.Unix 0 (ts * 1000))) = ts.
Proof.
  intros Hts Hfit Hms.
  destruct (Timestamp_Time_nanos ts Hts Hfit) as [<- Hn].
  unfold Bigtable.Time. rewrite Hn. rewrite Z.quot_mul by lia.
  unfold Bigtable.TruncateToMilliseconds, Bigtable.ServerTime.
  destruct (ts =? -1) eqn:H1; [apply Z.eqb_eq in H1; lia|].
  rewrite Z.rem_mod_nonneg by lia. rewrite Hms, Z.sub_0_r.
  apply wrap64_small. pow_consts. lia.
Qed.

(** The snapshot row of a cell in range: it is verified, and its entry
    sets the cell again. *)
Lemma cellRow_in_range row fam qual ts v :
  0 <= ts -> ts mod 1000 = 0 -> ts * 1000 < 2 ^ 63 ->
  verified Mem.env (cellRow ((row, fam, qual, ts), v)) /\
  entry (cellRow ((row, fam, qual, ts), v)) = (row, [Bigtable.mkSetCell fam qual ts v]).
Proof.
  intros Hts Hms Hfit.
  destruct (Timestamp_Time_nanos ts Hts Hfit) as [Htime Hn].
  unfold cellRow, Mem.family, Mem.toItem. cbn [fst snd].
  split.
  - unfold verified, snapRow.
    cbn [key column_family column value timestamp chk ReadItem.Row ReadItem.Column
         ReadItem.Timestamp ReadItem.Value].
    unfold saveSum, restoreSum.
    cbn [ReadItem.Row ReadItem.Column ReadItem.Timestamp ReadItem.Value].
    by rewrite Hn, Htime.
  - unfold entry, snapRow.
    cbn [key column_family column value timestamp ReadItem.Row ReadItem.Column
         ReadItem.Timestamp ReadItem.Value].
    rewrite Hn, <-append_assoc, TrimPrefix_append.
    unfold Bigtable.Set_, Bigtable.NewMutation. cbn [app].
    by rewrite restored_timestamp.
Qed.

(** The snapshot rows of a scan are the snapshot rows of the cells of the
    table. *)
Lemma elem_of_snapRows_scan seed t r :
  r ∈ snapRows Mem.env (Mem.scan seed t) <->
  exists c, c ∈ map_to_list (Mem.cells t) /\ r = cellRow c.
Proof.
  unfold Mem.scan. rewrite snapRows_fmap, list_elem_of_bind.
  set (cs := map_to_list (Mem.cells t)). split.
  - intros (k & Hr & _). unfold Mem.rowOf, familyRows in Hr.
    apply list_elem_of_bind in Hr as ([f items] & Hr & Hf).
    apply elem_of_rotate, list_elem_of_fmap in Hf as (f' & [= -> ->] & _).
    apply list_elem_of_fmap in Hr as (item & -> & Hitem).
    apply list_elem_of_fmap in Hitem as (c & -> & Hc).
    apply list_elem_of_filter in Hc as [Hfam Hc]. apply list_elem_of_filter in Hc as [_ Hc].
    exists c. split; [done|]. unfold cellRow. by rewrite Hfam.
  - intros (c & Hc & ->). exists (Mem.rowKey c). split.
    + unfold Mem.rowOf, familyRows. apply list_elem_of_bind.
      exists (Mem.family c,
              Mem.toItem <$> filter (fun c' => Mem.family c' = Mem.family c)
                               (filter (fun c' => Mem.rowKey c' = Mem.rowKey c) cs)).
      split.
      * apply list_elem_of_fmap. exists (Mem.toItem c). split; [done|].
        apply list_elem_of_fmap. exists c. split; [done|].
        apply list_elem_of_filter. split; [done|]. by apply list_elem_of_filter.
      * apply elem_of_rotate, list_elem_of_fmap. exists (Mem.family c). split; [done|].
        apply elem_of_remove_dups, list_elem_of_fmap. exists c. split; [done|].
        by apply list_elem_of_filter.
    + unfold Sort.Strings. rewrite merge_sort_Permutation.
      apply elem_of_remove_dups, list_elem_of_fmap. by exists c.
Qed.

(** ** Restoring in memory *)

Lemma applyAll_app now es1 es2 cs :
  applyAll now (es1 ++ es2) cs = applyAll now es2 (applyAll now es1 cs).
Proof. unfold applyAll. apply foldl_app. Qed.

(** Applying the entries of snapshot rows that come from the cells of a
    table only sets cells of the table, and sets each cell whose snapshot
    row is there. *)
Lemma applyAll_sub now t R : forall m,
  inRange t ->
  (forall r, r ∈ R -> exists c, c ∈ map_to_list (Mem.cells t) /\ r = cellRow c) ->
  m ⊆ Mem.cells t ->
  applyAll now (entry <$> R) m ⊆ Mem.cells t /\
  (forall c, c ∈ map_to_list (Mem.cells t) ->
     cellRow c ∈ R \/ m !! c.1 = Some c.2 ->
     applyAll now (entry <$> R) m !! c.1 = Some c.2).
Proof.
  induction R as [|r R IH]; intros m Hrange HR Hm.
  - split; [done|]. intros c Hc [Hin|Hl]; [by apply elem_of_nil in Hin|done].
  - destruct (HR r) as ([[[[row fam] qual] ts] v] & Hc0 & ->); [by left|].
    apply elem_of_map_to_list in Hc0.
    destruct (Hrange _ _ _ _ _ Hc0) as (_ & Hts & Hms & Hfit).
    destruct (cellRow_in_range row fam qual ts v Hts Hms Hfit) as [_ He].
    match goal with |- context [cellRow ?c :: R] =>
      assert (He2 : entry (cellRow c) = (row, [Bigtable.mkSetCell fam qual ts v])) by exact He
    end.
    clear He. rename He2 into He. rewrite fmap_cons, He.
    change (applyAll now ((row, [Bigtable.mkSetCell fam qual ts v]) :: (entry <$> R)) m)
      with (applyAll now (entry <$> R) (Mem.setCell now row m (Bigtable.mkSetCell fam qual ts v))).
    assert (Hset : Mem.setCell now row m (Bigtable.mkSetCell fam qual ts v) =
                   <[(row, fam, qual, ts) := v]> m).
    { unfold Mem.setCell, Bigtable.ServerTime. cbn [Bigtable.TimestampMicros Bigtable.FamilyName
        Bigtable.ColumnQualifier Bigtable.CellValue].
      destruct (ts =? -1) eqn:H1; [apply Z.eqb_eq in H1; lia|done]. }
    rewrite Hset.
    destruct (IH (<[(row, fam, qual, ts) := v]> m) Hrange) as [IH1 IH2].
    { intros r Hr. apply HR. by right. }
    { by apply insert_subseteq_l. }
    split; [done|]. intros c Hc Hor. apply IH2; [done|].
    destruct c as [id w]. cbn [fst snd] in *.
    apply elem_of_map_to_list in Hc.
    destruct (decide (id = (row, fam, qual, ts))) as [->|Hne].
    + right. rewrite lookup_insert_eq. congruence.
    + rewrite lookup_insert_ne by done.
      destruct Hor as [Hin|Hl]; [|by right].
      apply elem_of_cons in Hin as [Heq|Hin]; [|by left].
      exfalso. apply (f_equal entry) in Heq. rewrite He in Heq.
      destruct id as [[[row' fam'] qual'] ts'].
      destruct (Hrange _ _ _ _ _ Hc) as (_ & Hts' & Hms' & Hfit').
      destruct (cellRow_in_range row' fam' qual' ts' w Hts' Hms' Hfit') as [_ He'].
      match type of Heq with entry (cellRow ?c) = _ =>
        assert (He2 : entry (cellRow c) = (row', [Bigtable.mkSetCell fam' qual' ts' w]))
          by exact He'
      end.
      rewrite He2 in Heq. congruence.
Qed.

(** Applying, to an empty table, the entries of the snapshot rows of the
    cells of a table in range gives the cells back. *)
Lemma applyAll_restores now t R :
  inRange t ->
  (forall r, r ∈ R <-> exists c, c ∈ map_to_list (Mem.cells t) /\ r = cellRow c) ->
  applyAll now (entry <$> R) ∅ = Mem.cells t.
Proof.
  intros Hrange HR.
  destruct (applyAll_sub now t R ∅ Hrange) as [H1 H2].
  { intros r Hr. by apply HR. }
  { apply map_empty_subseteq. }
  apply map_eq. intros id.
  destruct (Mem.cells t !! id) as [v|] eqn:Hid.
  - apply (H2 (id, v)); [by apply elem_of_map_to_list|].
    left. apply HR. exists (id, v). split; [by apply elem_of_map_to_list|done].
  - destruct (applyAll now (entry <$> R) ∅ !! id) as [v|] eqn:Hl; [|done].
    rewrite map_subseteq_spec in H1. apply H1 in Hl. congruence.
Qed.

(** The entries of a bulk write whose families the table has are all
    applied. *)
Lemma Mem_applyEntries now entries : forall t,
  Forall (fun e => Mem.knownFamilies t e.2 = true) entries ->
  Mem.applyEntries now entries t =
    (replicate (length entries) None,
     Mem.mkTable (Mem.families t) (applyAll now entries (Mem.cells t))).
Proof.
  induction entries as [|[key m] entries IH]; intros t Hk.
  - by destruct t.
  - apply Forall_cons in Hk as [Hm Hk]. cbn [fst snd] in Hm.
    cbn [Mem.applyEntries]. rewrite Hm.
    rewrite (IH (Mem.mkTable (Mem.families t) (foldl (Mem.setCell now key) (Mem.cells t) m))) by done.
    done.
Qed.

Lemma forallb_replicate_None n :
  forallb (fun e : option string => bool_decide (e = None)) (replicate n None) = true.
Proof. induction n as [|n IH]; [done|]. cbn [replicate forallb]. by rewrite IH. Qed.

(** In memory, a bulk write on a table that exists, with families that
    the table has, is accepted and applies its entries. *)
Lemma Mem_ApplyBulk table pend w t :
  Mem.lookup table (Mem.bt w) = Some t ->
  Forall (fun e => Mem.knownFamilies t e.2 = true) pend ->
  Mem.ApplyBulk table pend.*1 pend.*2 w =
    (([], None),
     Mem.mkWorld
       (Mem.update table
          (fun _ => Mem.mkTable (Mem.families t) (applyAll (Mem.clock w) pend (Mem.cells t)))
          (Mem.bt w))
       (Mem.clock w) (Mem.mapSeed w) (Mem.db w)).
Proof.
  intros Ht Hk. unfold Mem.ApplyBulk.
  rewrite !length_fmap, Nat.eqb_refl. cbn [negb]. rewrite Ht, zip_fst_snd.
  rewrite Mem_applyEntries by done. by rewrite forallb_replicate_None.
Qed.

Lemma Mem_restoreRows table rows : forall c pend (s : State Mem.env) t0,
  Mem.lookup table (Mem.bt (world s)) = Some t0 ->
  Forall (verified Mem.env) rows ->
  Forall (fun r => Mem.knownFamilies t0 (entry r).2 = true) rows ->
  Forall (fun e => Mem.knownFamilies t0 e.2 = true) pend ->
  (length pend < 100)%nat ->
  exists flushed p,
    (restoreRows Mem.env table (ok <$> rows) c pend.*1 pend.*2 s).1 =
      inr (c + Z.of_nat (length rows), p.*1, p.*2) /\
    flushed ++ p = pend ++ (entry <$> rows) /\
    Forall (fun e => Mem.knownFamilies t0 e.2 = true) p /\
    Mem.lookup table (Mem.bt (world (restoreRows Mem.env table (ok <$> rows) c pend.*1 pend.*2 s).2)) =
      Some (Mem.mkTable (Mem.families t0)
              (applyAll (Mem.clock (world s)) flushed (Mem.cells t0))) /\
    Mem.clock (world (restoreRows Mem.env table (ok <$> rows) c pend.*1 pend.*2 s).2) =
      Mem.clock (world s).
Proof.
  induction rows as [|r rows IH]; intros c pend s t0 Ht Hv Hkr Hkp Hlen.
  - exists [], pend. cbn [fmap list_fmap restoreRows ret fst snd length].
    rewrite Z.add_0_r, app_nil_r. repeat split; try done. by destruct t0.
  - apply Forall_cons in Hv as [Hr Hv]. apply Forall_cons in Hkr as [Hkr0 Hkr].
    set (e := entry r).
    assert (Hkp' : Forall (fun e => Mem.knownFamilies t0 e.2 = true) (pend ++ [e])).
    { apply Forall_app. split; [done|]. by apply Forall_singleton. }
    assert (Hall : pend ++ (entry <$> r :: rows) = (pend ++ [e]) ++ (entry <$> rows)).
    { rewrite <-app_assoc. done. }
    set (t1 := Mem.mkTable (Mem.families t0)
                 (applyAll (Mem.clock (world s)) (pend ++ [e]) (Mem.cells t0))).
    set (s1 := mkState (E := Mem.env)
                 (Mem.mkWorld (Mem.update table (fun _ => t1) (Mem.bt (world s)))
                    (Mem.clock (world s)) (Mem.mapSeed (world s)) (Mem.db (world s)))
                 (trace s ++ [EvApplyBulk table (pend ++ [e]).*1 (pend ++ [e]).*2 [] None])).
    assert (Hrun : restoreRows Mem.env table (ok <$> r :: rows) c pend.*1 pend.*2 s =
      if (length (pend ++ [e]) =? 100)%nat
      then restoreRows Mem.env table (ok <$> rows) (c + 1) [] [] s1
      else restoreRows Mem.env table (ok <$> rows) (c + 1) (pend ++ [e]).*1 (pend ++ [e]).*2 s).
    { subst e t1 s1. destruct r as [k cf col v ts ch]. unfold verified in Hr. simpl in Hr.
      rewrite (fmap_cons ok). cbn [restoreRows].
      rewrite <-Hr, Z.eqb_refl. cbn [negb].
      rewrite !fmap_app, !length_app, !length_fmap. cbn [fmap list_fmap fst snd entry length].
      destruct (length pend + 1 =? 100)%nat; [|done].
      unfold applyBulk, callApplyBulk, bind.
      change (ApplyBulk Mem.env) with Mem.ApplyBulk.
      change (pend.*1 ++ [k]) with (pend.*1 ++ [(k, Bigtable.Set_ Bigtable.NewMutation cf col
        (Bigtable.Time (Time.Unix 0 ts)) v)].*1).
      change (pend.*2 ++ [Bigtable.Set_ Bigtable.NewMutation cf col
        (Bigtable.Time (Time.Unix 0 ts)) v]) with (pend.*2 ++ [(k, Bigtable.Set_ Bigtable.NewMutation cf col
        (Bigtable.Time (Time.Unix 0 ts)) v)].*2).
      rewrite <-!fmap_app.
      rewrite (Mem_ApplyBulk table (pend ++ [(k, Bigtable.Set_ Bigtable.NewMutation cf col
        (Bigtable.Time (Time.Unix 0 ts)) v)]) (world s) t0 Ht Hkp'). cbn [filterErrors ret]. by rewrite !fmap_app. }
    rewrite Hrun. clear Hrun.
    destruct (length (pend ++ [e]) =? 100)%nat eqn:Hl.
    + destruct (IH (c + 1) [] s1 t1) as (flushed & p & H1 & H2 & H3 & H4 & H5).
      { unfold s1. cbn [world Mem.bt]. rewrite Mem_lookup_update, Ht. done. }
      { done. } { exact Hkr. } { done. } { simpl. lia. }
      change ((@nil (string * Bigtable.Mutation)).*1) with (@nil string) in *.
      change ((@nil (string * Bigtable.Mutation)).*2) with (@nil Bigtable.Mutation) in *.
      exists ((pend ++ [e]) ++ flushed), p.
      split; [rewrite H1, length_cons; do 3 f_equal; lia|].
      split; [rewrite <-app_assoc, H2, Hall; done|].
      split; [exact H3|].
      split.
      { rewrite H4; unfold s1, t1; cbn [world Mem.clock Mem.families Mem.cells].
        by rewrite (applyAll_app _ (pend ++ [e]) flushed). }
      rewrite H5. done.
    + destruct (IH (c + 1) (pend ++ [e]) s t0 Ht Hv Hkr Hkp')
        as (flushed & p & H1 & H2 & H3 & H4 & H5).
      { apply Nat.eqb_neq in Hl. rewrite length_app in *. simpl in *. lia. }
      exists flushed, p. split; [rewrite H1, length_cons; do 3 f_equal; lia|].
      split; [by rewrite H2, Hall|]. done.
Qed.

(** ** Saving, then restoring, in range *)

Lemma lookup_emptied table w :
  Mem.lookup table (Mem.bt (emptied w)) =
    (fun t => Mem.mkTable (Mem.families t) ∅) <$> Mem.lookup table (Mem.bt w).
Proof.
  unfold emptied. cbn [Mem.bt]. induction (Mem.bt w) as [|[n a] l IH]; [done|].
  rewrite fmap_cons. cbn [Mem.lookup fst snd]. by destruct (decide (n = table)).
Qed.

(** The snapshot rows of a table in range are verified, and their
    entries name families of the table. *)
Lemma snapRows_in_range seed t :
  inRange t ->
  Forall (verified Mem.env) (snapRows Mem.env (Mem.scan seed t)) /\
  Forall (fun r => Mem.knownFamilies (Mem.mkTable (Mem.families t) ∅) (entry r).2 = true)
    (snapRows Mem.env (Mem.scan seed t)).
Proof.
  intros Hrange. split; apply Forall_forall; intros r Hr;
    apply elem_of_snapRows_scan in Hr as ([[[[row fam] qual] ts] v] & Hc & ->);
    apply elem_of_map_to_list in Hc;
    destruct (Hrange _ _ _ _ _ Hc) as (Hfam & Hts & Hms & Hfit);
    destruct (cellRow_in_range row fam qual ts v Hts Hms Hfit) as [Hv He].
  - exact Hv.
  - match goal with |- context [entry ?r] =>
      assert (He2 : entry r = (row, [Bigtable.mkSetCell fam qual ts v])) by exact He end.
    rewrite He2. unfold Mem.knownFamilies.
    cbn [snd forallb Mem.families Bigtable.FamilyName].
    by rewrite bool_decide_eq_true_2.
Qed.

(** Round trip, in memory: a table in range, of a name that is not
    reserved, that is saved, then restored from the snapshot into the
    emptied store, is there again as it was. *)
Lemma roundtrip_in_range table t (s : State Mem.env) :
  Mem.lookup table (Mem.bt (world s)) = Some t ->
  Mem.reserved table = false ->
  inRange t ->
  (saveThenRestore table s).1 = None /\
  Mem.lookup table (Mem.bt (world (saveThenRestore table s).2)) = Some t.
Proof.
  intros Ht Hres Hrange. unfold saveThenRestore.
  destruct (Mem_SaveTable table t s Ht Hres) as [_ Hw].
  set (saved := (SaveTable Mem.env table s).2) in *.
  set (rows := snapRows Mem.env (Mem.scan (Mem.mapSeed (world s)) t)) in *.
  set (t0 := Mem.mkTable (Mem.families t) ∅).
  set (s0 := mkState (E := Mem.env) (emptied (world saved)) (trace saved)).
  assert (Hq : QueryRows Mem.env table (world s0) = (ok (ok <$> rows), world s0)).
  { unfold s0. cbn [world]. change (QueryRows Mem.env) with Mem.QueryRows.
    apply Mem_QueryRows. rewrite Hw. cbn [emptied Mem.db].
    rewrite Mem_lookup_app_None by apply Mem_lookup_remove.
    cbn [Mem.lookup]. by rewrite decide_True. }
  rewrite (RestoreTable_rows Mem.env table s0 _ _ Hq).
  set (s1 := mkState (E := Mem.env) (world s0)
               ((trace s0 ++ [EvLog (Restoring table)]) ++ [EvQueryRows table])).
  assert (Ht0 : Mem.lookup table (Mem.bt (world s1)) = Some t0).
  { unfold s1, s0. cbn [world]. rewrite lookup_emptied, Hw. cbn [Mem.bt]. by rewrite Ht. }
  destruct (snapRows_in_range (Mem.mapSeed (world s)) t Hrange) as [Hv Hk].
  fold rows in Hv, Hk.
  destruct (Mem_restoreRows table rows 0 [] s1 t0 Ht0 Hv Hk) as
    (flushed & p & H1 & H2 & H3 & H4 & H5); [done|simpl; lia|].
  change ((@nil (string * Bigtable.Mutation)).*1) with (@nil string) in *.
  change ((@nil (string * Bigtable.Mutation)).*2) with (@nil Bigtable.Mutation) in *.
  destruct (restoreRows Mem.env table (ok <$> rows) 0 [] [] s1) as [r s2].
  cbn [fst snd] in *. subst r. rewrite app_nil_l in H2.
  assert (Hall : applyAll (Mem.clock (world s1)) (flushed ++ p) ∅ = Mem.cells t).
  { rewrite H2. apply applyAll_restores; [done|]. intros r. apply elem_of_snapRows_scan. }
  unfold t0 in H4. cbn [Mem.families Mem.cells] in H4.
  destruct (0 <? length p.*2)%nat eqn:Hp.
  - unfold applyBulk, callApplyBulk, bind. change (ApplyBulk Mem.env) with Mem.ApplyBulk.
    rewrite (Mem_ApplyBulk table p (world s2) _ H4 H3). cbn [filterErrors ret fst snd world].
    split; [done|]. cbn [Mem.bt Mem.families Mem.cells].
    rewrite Mem_lookup_update, H4. cbn [fmap option_fmap option_map].
    rewrite H5, <-applyAll_app, Hall. by destruct t.
  - cbn [fst snd world]. split; [done|].
    assert (p = []) as ->.
    { apply Nat.ltb_ge in Hp. rewrite length_fmap in Hp. destruct p; [done|simpl in Hp; lia]. }
    rewrite app_nil_r in Hall. rewrite H4, Hall. by destruct t.
Qed.

Lemma zeroTable_inRange : inRange zeroTable.
Proof.
  intros row fam qual ts v H. unfold zeroTable in H. cbn [Mem.cells Mem.families] in *.
  apply lookup_insert_Some in H as [[[= <- <- <- <-] <-]|[_ H]].
  { split; [set_solver|]. split; [lia|]. split; [reflexivity|]. pow_consts. lia. }
  apply lookup_insert_Some in H as [[[= <- <- <- <-] <-]|[_ H]].
  { split; [set_solver|]. split; [lia|]. split; [reflexivity|]. pow_consts. lia. }
  apply lookup_singleton_Some in H as [[= <- <- <- <-] <-].
  split; [set_solver|]. split; [lia|]. split; [reflexivity|]. pow_consts. lia.
Qed.

(** The round trip of a table with a value that holds zero bytes, an
    empty value and a row key with a percent sign. *)
Example roundtrip_zero_bytes :
  (saveThenRestore "t" zeroState).1 = None /\
  Mem.lookup "t" (Mem.bt (world (saveThenRestore "t" zeroState).2)) = Some zeroTable.
Proof. apply roundtrip_in_range; [reflexivity|reflexivity|apply zeroTable_inRange]. Qed.

(** ** The sizes of the bulk writes *)

Section BulkSizes.
Context (E : Env).

(** [RestoreTable] from the result of its loop: the events and the
    result of the whole call. *)
Lemma RestoreTable_events table s rows w evs :
  QueryRows E table (world s) = (ok rows, w) ->
  let s0 := mkState w ((trace s ++ [EvLog (Restoring table)]) ++ [EvQueryRows table]) in
  trace (restoreRows E table rows 0 [] [] s0).2 = trace s0 ++ evs ->
  match (restoreRows E table rows 0 [] [] s0).1 with
  | inl e =>
      (RestoreTable E table s).1 = Some e /\
      events (RestoreTable E table) s = [EvLog (Restoring table); EvQueryRows table] ++ evs
  | inr (c, keys, muts) =>
      if (0 <? length muts)%nat then
        exists errs err,
          (RestoreTable E table s).1 = verdict errs err /\
          events (RestoreTable E table) s =
            [EvLog (Restoring table); EvQueryRows table] ++ evs ++
            EvApplyBulk table keys muts errs err ::
            match verdict errs err with Some _ => [] | None => [EvLog (Restored c table)] end
      else
        (RestoreTable E table s).1 = None /\
        events (RestoreTable E table) s =
          [EvLog (Restoring table); EvQueryRows table] ++ evs ++ [EvLog (Restored c table)]
  end.
Proof.
  intros HQ s0 Htr. pose proof (RestoreTable_rows E _ _ _ _ HQ) as HR. fold s0 in HR.
  destruct (restoreRows E table rows 0 [] [] s0) as [[e|[[c keys] muts]] s1]; cbn [fst snd] in *.
  - split; [by rewrite HR|]. apply events_spec. rewrite HR. cbn [snd]. rewrite Htr.
    unfold s0. cbn [trace]. by rewrite <-!app_assoc.
  - destruct (0 <? length muts)%nat.
    + destruct (applyBulk_spec E table keys muts s1) as (errs & err & w2 & _ & Hab).
      rewrite Hab in HR. exists errs, err.
      destruct (verdict errs err) as [e|].
      * split; [by rewrite HR|]. apply events_spec. rewrite HR. cbn [snd trace].
        rewrite Htr. unfold s0. cbn [trace]. by rewrite <-!app_assoc.
      * split; [by rewrite HR|]. apply events_spec. rewrite HR. cbn [snd trace].
        rewrite Htr. unfold s0. cbn [trace]. by rewrite <-!app_assoc.
    + split; [by rewrite HR|]. apply events_spec. rewrite HR. cbn [snd trace].
      rewrite Htr. unfold s0. cbn [trace]. by rewrite <-!app_assoc.
Qed.

(** [RestoreTable] when the query fails. *)
Lemma RestoreTable_no_rows table s err w :
  QueryRows E table (world s) = (fail err, w) ->
  (RestoreTable E table s).1 = Some (FailedQueryContents err) /\
  events (RestoreTable E table) s = [EvLog (Restoring table); EvQueryRows table].
Proof.
  intros HQ. unfold events, RestoreTable, bind, logPrintf, emit, call, ret. cbn [world trace].
  rewrite HQ. cbn [fst snd trace]. split; [done|].
  by rewrite <-app_assoc, drop_app_length.
Qed.

(** The loop, on any rows, from a pending batch shorter than 100 with as
    many keys as mutations: every bulk write it issues has 100 keys and
    100 mutations, and the batch it leaves is again shorter than 100. *)
Lemma restoreRows_sizes table rows : forall c keys muts s,
  length keys = length muts -> (length muts < 100)%nat ->
  exists evs,
    trace (restoreRows E table rows c keys muts s).2 = trace s ++ evs /\
    Forall isBulk evs /\
    Forall (fullBulk table) (bulkCalls evs) /\
    match (restoreRows E table rows c keys muts s).1 with
    | inr (_, keys', muts') => length keys' = length muts' /\ (length muts' < 100)%nat
    | inl _ => True
    end.
Proof.
  induction rows as [|r rows IH]; intros c keys muts s Hkm Hlt.
  - exists []. simpl. rewrite app_nil_r. done.
  - destruct r as [[k cf col v ts ch]|err].
    2:{ exists []. simpl. rewrite app_nil_r. done. }
    cbn [restoreRows].
    destruct (negb (ch =? restoreSum E k cf col v ts)).
    { exists []. simpl. rewrite app_nil_r. done. }
    set (m := Bigtable.Set_ Bigtable.NewMutation cf col (Bigtable.Time (Time.Unix 0 ts)) v).
    destruct (length (muts ++ [m]) =? 100)%nat eqn:Hlen.
    + apply Nat.eqb_eq in Hlen. unfold bind.
      destruct (applyBulk_spec E table (keys ++ [k]) (muts ++ [m]) s)
        as (errs & err & w & _ & Hab).
      rewrite Hab. clear Hab.
      assert (Hfull : fullBulk table (table, keys ++ [k], muts ++ [m])).
      { split; [done|]. split; [|done]. cbn [fst snd]. rewrite !length_app in *. simpl in *. lia. }
      destruct (verdict errs err) as [e|].
      * exists [EvApplyBulk table (keys ++ [k]) (muts ++ [m]) errs err].
        split; [done|]. split; [by repeat constructor|].
        split; [|done]. rewrite bulkCalls_bulk. apply Forall_cons. split; [exact Hfull|apply Forall_nil_2].
      * match goal with |- context [restoreRows E table rows ?c' [] [] ?s'] =>
          destruct (IH c' [] [] s') as (evs & Htr & Hb & Hf & Hres) end; [done|simpl; lia|].
        cbn [trace] in Htr.
        exists (EvApplyBulk table (keys ++ [k]) (muts ++ [m]) errs err :: evs).
        split; [rewrite Htr; by rewrite <-app_assoc|].
        split; [by constructor|]. split; [|done].
        rewrite bulkCalls_bulk. by constructor.
    + apply Nat.eqb_neq in Hlen. apply IH.
      * rewrite !length_app. simpl. lia.
      * rewrite length_app in *. simpl in *. lia.
Qed.

(** X1. Whatever the snapshot holds and whatever the store answers, the
    bulk writes of [RestoreTable] are all on its table, with as many keys
    as mutations: writes of exactly 100 entries, followed by at most one
    write of 1 to 99 entries. No write is empty or larger than 100. *)
Theorem bulk_writes_sized table s :
  exists full rest,
    bulkCalls (events (RestoreTable E table) s) = full ++ rest /\
    Forall (fullBulk table) full /\
    (rest = [] \/ exists b, rest = [b] /\ lastBulk table b).
Proof.
  destruct (QueryRows E table (world s)) as [[rows|err] w] eqn:HQ.
  2:{ destruct (RestoreTable_no_rows table s err w HQ) as [_ Hev].
      exists [], []. rewrite Hev. split; [done|]. split; [done|]. by left. }
  set (s0 := mkState w ((trace s ++ [EvLog (Restoring table)]) ++ [EvQueryRows table])).
  destruct (restoreRows_sizes table rows 0 [] [] s0) as (evs & Htr & _ & Hf & Hres);
    [done|simpl; lia|].
  pose proof (RestoreTable_events table s rows w evs HQ Htr) as HR. fold s0 in HR.
  destruct (restoreRows E table rows 0 [] [] s0).1 as [e|[[c keys] muts]].
  - destruct HR as [_ Hev]. exists (bulkCalls evs), []. rewrite Hev.
    rewrite bulkCalls_app, app_nil_r. split; [done|]. split; [done|]. by left.
  - destruct Hres as [Hkm Hlt]. destruct (0 <? length muts)%nat eqn:Hpos.
    + destruct HR as (errs & err & _ & Hev). apply Nat.ltb_lt in Hpos.
      exists (bulkCalls evs), [(table, keys, muts)]. rewrite Hev.
      split.
      { rewrite !bulkCalls_app, bulkCalls_bulk. cbn [bulkCalls omap app].
        by destruct (verdict errs err). }
      split; [done|]. right. eexists. split; [done|]. split; [done|]. split; [done|]. simpl. lia.
    + destruct HR as [_ Hev]. exists (bulkCalls evs), []. rewrite Hev.
      rewrite !bulkCalls_app, app_nil_r. cbn [bulkCalls omap app]. rewrite app_nil_r.
      split; [done|]. split; [done|]. by left.
Qed.

End BulkSizes.

(** ** Rows written once, in whole batches *)

Section Batches.
Context (E : Env).

(** The loop returns without an error only when every row was scanned
    and verified. *)
Lemma restoreRows_inr table rows : forall c keys muts s x,
  (restoreRows E table rows c keys muts s).1 = inr x ->
  exists rs, rows = ok <$> rs /\ Forall (verified E) rs.
Proof.
  induction rows as [|r rows IH]; intros c keys muts s x Hx.
  - by exists [].
  - destruct r as [[k cf col v ts ch]|err]; [|done].
    cbn [restoreRows] in Hx.
    destruct (ch =? restoreSum E k cf col v ts) eqn:Hch; [|done]. cbn [negb] in Hx.
    apply Z.eqb_eq in Hch.
    assert (Hrest : exists rs, rows = ok <$> rs /\ Forall (verified E) rs).
    { destruct (length (muts ++ _) =? 100)%nat; [|by eapply IH].
      unfold bind in Hx. destruct (applyBulk E table _ _ s) as [[e|] s1]; [done|]. by eapply IH. }
    destruct Hrest as (rs & -> & Hv). exists (mkSnapRow k cf col v ts ch :: rs).
    split; [done|]. by constructor.
Qed.

(** The loop on verified rows, from a pending batch [pend] shorter than
    100. Without an error: the batches [B] it wrote, each of 100 entries,
    and the batch [p] it leaves are, end to end, the pending entries and
    the entries of the rows. With an error: the last event is a bulk
    write that the store refused. *)
Lemma restoreRows_batches table rows : forall c pend s,
  Forall (verified E) rows -> (length pend < 100)%nat ->
  exists evs B,
    trace (restoreRows E table (ok <$> rows) c pend.*1 pend.*2 s).2 = trace s ++ evs /\
    Forall isBulk evs /\
    bulkCalls evs = bulkOf table <$> B /\
    Forall (fun b => length b = 100%nat) B /\
    match (restoreRows E table (ok <$> rows) c pend.*1 pend.*2 s).1 with
    | inr (c', keys, muts) =>
        exists p, pend ++ (entry <$> rows) = concat B ++ p /\
          (length p < 100)%nat /\ keys = p.*1 /\ muts = p.*2 /\
          c' = c + Z.of_nat (length rows) /\ Forall accepted evs
    | inl e =>
        concat B `prefix_of` pend ++ (entry <$> rows) /\
        exists evs0 t k m errs err,
          evs = evs0 ++ [EvApplyBulk t k m errs err] /\ Forall accepted evs0 /\
          verdict errs err = Some e
    end.
Proof.
  induction rows as [|r rows IH]; intros c pend s Hv Hp.
  - exists [], []. simpl. rewrite app_nil_r. split; [done|]. split; [done|].
    split; [done|]. split; [done|].
    exists pend. rewrite app_nil_r. repeat split; try done; lia.
  - apply Forall_cons in Hv as [Hr Hv].
    destruct r as [k cf col v ts ch]. unfold verified in Hr. simpl in Hr.
    set (e := Bigtable.Set_ Bigtable.NewMutation cf col (Bigtable.Time (Time.Unix 0 ts)) v).
    assert (Hk : pend.*1 ++ [k] = (pend ++ [(k, e)]).*1) by (by rewrite fmap_app).
    assert (Hm : pend.*2 ++ [e] = (pend ++ [(k, e)]).*2) by (by rewrite fmap_app).
    assert (Hall : pend ++ (entry <$> mkSnapRow k cf col v ts ch :: rows)
                   = (pend ++ [(k, e)]) ++ (entry <$> rows)).
    { rewrite <-app_assoc. done. }
    rewrite Hall. clear Hall.
    rewrite (fmap_cons ok). cbn [restoreRows].
    rewrite Hr, Z.eqb_refl. cbn [negb]. fold e.
    rewrite Hk, Hm, length_fmap.
    destruct (length (pend ++ [(k, e)]) =? 100)%nat eqn:Hlen.
    + apply Nat.eqb_eq in Hlen. unfold bind.
      destruct (applyBulk_spec E table (pend ++ [(k, e)]).*1 (pend ++ [(k, e)]).*2 s)
        as (errs & err & w & _ & Hab).
      rewrite Hab. clear Hab.
      set (ev := EvApplyBulk table (pend ++ [(k, e)]).*1 (pend ++ [(k, e)]).*2 errs err).
      destruct (verdict errs err) as [e0|] eqn:Hverd.
      * exists [ev], [pend ++ [(k, e)]]. cbn [fst snd trace].
        split; [done|]. split; [by repeat constructor|]. split; [done|].
        split; [by repeat constructor|]. split.
        { cbn [concat]. rewrite app_nil_r. by apply prefix_app_r. }
        by exists [], table, (pend ++ [(k, e)]).*1, (pend ++ [(k, e)]).*2, errs, err.
      * destruct (IH (c + 1) [] (mkState w (trace s ++ [ev])) Hv)
          as (evs & B & Htr & Hb & Hcalls & HB & Hres); [simpl; lia|].
        change ((@nil (string * Bigtable.Mutation)).*1) with (@nil string) in *.
        change ((@nil (string * Bigtable.Mutation)).*2) with (@nil Bigtable.Mutation) in *.
        rewrite app_nil_l in Hres. cbn [fst snd] in *. cbv beta iota.
        exists (ev :: evs), ((pend ++ [(k, e)]) :: B).
        split; [rewrite Htr; cbn [trace]; by rewrite <-app_assoc|].
        split; [by constructor|].
        split; [unfold ev; by rewrite bulkCalls_bulk, fmap_cons, Hcalls|].
        split; [by constructor|].
        destruct (restoreRows E table (ok <$> rows) (c + 1) [] [] _).1 as [e1|[[c' keys] muts]].
        -- destruct Hres as (Hpre & evs0 & t & k0 & m & errs0 & err0 & -> & Hacc & Hv0).
           split; [cbn [concat]; by apply prefix_app|].
           exists (ev :: evs0), t, k0, m, errs0, err0. repeat split; try done.
           by constructor.
        -- destruct Hres as (p & Heq & Hlp & -> & -> & -> & Hacc).
           exists p. rewrite Heq. cbn [concat].
           repeat split; try done; [by rewrite app_assoc|rewrite length_cons; lia|by constructor].
    + apply Nat.eqb_neq in Hlen.
      destruct (IH (c + 1) (pend ++ [(k, e)]) s Hv) as (evs & B & Htr & Hb & Hcalls & HB & Hres).
      { rewrite length_app in *. simpl in *. lia. }
      exists evs, B. do 4 (split; [done|]).
      destruct (restoreRows E table (ok <$> rows) (c + 1) _ _ s).1 as [e1|[[c' keys] muts]]; [done|].
      destruct Hres as (p & Heq & Hlp & -> & -> & -> & Hacc).
      exists p. repeat split; try done. rewrite length_cons. lia.
Qed.

End Batches.

Section WrittenOnce.
Context (E : Env).

Lemma entriesOf_bulkOf table (B : list (list (string * Bigtable.Mutation))) :
  concat (entriesOf <$> (bulkOf table <$> B)) = concat B.
Proof.
  induction B as [|b B IH]; [done|]. rewrite !fmap_cons. cbn [concat]. rewrite IH.
  f_equal. unfold entriesOf, bulkOf. cbn [fst snd]. apply zip_fst_snd.
Qed.

(** X2. When [RestoreTable] returns nil, every row of the snapshot table
    was scanned and verified, the store accepted every bulk write, the
    entries written are the entries of the rows, each once and in the
    order of the rows, and the last thing the call did was to log their
    number. *)
Theorem restored_rows_written_once table s rows :
  (QueryRows E table (world s)).1 = ok rows ->
  (RestoreTable E table s).1 = None ->
  exists rs,
    rows = ok <$> rs /\ Forall (verified E) rs /\
    Forall accepted (events (RestoreTable E table) s) /\
    concat (entriesOf <$> bulkCalls (events (RestoreTable E table) s)) = entry <$> rs /\
    last (events (RestoreTable E table) s) = Some (EvLog (Restored (Z.of_nat (length rs)) table)).
Proof.
  intros Hq Hnil.
  destruct (QueryRows E table (world s)) as [q w] eqn:HQ. simpl in Hq. subst q.
  set (s0 := mkState w ((trace s ++ [EvLog (Restoring table)]) ++ [EvQueryRows table])).
  assert (Hinr : exists x, (restoreRows E table rows 0 [] [] s0).1 = inr x).
  { pose proof (RestoreTable_rows E _ _ _ _ HQ) as HR. fold s0 in HR.
    destruct (restoreRows E table rows 0 [] [] s0) as [[e|x] s1]; [|by exists x].
    rewrite HR in Hnil. done. }
  destruct Hinr as (x & Hx).
  destruct (restoreRows_inr E table rows 0 [] [] s0 x Hx) as (rs & -> & Hv).
  exists rs. split; [done|]. split; [done|].
  destruct (restoreRows_batches E table rs 0 [] s0 Hv) as (evs & B & Htr & Hb & Hcalls & HB & Hres);
    [simpl; lia|].
  change ((@nil (string * Bigtable.Mutation)).*1) with (@nil string) in *.
  change ((@nil (string * Bigtable.Mutation)).*2) with (@nil Bigtable.Mutation) in *.
  rewrite app_nil_l in Hres.
  pose proof (RestoreTable_events E table s _ w evs HQ Htr) as HR. fold s0 in HR.
  rewrite Hx in Hres, HR. destruct x as [[c keys] muts].
  destruct Hres as (p & Heq & Hlp & -> & -> & -> & Hacc).
  destruct (0 <? length p.*2)%nat eqn:Hpos.
  - destruct HR as (errs & err & Hres & Hev). rewrite Hnil in Hres.
    rewrite <-Hres in Hev. rewrite Hev.
    split.
    { apply Forall_app. split; [by repeat constructor|]. apply Forall_app. split; [done|].
      constructor; [simpl; done|by repeat constructor]. }
    split.
    { rewrite !bulkCalls_app, bulkCalls_bulk, Hcalls.
      change (bulkCalls [EvLog (Restoring table); EvQueryRows table]) with
        (@nil (string * list string * list Bigtable.Mutation)).
      change (bulkCalls [EvLog (Restored (0 + Z.of_nat (length rs)) table)]) with
        (@nil (string * list string * list Bigtable.Mutation)).
      rewrite app_nil_l.
      rewrite fmap_app, concat_app, entriesOf_bulkOf, Heq. f_equal.
      cbn [fmap list_fmap concat]. rewrite app_nil_r. unfold entriesOf. cbn [fst snd].
      apply zip_fst_snd. }
    rewrite app_assoc.
    change (EvApplyBulk table p.*1 p.*2 errs err :: [EvLog (Restored (0 + Z.of_nat (length rs)) table)])
      with ([EvApplyBulk table p.*1 p.*2 errs err] ++ [EvLog (Restored (0 + Z.of_nat (length rs)) table)]).
    rewrite app_assoc, last_snoc. by rewrite Z.add_0_l.
  - destruct HR as [_ Hev]. rewrite Hev.
    assert (p = []) as ->.
    { apply Nat.ltb_ge in Hpos. rewrite length_fmap in Hpos. destruct p; [done|simpl in Hpos; lia]. }
    rewrite app_nil_r in Heq.
    split.
    { apply Forall_app. split; [by repeat constructor|]. apply Forall_app. split; [done|].
      by repeat constructor. }
    split.
    { rewrite !bulkCalls_app, Hcalls.
      change (bulkCalls [EvLog (Restoring table); EvQueryRows table]) with
        (@nil (string * list string * list Bigtable.Mutation)).
      change (bulkCalls [EvLog (Restored (0 + Z.of_nat (length rs)) table)]) with
        (@nil (string * list string * list Bigtable.Mutation)).
      rewrite app_nil_l, app_nil_r. by rewrite entriesOf_bulkOf. }
    rewrite app_assoc, last_snoc. by rewrite Z.add_0_l.
Qed.

End WrittenOnce.
Lemma restored_rows_written_once_witness :
  (QueryRows Mem.env "t" (world (sampleState 101))).1 = ok (ok <$> sampleRows 101) /\
  (RestoreTable Mem.env "t" (sampleState 101)).1 = None /\
  exists rs,
    ok <$> sampleRows 101 = ok <$> rs /\ Forall (verified Mem.env) rs /\
    Forall accepted (events (RestoreTable Mem.env "t") (sampleState 101)) /\
    concat (entriesOf <$> bulkCalls (events (RestoreTable Mem.env "t") (sampleState 101))) =
      entry <$> rs /\
    last (events (RestoreTable Mem.env "t") (sampleState 101)) =
      Some (EvLog (Restored (Z.of_nat (length rs)) "t")).
Proof.
  assert (H1 : (QueryRows Mem.env "t" (world (sampleState 101))).1 = ok (ok <$> sampleRows 101))
    by reflexivity.
  assert (H2 : (RestoreTable Mem.env "t" (sampleState 101)).1 = None)
    by (vm_compute; reflexivity).
  split; [exact H1|]. split; [exact H2|].
  exact (restored_rows_written_once Mem.env "t" (sampleState 101) _ H1 H2).
Defined.

Section ScanFailure.
Context (E : Env).

(** X3. When the scan of a row fails after the verified rows [pre], and
    the store accepted the bulk writes, [RestoreTable] returns the scan
    error having written the rows of [pre] in whole batches of 100 only:
    the rows after the last whole batch (up to 99 of them) were verified
    but are not written, and no count is logged. *)
Theorem scan_failure_drops_pending table s pre err post :
  (QueryRows E table (world s)).1 = ok ((ok <$> pre) ++ fail err :: post) ->
  Forall (verified E) pre ->
  Forall accepted (events (RestoreTable E table) s) ->
  (RestoreTable E table s).1 = Some (FailedScan err) /\
  exists evs B p,
    events (RestoreTable E table) s = [EvLog (Restoring table); EvQueryRows table] ++ evs /\
    Forall isBulk evs /\
    bulkCalls evs = bulkOf table <$> B /\
    entry <$> pre = concat B ++ p /\
    Forall (fun b => length b = 100%nat) B /\ (length p < 100)%nat.
Proof.
  intros Hq Hv Hacc.
  destruct (QueryRows E table (world s)) as [q w] eqn:HQ. simpl in Hq. subst q.
  set (s0 := mkState w ((trace s ++ [EvLog (Restoring table)]) ++ [EvQueryRows table])).
  destruct (restoreRows_batches E table pre 0 [] s0 Hv) as (evs & B & Htr & Hb & Hcalls & HB & Hres);
    [simpl; lia|].
  change ((@nil (string * Bigtable.Mutation)).*1) with (@nil string) in *.
  change ((@nil (string * Bigtable.Mutation)).*2) with (@nil Bigtable.Mutation) in *.
  rewrite app_nil_l in Hres.
  pose proof (restoreRows_app E table (ok <$> pre) (fail err :: post) 0 [] [] s0) as Happ.
  assert (Htr' : trace (restoreRows E table ((ok <$> pre) ++ fail err :: post) 0 [] [] s0).2 =
                 trace s0 ++ evs).
  { rewrite Happ. by destruct (restoreRows E table (ok <$> pre) 0 [] [] s0) as [[e|[[c k] m]] s1]. }
  pose proof (RestoreTable_events E table s _ w evs HQ Htr') as HR. fold s0 in HR.
  rewrite Happ in HR.
  destruct (restoreRows E table (ok <$> pre) 0 [] [] s0) as [[e|[[c k] m]] s1]; cbn [fst snd] in *.
  - exfalso. destruct HR as [_ Hev].
    destruct Hres as (_ & evs0 & t & k & m & errs & err0 & -> & _ & Hverd).
    rewrite Hev in Hacc. rewrite !Forall_app, Forall_singleton in Hacc.
    destruct Hacc as (_ & _ & Hbad). simpl in Hbad. congruence.
  - destruct HR as [Hres' Hev]. split; [done|].
    destruct Hres as (p & Heq & Hlp & _).
    by exists evs, B, p.
Qed.

End ScanFailure.

Lemma scan_failure_drops_pending_witness :
  (QueryRows (scanFails (sampleRows 101) "database disk image is malformed") "t"
     (world damagedState)).1 = ok ((ok <$> sampleRows 101) ++ fail "database disk image is malformed" :: []) /\
  Forall (verified (scanFails (sampleRows 101) "database disk image is malformed")) (sampleRows 101) /\
  (RestoreTable (scanFails (sampleRows 101) "database disk image is malformed") "t" damagedState).1 =
    Some (FailedScan "database disk image is malformed") /\
  length (bulkCalls (events (RestoreTable (scanFails (sampleRows 101) "database disk image is malformed") "t")
                       damagedState)) = 1%nat.
Proof.
  set (E := scanFails (sampleRows 101) "database disk image is malformed").
  assert (H1 : (QueryRows E "t" (world damagedState)).1 =
               ok ((ok <$> sampleRows 101) ++ fail "database disk image is malformed" :: []))
    by reflexivity.
  assert (H2 : Forall (verified E) (sampleRows 101))
    by (apply (bool_decide_unpack _); vm_compute; exact I).
  assert (H3 : Forall accepted (events (RestoreTable E "t") damagedState))
    by (apply (bool_decide_unpack _); vm_compute; exact I).
  split; [exact H1|]. split; [exact H2|].
  destruct (scan_failure_drops_pending E "t" damagedState _ _ _ H1 H2 H3) as [Hres _].
  split; [exact Hres|]. vm_compute. reflexivity.
Defined.

(** ** A row that fails the integrity check *)

Section Corruption.
Context (E : Env).

(** C5. When the rows [pre] are verified and the next row [bad] has a
    stored checksum that differs from the recomputed one, [RestoreTable]
    returns an error, and all it did after the query is to write, in
    batches of exactly 100 entries, entries of the rows of [pre] in their
    order: these batches were full before [bad] was scanned. When the
    store accepted them, the error is the integrity error with the stored
    and the recomputed checksum, and the batches are all the whole batches
    of [pre]: the rows of [pre] after the last whole batch (fewer than
    100), the row [bad] and the rows after it are not written, and no
    count is logged. *)
Theorem C5_checksum_mismatch table s pre bad post :
  (QueryRows E table (world s)).1 = ok ((ok <$> pre) ++ ok bad :: post) ->
  Forall (verified E) pre ->
  ~ verified E bad ->
  exists evs B,
    events (RestoreTable E table) s = [EvLog (Restoring table); EvQueryRows table] ++ evs /\
    Forall isBulk evs /\
    bulkCalls evs = bulkOf table <$> B /\
    Forall (fun b => length b = 100%nat) B /\
    concat B `prefix_of` (entry <$> pre) /\
    (exists e, (RestoreTable E table s).1 = Some e) /\
    (Forall accepted evs ->
     (RestoreTable E table s).1 =
       Some (IntegrityCheckFailed (chk bad)
               (restoreSum E (key bad) (column_family bad) (column bad) (value bad) (timestamp bad))) /\
     exists p, entry <$> pre = concat B ++ p /\ (length p < 100)%nat).
Proof.
  intros Hq Hv Hbad.
  destruct (QueryRows E table (world s)) as [q w] eqn:HQ. simpl in Hq. subst q.
  set (s0 := mkState w ((trace s ++ [EvLog (Restoring table)]) ++ [EvQueryRows table])).
  destruct (restoreRows_batches E table pre 0 [] s0 Hv) as (evs & B & Htr & Hb & Hcalls & HB & Hres);
    [simpl; lia|].
  change ((@nil (string * Bigtable.Mutation)).*1) with (@nil string) in *.
  change ((@nil (string * Bigtable.Mutation)).*2) with (@nil Bigtable.Mutation) in *.
  rewrite app_nil_l in Hres.
  assert (Hstep : forall c keys muts s1,
    restoreRows E table (ok bad :: post) c keys muts s1 =
      (inl (IntegrityCheckFailed (chk bad)
              (restoreSum E (key bad) (column_family bad) (column bad) (value bad) (timestamp bad))),
       s1)).
  { intros c keys muts s1. destruct bad as [k cf col v ts ch]. unfold verified in Hbad.
    cbn [key column_family column value timestamp chk] in *. cbn [restoreRows].
    assert (Hne : (ch =? restoreSum E k cf col v ts) = false) by (by apply Z.eqb_neq).
    by rewrite Hne. }
  pose proof (restoreRows_app E table (ok <$> pre) (ok bad :: post) 0 [] [] s0) as Happ.
  assert (Htr' : trace (restoreRows E table ((ok <$> pre) ++ ok bad :: post) 0 [] [] s0).2 =
                 trace s0 ++ evs).
  { rewrite Happ. destruct (restoreRows E table (ok <$> pre) 0 [] [] s0) as [[e|[[c k] m]] s1];
      [done|]. by rewrite Hstep. }
  pose proof (RestoreTable_events E table s _ w evs HQ Htr') as HR. fold s0 in HR.
  rewrite Happ in HR.
  destruct (restoreRows E table (ok <$> pre) 0 [] [] s0) as [[e|[[c k] m]] s1]; cbn [fst snd] in *.
  - destruct HR as [Hres' Hev].
    destruct Hres as (Hpre & evs0 & t & k & m & errs & err0 & -> & _ & Hverd).
    exists (evs0 ++ [EvApplyBulk t k m errs err0]), B.
    split; [exact Hev|]. split; [done|]. split; [done|]. split; [done|]. split; [done|].
    split; [by exists e|].
    intros Hacc. exfalso. rewrite Forall_app, Forall_singleton in Hacc.
    destruct Hacc as [_ Hacc]. simpl in Hacc. congruence.
  - rewrite Hstep in HR. cbn [fst] in HR. destruct HR as [Hres' Hev].
    destruct Hres as (p & Heq & Hlp & _).
    exists evs, B.
    split; [exact Hev|]. split; [done|]. split; [done|]. split; [done|].
    split; [rewrite Heq; by apply prefix_app_r|].
    split; [by eexists|]. intros _. split; [done|]. by exists p.
Qed.

End Corruption.

Lemma C5_checksum_mismatch_witness :
  (QueryRows Mem.env "t" (world corruptedLate)).1 =
    ok ((ok <$> sampleRows 101) ++ ok (corrupt (sampleRow 101)) :: [ok (sampleRow 102)]) /\
  Forall (verified Mem.env) (sampleRows 101) /\
  ~ verified Mem.env (corrupt (sampleRow 101)) /\
  (RestoreTable Mem.env "t" corruptedLate).1 =
    Some (IntegrityCheckFailed (chk (sampleRow 101))
            (restoreSum Mem.env (key (sampleRow 101)) "cf" "c" (bytesOf "w")
               (timestamp (sampleRow 101)))) /\
  bulkCalls (events (RestoreTable Mem.env "t") corruptedLate) =
    [bulkOf "t" (entry <$> sampleRows 100)].
Proof.
  assert (H1 : (QueryRows Mem.env "t" (world corruptedLate)).1 =
    ok ((ok <$> sampleRows 101) ++ ok (corrupt (sampleRow 101)) :: [ok (sampleRow 102)]))
    by reflexivity.
  assert (H2 : Forall (verified Mem.env) (sampleRows 101))
    by (apply (bool_decide_unpack _); vm_compute; exact I).
  assert (H3 : ~ verified Mem.env (corrupt (sampleRow 101)))
    by (apply (bool_decide_unpack _); vm_compute; exact I).
  split; [exact H1|]. split; [exact H2|]. split; [exact H3|].
  destruct (C5_checksum_mismatch Mem.env "t" corruptedLate _ _ _ H1 H2 H3)
    as (evs & B & Hev & _ & _ & _ & _ & _ & Hres).
  assert (He : events (RestoreTable Mem.env "t") corruptedLate =
            [EvLog (Restoring "t"); EvQueryRows "t"] ++
            [EvApplyBulk "t" (entry <$> sampleRows 100).*1 (entry <$> sampleRows 100).*2 [] None])
    by (vm_compute; reflexivity).
  rewrite He in Hev. apply app_inv_head in Hev. subst evs.
  split.
  - apply Hres. by repeat constructor.
  - rewrite He. reflexivity.
Defined.

(** ** How Restore stops *)

Section RestoreStops.
Context (E : Env).

(** The clearing loop, when it fails: it stops at the table it names, the
    last one it tried. *)
Lemma dropTables_failure tables : forall s e,
  (dropTables E tables s).1 = Some e ->
  exists pre t post,
    e = FailedDeleteTable t /\ tables = pre ++ t :: post /\
    trace (dropTables E tables s).2 = trace s ++ (EvDropAllRows <$> (pre ++ [t])).
Proof.
  induction tables as [|table tables IH]; intros s e He; [done|].
  cbn [dropTables] in *. unfold bind, call in *.
  destruct (DropAllRows E table (world s)) as [[err|] w].
  - injection He as <-. by exists [], table, tables.
  - destruct (IH _ _ He) as (pre & t & post & -> & -> & Htr).
    exists (table :: pre), t, post. split; [done|]. split; [done|].
    rewrite Htr. cbn [trace]. by rewrite <-app_assoc.
Qed.

(** The errors of the loop over the snapshot tables. *)
Lemma restoreTables_errors rows : forall s e,
  (restoreTables E rows s).1 = Some e ->
  (exists err, e = FailedScan err) \/ (exists t e', e = FailedRestoreTable t e').
Proof.
  induction rows as [|r rows IH]; intros s e He; [done|].
  destruct r as [table|err]; [|injection He as <-; left; by eexists].
  cbn [restoreTables] in He. unfold bind in He.
  destruct (RestoreTable E table s) as [[e1|] s1].
  - injection He as <-. right. by eexists _, _.
  - by eapply IH.
Qed.

(** X4. When [Restore] reports that it failed to delete the table [t],
    it has cleared the tables that sort before [t] and has done nothing
    else: the snapshot was not queried, nothing was restored, and the
    tables it cleared stay cleared. *)
Theorem clear_failure_stops_restore s tables t :
  (Tables E (world s)).1 = ok tables ->
  (Restore E s).1 = Some (FailedDeleteTable t) ->
  exists pre,
    (pre ++ [t]) `prefix_of` Sort.Strings tables /\
    events (Restore E) s = EvTables :: (EvDropAllRows <$> (pre ++ [t])).
Proof.
  intros HT Hres. destruct (Tables E (world s)) as [r w] eqn:HTables. simpl in HT. subst r.
  pose proof (Restore_eq E _ _ _ HTables) as HR.
  set (s1 := mkState w (trace s ++ [EvTables])) in *.
  pose proof (dropTables_failure (Sort.Strings tables) s1) as Hdrop.
  destruct (dropTables E (Sort.Strings tables) s1) as [[e|] s2]; cbn [fst snd] in *.
  - rewrite HR in Hres. cbn [fst] in Hres. injection Hres as ->.
    destruct (Hdrop _ eq_refl) as (pre & t' & post & [= <-] & Hsplit & Htr).
    exists pre. split.
    { rewrite Hsplit. exists post. by rewrite <-app_assoc. }
    apply events_spec. rewrite HR. cbn [snd]. rewrite Htr. unfold s1. cbn [trace].
    by rewrite <-app_assoc.
  - exfalso. rewrite HR in Hres.
    destruct (QueryTables E (world s2)) as [[rows|err] w3]; [|done].
    apply restoreTables_errors in Hres as [(err & [=])|(t' & e' & [=])].
Qed.

(** The loop over the snapshot tables, when the restore of a table
    fails: it ends in the state in which [RestoreTable] failed on that
    table, the last one it entered. *)
Lemma restoreTables_failure rows : forall s t e,
  (restoreTables E rows s).1 = Some (FailedRestoreTable t e) ->
  exists pre s1,
    trace s1 = trace s ++ pre /\
    RestoreTable E t s1 = (Some e, (restoreTables E rows s).2) /\
    last (restoring (drop (length (trace s)) (trace (restoreTables E rows s).2))) = Some t.
Proof.
  induction rows as [|r rows IH]; intros s t e He; [done|].
  destruct r as [table|err]; [|done].
  cbn [restoreTables] in *. unfold bind in *.
  destruct (RestoreTable_shape E table s) as (evs1 & Htr1 & Ht1).
  destruct (RestoreTable E table s) as [[e1|] s1] eqn:HRT; cbn [fst snd] in *.
  - injection He as <- <-. exists [], s. rewrite app_nil_r. split; [done|]. split; [done|].
    cbn [ret snd]. rewrite Htr1, drop_app_length. rewrite restoring_app, (restoring_tail _ Ht1). done.
  - destruct (IH s1 t e He) as (pre & s2 & Htr2 & HRT2 & Hlast).
    exists (([EvLog (Restoring table); EvQueryRows table] ++ evs1) ++ pre), s2.
    split; [rewrite Htr2, Htr1; by rewrite <-!app_assoc|]. split; [done|].
    destruct (restoreTables_shape E rows s1) as (evs2 & k & Htr3 & _).
    rewrite Htr3, Htr1 in *. rewrite drop_app_length in Hlast.
    rewrite <-!app_assoc, drop_app_length.
    change ([EvLog (Restoring table); EvQueryRows table] ++ evs1 ++ evs2)
      with (EvLog (Restoring table) :: (EvQueryRows table :: evs1 ++ evs2)).
    change (restoring (EvLog (Restoring table) :: ?l)) with (table :: restoring l).
    change (restoring (EvQueryRows table :: ?l)) with (restoring l).
    rewrite restoring_app, (restoring_tail _ Ht1). cbn [app].
    destruct (restoring evs2); [done|]. done.
Qed.

(** X5. [Restore] stops at the first table whose restore fails: when it
    reports that the restore of [t] failed with [e], it ends in the very
    state in which [RestoreTable] returned [e] for [t], and [t] is the
    last table it entered. The tables restored before stay restored and
    the snapshot tables after [t] are left out. *)
Theorem restore_stops_at_first_failure s t e :
  (Restore E s).1 = Some (FailedRestoreTable t e) ->
  exists pre s1,
    trace s1 = trace s ++ pre /\
    RestoreTable E t s1 = (Some e, (Restore E s).2) /\
    last (restoring (events (Restore E) s)) = Some t.
Proof.
  intros Hres. destruct (Tables E (world s)) as [[tables|err] w] eqn:HTables.
  2:{ unfold Restore, bind, call in Hres. rewrite HTables in Hres. done. }
  pose proof (Restore_eq E _ _ _ HTables) as HR.
  set (s1 := mkState w (trace s ++ [EvTables])) in *.
  pose proof (dropTables_failure (Sort.Strings tables) s1) as Hdrop.
  destruct (dropTables_shape E (Sort.Strings tables) s1) as (k & Htr1 & _).
  destruct (dropTables E (Sort.Strings tables) s1) as [[e1|] s2]; cbn [fst snd] in *.
  { rewrite HR in Hres. injection Hres as ->.
    destruct (Hdrop _ eq_refl) as (? & ? & ? & [=] & _). }
  destruct (QueryTables E (world s2)) as [[rows|err] w3]; [|by rewrite HR in Hres].
  rewrite HR in Hres |- *. unfold events. rewrite HR.
  set (s3 := mkState w3 (trace s2 ++ [EvQueryTables])) in *.
  destruct (restoreTables_failure rows s3 t e Hres) as (pre & s4 & Htr4 & HRT & Hlast).
  exists ([EvTables] ++ (EvDropAllRows <$> take k (Sort.Strings tables)) ++ [EvQueryTables] ++ pre), s4.
  split; [rewrite Htr4; unfold s3; cbn [trace]; rewrite Htr1; unfold s1; cbn [trace];
          by rewrite <-!app_assoc|].
  split; [done|].
  destruct (restoreTables_shape E rows s3) as (evs & j & Htr5 & _).
  rewrite Htr5 in Hlast |- *. rewrite drop_app_length in Hlast.
  unfold s3. cbn [trace]. rewrite Htr1. unfold s1. cbn [trace].
  rewrite <-!app_assoc, drop_app_length.
  rewrite !restoring_app, restoring_drops. exact Hlast.
Qed.

End RestoreStops.
Lemma clear_failure_stops_restore_witness :
  (Tables (denyDrop "b") (world deniedState)).1 = ok ["b"; "a"; "c"] /\
  (Restore (denyDrop "b") deniedState).1 = Some (FailedDeleteTable "b") /\
  exists pre,
    (pre ++ ["b"]) `prefix_of` Sort.Strings ["b"; "a"; "c"] /\
    events (Restore (denyDrop "b")) deniedState = EvTables :: (EvDropAllRows <$> (pre ++ ["b"])).
Proof.
  assert (H1 : (Tables (denyDrop "b") (world deniedState)).1 = ok ["b"; "a"; "c"]) by reflexivity.
  assert (H2 : (Restore (denyDrop "b") deniedState).1 = Some (FailedDeleteTable "b"))
    by (vm_compute; reflexivity).
  split; [exact H1|]. split; [exact H2|].
  exact (clear_failure_stops_restore (denyDrop "b") deniedState _ _ H1 H2).
Defined.

Lemma restore_stops_at_first_failure_witness :
  (Restore Mem.env corruptedState).1 =
    Some (FailedRestoreTable "t" (IntegrityCheckFailed 703276213 3423215118)) /\
  exists pre s1,
    trace s1 = trace corruptedState ++ pre /\
    RestoreTable Mem.env "t" s1 =
      (Some (IntegrityCheckFailed 703276213 3423215118), (Restore Mem.env corruptedState).2) /\
    last (restoring (events (Restore Mem.env) corruptedState)) = Some "t".
Proof.
  assert (H1 : (Restore Mem.env corruptedState).1 =
               Some (FailedRestoreTable "t" (IntegrityCheckFailed 703276213 3423215118)))
    by (vm_compute; reflexivity).
  split; [exact H1|].
  exact (restore_stops_at_first_failure Mem.env corruptedState _ _ H1).
Defined.

(** ** How SaveTable ends *)

Section SaveRuns.
Context (E : Env).

Lemma familyRows_cons cf items families :
  familyRows E ((cf, items) :: families) = (snapRow E cf <$> items) ++ familyRows E families.
Proof. unfold familyRows. by rewrite bind_cons. Qed.

Lemma snapRows_cons row rows : snapRows E (row :: rows) = familyRows E row ++ snapRows E rows.
Proof. unfold snapRows. by rewrite bind_cons. Qed.

Lemma saveItems_run table row cf items : forall c s,
  exists ins,
    trace (saveItems E table row cf items c s).2 = trace s ++ (insertOf table <$> ins) /\
    ins `prefix_of` (snapRow E cf <$> items) /\
    match (saveItems E table row cf items c s).1 with
    | (c', None) => ins = snapRow E cf <$> items /\ c' = c + Z.of_nat (length items)
    | (c', Some e) => ins <> [] /\ exists err, e = FailedSaveRow (Bigtable.Key row) err
    end.
Proof.
  induction items as [|item items IH]; intros c s.
  - exists []. simpl. rewrite app_nil_r. repeat split; try done. lia.
  - cbn [saveItems]. unfold bind, call.
    destruct (Exec E (InsertInto table) (Some (snapRow E cf item)) (world s)) as [[err|] w].
    + exists [snapRow E cf item]. split; [done|]. split.
      { rewrite fmap_cons. apply prefix_cons, prefix_nil. }
      split; [done|]. by exists err.
    + match goal with |- context [saveItems E table row cf items ?c' ?s'] =>
        destruct (IH c' s') as (ins & Htr & Hp & Hres) end.
      exists (snapRow E cf item :: ins). cbn [trace] in Htr.
      split; [rewrite Htr; by rewrite <-app_assoc|].
      split; [rewrite fmap_cons; by apply prefix_cons|].
      destruct (saveItems E table row cf items (c + 1) _).1 as [c' [e|]].
      * destruct Hres as [_ Herr]. done.
      * destruct Hres as [-> ->]. split; [done|]. rewrite length_cons. lia.
Qed.

Lemma saveFamilies_run table row families : forall c s,
  exists ins,
    trace (saveFamilies E table row families c s).2 = trace s ++ (insertOf table <$> ins) /\
    ins `prefix_of` familyRows E families /\
    match (saveFamilies E table row families c s).1 with
    | (c', None) => ins = familyRows E families /\ c' = c + Z.of_nat (length (familyRows E families))
    | (c', Some e) => ins <> [] /\ exists err, e = FailedSaveRow (Bigtable.Key row) err
    end.
Proof.
  induction families as [|[cf items] families IH]; intros c s.
  - exists []. simpl. rewrite app_nil_r. repeat split; try done. lia.
  - cbn [saveFamilies]. unfold bind.
    destruct (saveItems_run table row cf items c s) as (ins1 & Htr1 & Hp1 & Hres1).
    destruct (saveItems E table row cf items c s) as [[c1 [e|]] s1]; cbn [fst snd] in *.
    + exists ins1. split; [done|]. split; [|done].
      rewrite familyRows_cons. by apply prefix_app_r.
    + destruct Hres1 as [-> ->].
      destruct (IH (c + Z.of_nat (length items)) s1) as (ins2 & Htr2 & Hp2 & Hres2).
      exists ((snapRow E cf <$> items) ++ ins2).
      split; [rewrite Htr2, Htr1, fmap_app; by rewrite <-app_assoc|].
      rewrite !familyRows_cons.
      split; [by apply prefix_app|].
      destruct (saveFamilies E table row families _ s1).1 as [c' [e|]].
      * destruct Hres2 as [Hne Herr]. split; [|done]. by destruct (snapRow E cf <$> items), ins2.
      * destruct Hres2 as [-> ->]. split; [done|].
        rewrite length_app, length_fmap. lia.
Qed.

(** The scan of the rows of a stream: the rows are inserted in the order
    of the stream; when an insertion fails the scan stops there and
    names the key of the row it was in. *)
Lemma readRows_run table rows streamErr : forall c s,
  exists ins,
    trace (readRows E table rows streamErr c s).2 = trace s ++ (insertOf table <$> ins) /\
    ins `prefix_of` snapRows E rows /\
    match (readRows E table rows streamErr c s).1 with
    | (err, c', None) =>
        err = streamErr /\ ins = snapRows E rows /\ c' = c + Z.of_nat (length (snapRows E rows))
    | (err, c', Some e) =>
        err = None /\
        exists ins0 r row msg,
          ins = ins0 ++ [r] /\ row ∈ rows /\ r ∈ familyRows E row /\
          e = FailedSaveRow (Bigtable.Key row) msg
    end.
Proof.
  induction rows as [|row rows IH]; intros c s.
  - exists []. simpl. rewrite app_nil_r. repeat split; try done. lia.
  - cbn [readRows]. unfold bind.
    destruct (saveFamilies_run table row row c s) as (ins1 & Htr1 & Hp1 & Hres1).
    destruct (saveFamilies E table row row c s) as [[c1 [e|]] s1]; cbn [fst snd] in *.
    + exists ins1. split; [done|]. split.
      { rewrite snapRows_cons. by apply prefix_app_r. }
      split; [done|]. destruct Hres1 as [Hne (msg & ->)].
      destruct (exists_last Hne) as (ins0 & r & ->).
      exists ins0, r, row, msg. split; [done|]. split; [by left|]. split; [|done].
      eapply elem_of_prefix; [|exact Hp1]. apply elem_of_app. right. by left.
    + destruct Hres1 as [-> ->].
      destruct (IH (c + Z.of_nat (length (familyRows E row))) s1) as (ins2 & Htr2 & Hp2 & Hres2).
      exists (familyRows E row ++ ins2).
      split; [rewrite Htr2, Htr1, fmap_app; by rewrite <-app_assoc|].
      rewrite !snapRows_cons.
      split; [by apply prefix_app|].
      destruct (readRows E table rows streamErr _ s1).1 as [[err c'] [e|]].
      * destruct Hres2 as (-> & ins0 & r & row' & msg & -> & Hrow & Hr & ->).
        split; [done|]. exists (familyRows E row ++ ins0), r, row', msg.
        split; [by rewrite app_assoc|]. split; [by right|]. done.
      * destruct Hres2 as (-> & -> & ->). split; [done|]. split; [done|].
        rewrite length_app. lia.
Qed.

End SaveRuns.
Section SaveTableCases.
Context (E : Env).

(** The runs of [SaveTable]: it stops at one of the five steps before
    the scan, or it scans the remote table and inserts rows of the stream
    until the stream ends, with or without an error, or an insertion
    fails. *)
Lemma SaveTable_cases table s :
  (exists k e, (2 <= k <= 6)%nat /\
     events (SaveTable E table) s = take k (setupOf table) /\
     (SaveTable E table s).1 = Some e /\ setupError e) \/
  (exists w ins,
     ins `prefix_of` snapRows E (ReadRows E table w).1.1 /\
     (((SaveTable E table s).1 = None /\ (ReadRows E table w).1.2 = None /\
       ins = snapRows E (ReadRows E table w).1.1 /\
       events (SaveTable E table) s =
         setupOf table ++ (insertOf table <$> ins) ++ [EvLog (Saved (Z.of_nat (length ins)) table)]) \/
      (exists err,
         (SaveTable E table s).1 = Some (FailureIterating err) /\
         (ReadRows E table w).1.2 = Some err /\
         ins = snapRows E (ReadRows E table w).1.1 /\
         events (SaveTable E table) s = setupOf table ++ (insertOf table <$> ins)) \/
      (exists ins0 r row msg,
         (SaveTable E table s).1 = Some (FailedSaveRow (Bigtable.Key row) msg) /\
         ins = ins0 ++ [r] /\ row ∈ (ReadRows E table w).1.1 /\ r ∈ familyRows E row /\
         events (SaveTable E table) s = setupOf table ++ (insertOf table <$> ins)))).
Proof.
  unfold events, SaveTable, bind, logPrintf, emit, call. cbn [world trace].
  destruct (Prepare E (DropTable table) (world s)) as [[err|] w1]; cbn [world trace].
  { left. exists 2%nat, (FailedPrepareDrop err). split; [lia|]. cbn [ret fst snd trace].
    rewrite <-!app_assoc, drop_app_length. done. }
  destruct (Exec E (DropTable table) None w1) as [[err|] w2]; cbn [world trace].
  { left. exists 3%nat, (FailedExecDrop err). split; [lia|]. cbn [ret fst snd trace].
    rewrite <-!app_assoc, drop_app_length. done. }
  destruct (Prepare E (CreateTable table) w2) as [[err|] w3]; cbn [world trace].
  { left. exists 4%nat, (FailedPrepareCreate err). split; [lia|]. cbn [ret fst snd trace].
    rewrite <-!app_assoc, drop_app_length. done. }
  destruct (Exec E (CreateTable table) None w3) as [[err|] w4]; cbn [world trace].
  { left. exists 5%nat, (FailedExecCreate err). split; [lia|]. cbn [ret fst snd trace].
    rewrite <-!app_assoc, drop_app_length. done. }
  destruct (Prepare E (InsertInto table) w4) as [[err|] w5]; cbn [world trace].
  { left. exists 6%nat, (FailedPrepareInsert err). split; [lia|]. cbn [ret fst snd trace].
    rewrite <-!app_assoc, drop_app_length. done. }
  right. exists w5.
  destruct (ReadRows E table w5) as [[rows streamErr] w6]. cbn [fst snd].
  match goal with |- context [readRows E table rows streamErr 0 ?s'] =>
    destruct (readRows_run E table rows streamErr 0 s') as (ins & Htr & Hp & Hres) end.
  exists ins. split; [done|].
  destruct (readRows E table rows streamErr 0 _) as [[[err c] rowErr] s7]. cbn [fst snd trace] in *.
  destruct rowErr as [e|].
  - destruct Hres as (-> & ins0 & r & row & msg & -> & Hrow & Hr & ->).
    right. right. exists ins0, r, row, msg. cbn [ret fst snd]. split; [done|].
    do 3 (split; [done|]). rewrite Htr, <-!app_assoc, drop_app_length. done.
  - destruct Hres as (-> & -> & ->). destruct streamErr as [err|].
    + right. left. exists err. cbn [ret fst snd]. do 3 (split; [done|]).
      rewrite Htr, <-!app_assoc, drop_app_length. done.
    + left. cbn [ret fst snd trace]. do 3 (split; [done|]).
      rewrite Htr, <-!app_assoc, drop_app_length. rewrite Z.add_0_l. done.
Qed.

Lemma setupOf_no_read table k t : (k <= 6)%nat -> EvReadRows t ∉ take k (setupOf table).
Proof.
  intros Hk Hin. apply list_elem_of_In in Hin. unfold setupOf in Hin.
  do 7 (destruct k as [|k]; [simpl in Hin; intuition discriminate|]). lia.
Qed.

Lemma setupOf_no_insert table k : inserted (take k (setupOf table)) = [].
Proof. do 8 (destruct k as [|k]; [done|]). done. Qed.

(** X6. When [SaveTable] returns nil, the stream of the remote table
    ended without an error, the rows inserted are the snapshot rows of the
    items of the stream, one for each item and in the order of the stream,
    all in the table of that name, and the number logged at the end is
    their number. *)
Theorem saved_rows_are_the_stream table s :
  (SaveTable E table s).1 = None ->
  exists w,
    (ReadRows E table w).1.2 = None /\
    inserted (events (SaveTable E table) s) =
      (fun r => (table, r)) <$> snapRows E (ReadRows E table w).1.1 /\
    last (events (SaveTable E table) s) =
      Some (EvLog (Saved (Z.of_nat (length (snapRows E (ReadRows E table w).1.1))) table)).
Proof.
  intros Hnil.
  destruct (SaveTable_cases table s) as [(k & e & _ & _ & He & _)|(w & ins & Hp & Hcase)];
    [congruence|].
  destruct Hcase as [(_ & Hs & -> & Hev)|[(err & He & _)|(? & ? & ? & ? & He & _)]];
    [|congruence|congruence].
  exists w. split; [done|]. rewrite Hev. split.
  - rewrite !inserted_app, inserted_insertOf. cbn [inserted omap app]. by rewrite app_nil_r.
  - rewrite !app_assoc. by rewrite last_snoc.
Qed.

(** X7. When [SaveTable] reports that it failed to save a row, the
    failed insertion is the last thing it did: no row is inserted after
    it and no count is logged. The rows inserted before stay in the
    snapshot table, which is left incomplete, and the key in the error is
    the key of the row of the stream in which the insertion failed. *)
Theorem insert_failure_stops_save table s k msg :
  (SaveTable E table s).1 = Some (FailedSaveRow k msg) ->
  exists w ins r row,
    events (SaveTable E table) s = setupOf table ++ (insertOf table <$> (ins ++ [r])) /\
    (ins ++ [r]) `prefix_of` snapRows E (ReadRows E table w).1.1 /\
    row ∈ (ReadRows E table w).1.1 /\ r ∈ familyRows E row /\ k = Bigtable.Key row.
Proof.
  intros Hres.
  destruct (SaveTable_cases table s) as [(j & e & _ & _ & He & Hse)|(w & ins & Hp & Hcase)].
  { rewrite Hres in He. injection He as <-. done. }
  destruct Hcase as [(He & _)|[(err & He & _)|(ins0 & r & row & msg' & He & -> & Hrow & Hr & Hev)]];
    [congruence|congruence|].
  rewrite Hres in He. injection He as -> ->.
  by exists w, ins0, r, row.
Qed.

(** X8. When [SaveTable] reports a failure of the iteration, every row
    that the stream gave before it broke was inserted, and stays in the
    snapshot table: the table holds a part of the remote table, and no
    count is logged. *)
Theorem stream_failure_keeps_rows table s err :
  (SaveTable E table s).1 = Some (FailureIterating err) ->
  exists w,
    (ReadRows E table w).1.2 = Some err /\
    events (SaveTable E table) s =
      setupOf table ++ (insertOf table <$> snapRows E (ReadRows E table w).1.1).
Proof.
  intros Hres.
  destruct (SaveTable_cases table s) as [(j & e & _ & _ & He & Hse)|(w & ins & Hp & Hcase)].
  { rewrite Hres in He. injection He as <-. done. }
  destruct Hcase as [(He & _)|[(err' & He & Hs & -> & Hev)|(? & ? & ? & ? & He & _)]];
    [congruence| |congruence].
  rewrite Hres in He. injection He as <-. by exists w.
Qed.

(** X9. [SaveTable] scans the remote table at most once, and only after
    it has dropped the snapshot table of that name, created it again and
    prepared the insertion, all without an error; after the scan it only
    inserts rows in that table and logs the count. *)
Theorem scan_after_setup table s pre t post :
  events (SaveTable E table) s = pre ++ EvReadRows t :: post ->
  t = table /\ pre ++ [EvReadRows t] = setupOf table /\ Forall (afterScan table) post.
Proof.
  intros Hev.
  assert (Hsplit : forall tl,
    Forall (afterScan table) tl ->
    setupOf table ++ tl = pre ++ EvReadRows t :: post ->
    t = table /\ pre ++ [EvReadRows t] = setupOf table /\ post = tl).
  { intros tl Htl Heq. unfold setupOf in *.
    do 6 (destruct pre as [|? pre]; [simpl in Heq; by injection Heq|];
          simpl in Heq; injection Heq as <- Heq).
    destruct pre as [|? pre].
    - simpl in Heq. injection Heq as <- <-. done.
    - exfalso. simpl in Heq. injection Heq as <- Heq.
      assert (Hin : EvReadRows t ∈ tl) by (rewrite Heq; apply elem_of_app; right; by left).
      rewrite Forall_forall in Htl. by apply Htl in Hin. }
  destruct (SaveTable_cases table s) as [(k & e & Hk & Hev' & _)|(w & ins & Hp & Hcase)].
  - exfalso. rewrite Hev in Hev'.
    assert (Hin : EvReadRows t ∈ take k (setupOf table)).
    { rewrite <-Hev'. apply elem_of_app. right. by left. }
    destruct Hk as [_ Hk]. by apply setupOf_no_read in Hin.
  - assert (Hins : forall l, Forall (afterScan table) (insertOf table <$> l)).
    { intros l. apply Forall_fmap, Forall_true. by intros r. }
    destruct Hcase as [(_ & _ & _ & Hev')|[(err & _ & _ & _ & Hev')|(? & ? & ? & ? & _ & _ & _ & _ & Hev')]];
      rewrite Hev in Hev'; symmetry in Hev'.
    + apply Hsplit in Hev' as (-> & Hpre & ->); [|].
      * split; [done|]. split; [done|]. apply Forall_app. split; [apply Hins|by repeat constructor].
      * apply Forall_app. split; [apply Hins|by repeat constructor].
    + apply Hsplit in Hev' as (-> & Hpre & ->); [done|apply Hins].
    + apply Hsplit in Hev' as (-> & Hpre & ->); [done|apply Hins].
Qed.

(** X10. When one of the five steps of [SaveTable] before the scan
    fails, the remote table is not read and no row is inserted: the call
    did the steps up to the one that failed and stopped. *)
Theorem setup_failure_reads_nothing table s e :
  (SaveTable E table s).1 = Some e -> setupError e ->
  events (SaveTable E table) s `prefix_of` setupOf table /\
  (forall t, EvReadRows t ∉ events (SaveTable E table) s) /\
  inserted (events (SaveTable E table) s) = [].
Proof.
  intros He Hse.
  destruct (SaveTable_cases table s) as [(k & e' & Hk & Hev' & _)|(w & ins & Hp & Hcase)].
  - rewrite Hev'. split; [apply prefix_take|]. split; [|apply setupOf_no_insert].
    intros t Hin. destruct Hk as [_ Hk]. by apply setupOf_no_read in Hin.
  - exfalso.
    destruct Hcase as [(He' & _)|[(err & He' & _)|(? & ? & ? & ? & He' & _)]];
      rewrite He in He'; try discriminate; injection He' as ->; done.
Qed.

End SaveTableCases.

Lemma saved_rows_are_the_stream_witness :
  (SaveTable Mem.env "t" cf1State).1 = None /\
  exists w,
    (ReadRows Mem.env "t" w).1.2 = None /\
    inserted (events (SaveTable Mem.env "t") cf1State) =
      (fun r => ("t", r)) <$> snapRows Mem.env (ReadRows Mem.env "t" w).1.1 /\
    last (events (SaveTable Mem.env "t") cf1State) =
      Some (EvLog (Saved (Z.of_nat (length (snapRows Mem.env (ReadRows Mem.env "t" w).1.1))) "t")).
Proof.
  assert (H1 : (SaveTable Mem.env "t" cf1State).1 = None) by (vm_compute; reflexivity).
  split; [exact H1|]. exact (saved_rows_are_the_stream Mem.env "t" cf1State H1).
Defined.

Lemma insert_failure_stops_save_witness :
  (SaveTable (diskFull 1) "t" (mkState (E := diskFull 1) (world twoFamiliesState) [])).1 =
    Some (FailedSaveRow "r1" "database or disk is full") /\
  length (inserted (events (SaveTable (diskFull 1) "t")
                      (mkState (E := diskFull 1) (world twoFamiliesState) []))) = 2%nat.
Proof.
  assert (H1 : (SaveTable (diskFull 1) "t" (mkState (E := diskFull 1) (world twoFamiliesState) [])).1 =
               Some (FailedSaveRow "r1" "database or disk is full")) by (vm_compute; reflexivity).
  split; [exact H1|].
  destruct (insert_failure_stops_save (diskFull 1) "t" _ _ _ H1) as (w & ins & r & row & Hev & _).
  vm_compute. reflexivity.
Defined.

Lemma stream_failure_keeps_rows_witness :
  (SaveTable (streamBreaks 1 "connection reset by peer") "t" brokenState).1 =
    Some (FailureIterating "connection reset by peer") /\
  key <$> (inserted (events (SaveTable (streamBreaks 1 "connection reset by peer") "t")
                       brokenState)).*2 = ["r1"; "r1"] /\
  exists w,
    (ReadRows (streamBreaks 1 "connection reset by peer") "t" w).1.2 =
      Some "connection reset by peer" /\
    events (SaveTable (streamBreaks 1 "connection reset by peer") "t") brokenState =
      setupOf "t" ++
      (insertOf "t" <$> snapRows (streamBreaks 1 "connection reset by peer")
                          (ReadRows (streamBreaks 1 "connection reset by peer") "t" w).1.1).
Proof.
  set (E := streamBreaks 1 "connection reset by peer").
  assert (H1 : (SaveTable E "t" brokenState).1 = Some (FailureIterating "connection reset by peer"))
    by (vm_compute; reflexivity).
  split; [exact H1|]. split; [vm_compute; reflexivity|].
  exact (stream_failure_keeps_rows E "t" brokenState _ H1).
Defined.

Lemma scan_after_setup_witness :
  events (SaveTable Mem.env "t") cf1State =
    [EvLog (Saving "t"); EvPrepare (DropTable "t"); EvExec (DropTable "t") None;
     EvPrepare (CreateTable "t"); EvExec (CreateTable "t") None; EvPrepare (InsertInto "t")] ++
    EvReadRows "t" ::
    [EvExec (InsertInto "t") (Some (snapRow Mem.env "cf1" cf1Item)); EvLog (Saved 1 "t")] /\
  Forall (afterScan "t")
    [EvExec (InsertInto "t") (Some (snapRow Mem.env "cf1" cf1Item)); EvLog (Saved 1 "t")].
Proof.
  assert (H1 : events (SaveTable Mem.env "t") cf1State =
    [EvLog (Saving "t"); EvPrepare (DropTable "t"); EvExec (DropTable "t") None;
     EvPrepare (CreateTable "t"); EvExec (CreateTable "t") None; EvPrepare (InsertInto "t")] ++
    EvReadRows "t" ::
    [EvExec (InsertInto "t") (Some (snapRow Mem.env "cf1" cf1Item)); EvLog (Saved 1 "t")])
    by (vm_compute; reflexivity).
  split; [exact H1|].
  exact (proj2 (proj2 (scan_after_setup Mem.env "t" cf1State _ _ _ H1))).
Defined.

Lemma setup_failure_reads_nothing_witness :
  (SaveTable readOnlyDb "t" (mkState (E := readOnlyDb) (world cf1State) [])).1 =
    Some (FailedExecDrop "attempt to write a readonly database") /\
  inserted (events (SaveTable readOnlyDb "t") (mkState (E := readOnlyDb) (world cf1State) [])) = [].
Proof.
  assert (H1 : (SaveTable readOnlyDb "t" (mkState (E := readOnlyDb) (world cf1State) [])).1 =
               Some (FailedExecDrop "attempt to write a readonly database"))
    by (vm_compute; reflexivity).
  split; [exact H1|].
  exact (proj2 (proj2 (setup_failure_reads_nothing readOnlyDb "t" _ _ H1 I))).
Defined.

(** ** How SaveAll stops *)

Section SaveAllStops.
Context (E : Env).

Lemma saveTables_failure tables : forall s t e,
  (saveTables E tables s).1 = Some (FailedSaveTable t e) ->
  exists pre s1,
    trace s1 = trace s ++ pre /\
    SaveTable E t s1 = (Some e, (saveTables E tables s).2) /\
    last (saving (drop (length (trace s)) (trace (saveTables E tables s).2))) = Some t.
Proof.
  induction tables as [|table tables IH]; intros s t e He; [done|].
  cbn [saveTables] in *. unfold bind in *.
  destruct (SaveTable_shape E table s) as (evs1 & Htr1 & Hs1).
  destruct (SaveTable E table s) as [[e1|] s1] eqn:HST; cbn [fst snd] in *.
  - injection He as <- <-. exists [], s. rewrite app_nil_r. split; [done|]. split; [done|].
    cbn [ret snd]. rewrite Htr1, drop_app_length.
    change (saving (EvLog (Saving table) :: evs1)) with (table :: saving evs1).
    by rewrite Hs1.
  - destruct (IH s1 t e He) as (pre & s2 & Htr2 & HST2 & Hlast).
    exists ((EvLog (Saving table) :: evs1) ++ pre), s2.
    split; [rewrite Htr2, Htr1; by rewrite <-!app_assoc|]. split; [done|].
    destruct (saveTables_shape E tables s1) as (evs2 & Htr3 & _).
    rewrite Htr3, Htr1 in *. rewrite drop_app_length in Hlast.
    rewrite <-!app_assoc, drop_app_length.
    change ((EvLog (Saving table) :: evs1) ++ evs2) with (EvLog (Saving table) :: (evs1 ++ evs2)).
    change (saving (EvLog (Saving table) :: ?l)) with (table :: saving l).
    rewrite saving_app, Hs1. cbn [app].
    destruct (saving evs2); [done|]. done.
Qed.

(** X11. [SaveAll] stops at the first table whose save fails: when it
    reports that the save of [t] failed with [e], it ends in the very
    state in which [SaveTable] returned [e] for [t], and [t] is the last
    table it entered. The tables that sort after [t] are not saved; their
    snapshot tables, if any, are left as they were. *)
Theorem save_stops_at_first_failure s t e :
  (SaveAll E s).1 = Some (FailedSaveTable t e) ->
  exists pre s1,
    trace s1 = trace s ++ pre /\
    SaveTable E t s1 = (Some e, (SaveAll E s).2) /\
    last (saving (events (SaveAll E) s)) = Some t.
Proof.
  intros Hres. unfold events. unfold SaveAll, bind, call in *.
  destruct (Tables E (world s)) as [[tables|err] w]; [|done].
  set (s1 := mkState w (trace s ++ [EvTables])) in *.
  destruct (saveTables_failure (Sort.Strings tables) s1 t e Hres) as (pre & s2 & Htr & HST & Hlast).
  exists ([EvTables] ++ pre), s2.
  split; [rewrite Htr; unfold s1; cbn [trace]; by rewrite <-app_assoc|]. split; [done|].
  destruct (saveTables_shape E (Sort.Strings tables) s1) as (evs & Htr2 & _).
  rewrite Htr2 in Hlast |- *. rewrite drop_app_length in Hlast.
  unfold s1. cbn [trace]. rewrite <-app_assoc, drop_app_length. exact Hlast.
Qed.

End SaveAllStops.

Lemma save_stops_at_first_failure_witness :
  (SaveAll (diskFull 1) (mkState (E := diskFull 1) (world twoFamiliesState) [])).1 =
    Some (FailedSaveTable "t" (FailedSaveRow "r1" "database or disk is full")) /\
  last (saving (events (SaveAll (diskFull 1))
                  (mkState (E := diskFull 1) (world twoFamiliesState) []))) = Some "t".
Proof.
  assert (H1 : (SaveAll (diskFull 1) (mkState (E := diskFull 1) (world twoFamiliesState) [])).1 =
               Some (FailedSaveTable "t" (FailedSaveRow "r1" "database or disk is full")))
    by (vm_compute; reflexivity).
  split; [exact H1|].
  destruct (save_stops_at_first_failure (diskFull 1) _ _ _ H1) as (pre & s1 & _ & _ & Hlast).
  exact Hlast.
Defined.

(** ** What the checksum does not see *)

Lemma bytesOf_append a b : bytesOf (a +:+ b) = bytesOf a ++ bytesOf b.
Proof.
  induction a as [|x a IH]; [reflexivity|]. rewrite append_cons, !bytesOf_cons, IH. done.
Qed.

Lemma Sprintf_cons c s :
  c <> "%"%char -> Fmt.Sprintf (String c s) = String c (Fmt.Sprintf s).
Proof.
  intros Hc. unfold Fmt.Sprintf. cbn [String.length Fmt.doPrintf].
  by rewrite decide_False.
Qed.

(** Text without a percent sign in front of a format is written as it
    is, and the format after it is treated on its own. *)
Lemma Sprintf_plain_prefix p q :
  plain p = true -> Fmt.Sprintf (p +:+ q) = p +:+ Fmt.Sprintf q.
Proof.
  induction p as [|c p IH]; intros Hp; [reflexivity|].
  cbn [plain] in Hp. apply andb_true_iff in Hp as [Hc Hp].
  apply negb_true_iff, bool_decide_eq_false in Hc.
  rewrite !append_cons, Sprintf_cons, IH by done. done.
Qed.

Section Blind.
Context (E : Env).

(** X12. The checksum hashes the row key, the family, the column and
    the value end to end, with nothing between them: for text without a
    percent sign, moving bytes from the end of one field to the start of
    the next leaves the checksum as it is. A snapshot row changed in
    this way passes the integrity check of [RestoreTable] and is written
    to another cell. *)
Theorem checksum_ignores_field_boundaries key cf col a value ts :
  plain key = true -> plain cf = true -> plain col = true -> plain a = true ->
  restoreSum E (key +:+ a) cf col value ts = restoreSum E key (a +:+ cf) col value ts /\
  restoreSum E key (cf +:+ a) col value ts = restoreSum E key cf (a +:+ col) value ts /\
  restoreSum E key cf (col +:+ a) value ts = restoreSum E key cf col (bytesOf a ++ value) ts /\
  (forall sum,
     verified E (mkSnapRow (key +:+ a) cf col value ts sum) <->
     verified E (mkSnapRow key (a +:+ cf) col value ts sum)).
Proof.
  intros Hkey Hcf Hcol Ha.
  assert (H1 : restoreSum E (key +:+ a) cf col value ts = restoreSum E key (a +:+ cf) col value ts).
  { unfold restoreSum.
    rewrite !Fprintf_plain by (rewrite ?plain_append, ?Hkey, ?Hcf, ?Hcol, ?Ha; done || apply Format_plain).
    rewrite !Write_app, !bytesOf_append. by rewrite <-?app_assoc. }
  split; [exact H1|]. split; [|split].
  - unfold restoreSum.
    rewrite !Fprintf_plain by (rewrite ?plain_append, ?Hkey, ?Hcf, ?Hcol, ?Ha; done || apply Format_plain).
    rewrite !Write_app, !bytesOf_append. by rewrite <-?app_assoc.
  - unfold restoreSum.
    rewrite !Fprintf_plain by (rewrite ?plain_append, ?Hkey, ?Hcf, ?Hcol, ?Ha; done || apply Format_plain).
    rewrite !Write_app, !bytesOf_append. by rewrite <-?app_assoc.
  - intros sum. unfold verified. simpl. by rewrite H1.
Qed.

(** X13. The row key, the family and the column go through
    [fmt.Fprintf] as formats. A key that ends in a percent sign is hashed
    with the marker of a missing verb after it, which is also what is
    written for the key that ends in two percent signs and that marker:
    the two keys differ and have the same checksum, whatever the other
    fields are. *)
Theorem checksum_confuses_percent_keys p cf col value ts :
  plain p = true ->
  Fmt.Sprintf (p +:+ "%") = p +:+ "%!(NOVERB)" /\
  p +:+ "%" <> p +:+ "%%!(NOVERB)" /\
  restoreSum E (p +:+ "%") cf col value ts = restoreSum E (p +:+ "%%!(NOVERB)") cf col value ts.
Proof.
  intros Hp.
  assert (H1 : Fmt.Sprintf (p +:+ "%") = p +:+ "%!(NOVERB)") by (by rewrite Sprintf_plain_prefix).
  assert (H2 : Fmt.Sprintf (p +:+ "%%!(NOVERB)") = p +:+ "%!(NOVERB)")
    by (by rewrite Sprintf_plain_prefix).
  split; [exact H1|]. split.
  - intros Heq. apply (f_equal String.length) in Heq. rewrite !length_append in Heq.
    simpl in Heq. lia.
  - unfold restoreSum, Fmt.Fprintf. by rewrite H1, H2.
Qed.

End Blind.

Lemma checksum_ignores_field_boundaries_witness :
  restoreSum Mem.env ("row" +:+ "1") "cf" "c" (bytesOf "v") 1600000000000000000 =
    restoreSum Mem.env "row" ("1" +:+ "cf") "c" (bytesOf "v") 1600000000000000000 /\
  "row" +:+ "1" <> "row".
Proof.
  split; [|discriminate].
  exact (proj1 (checksum_ignores_field_boundaries Mem.env "row" "cf" "c" "1" (bytesOf "v")
                  1600000000000000000 eq_refl eq_refl eq_refl eq_refl)).
Defined.

Lemma checksum_confuses_percent_keys_witness :
  restoreSum Mem.env ("100" +:+ "%") "cf" "c" (bytesOf "v") 0 =
    restoreSum Mem.env ("100" +:+ "%%!(NOVERB)") "cf" "c" (bytesOf "v") 0.
Proof.
  exact (proj2 (proj2 (checksum_confuses_percent_keys Mem.env "100" "cf" "c" (bytesOf "v") 0 eq_refl))).
Defined.

(** ** Timestamps on the way out and back *)

Lemma rem_bound_neg a b : a <= 0 -> 0 < b -> - b < Z.rem a b <= 0.
Proof.
  intros Ha Hb. pose proof (Z.rem_bound_pos (- a) b ltac:(lia) ltac:(lia)) as H.
  rewrite Z.rem_opp_l' in H. lia.
Qed.

(** [time.Unix(0, ts).UnixNano()] gives [ts] back, over the whole of
    int64. *)
Lemma UnixNano_Unix ts : - 2 ^ 63 <= ts < 2 ^ 63 -> Time.UnixNano (Time.Unix 0 ts) = ts.
Proof.
  intros Hts. unfold Time.Unix.
  pose proof (Z.quot_rem' ts 1000000000) as Hqr.
  pow_consts.
  destruct ((ts <? 0) || (ts >=? 1000000000)) eqn:Hc.
  - assert (Hq : - 9223372037 <= Z.quot ts 1000000000 <= 9223372037).
    { destruct (Z.le_gt_cases 0 ts).
      - pose proof (Z.rem_bound_pos ts 1000000000 ltac:(lia) ltac:(lia)). lia.
      - pose proof (rem_bound_neg ts 1000000000 ltac:(lia) ltac:(lia)). lia. }
    rewrite Z.add_0_l, (wrap64_small (Z.quot ts 1000000000)) by (pow_consts; lia).
    destruct (ts - Z.quot ts 1000000000 * 1000000000 <? 0) eqn:Hn.
    + unfold Time.UnixNano. cbn [Time.sec Time.nsec]. pow_consts.
      rewrite (wrap64_small (Z.quot ts 1000000000 - 1)) by (pow_consts; lia).
      rewrite wrap64_small by (pow_consts; lia). lia.
    + unfold Time.UnixNano. cbn [Time.sec Time.nsec]. pow_consts.
      rewrite wrap64_small by (pow_consts; lia). lia.
  - unfold Time.UnixNano. cbn [Time.sec Time.nsec]. pow_consts.
    rewrite wrap64_small by (pow_consts; lia). lia.
Qed.

(** The timestamp that [RestoreTable] sets for a snapshot timestamp. *)
Lemma entry_timestamp r :
  - 2 ^ 63 <= timestamp r < 2 ^ 63 ->
  entry r =
    (key r,
     [Bigtable.mkSetCell (column_family r) (column r)
        (if Z.quot (timestamp r) 1000 =? -1 then -1 else 1000 * Z.quot (timestamp r) 1000000)
        (value r)]).
Proof.
  intros Hts. unfold entry, Bigtable.Set_, Bigtable.NewMutation, Bigtable.Time. cbn [app].
  rewrite UnixNano_Unix by done. do 3 f_equal.
  unfold Bigtable.TruncateToMilliseconds, Bigtable.ServerTime.
  destruct (Z.quot (timestamp r) 1000 =? -1) eqn:H1; [by apply Z.eqb_eq in H1|].
  pose proof (Z.quot_rem' (Z.quot (timestamp r) 1000) 1000) as Hqr.
  pose proof (Z.quot_rem' (timestamp r) 1000) as Hqr0.
  replace (Z.quot (timestamp r) 1000000) with (Z.quot (Z.quot (timestamp r) 1000) 1000)
    by (rewrite Z.quot_quot by lia; reflexivity).
  pow_consts.
  assert (Hb : - 9223372036854775808 <= Z.quot (timestamp r) 1000 - Z.rem (Z.quot (timestamp r) 1000) 1000
               < 9223372036854775808).
  { destruct (Z.le_gt_cases 0 (timestamp r)).
    - pose proof (Z.rem_bound_pos (timestamp r) 1000 ltac:(lia) ltac:(lia)).
      assert (0 <= Z.quot (timestamp r) 1000) by (apply Z.quot_pos; lia).
      pose proof (Z.rem_bound_pos (Z.quot (timestamp r) 1000) 1000 ltac:(lia) ltac:(lia)). lia.
    - pose proof (rem_bound_neg (timestamp r) 1000 ltac:(lia) ltac:(lia)).
      assert (Z.quot (timestamp r) 1000 <= 0) by lia.
      pose proof (rem_bound_neg (Z.quot (timestamp r) 1000) 1000 ltac:(lia) ltac:(lia)). lia. }
  rewrite wrap64_small by (pow_consts; lia). lia.
Qed.

(** X14. [RestoreTable] sets each cell at the timestamp of the snapshot
    row cut to whole milliseconds: the microseconds and nanoseconds below
    a millisecond are dropped (toward zero). A snapshot timestamp from
    -1999 to -1000 nanoseconds gives -1, which Bigtable takes as the time
    of the server. The family, the column and the value are passed as
    they are: the column is not qualified with the family again. *)
Theorem restore_cuts_to_milliseconds r :
  - 2 ^ 63 <= timestamp r < 2 ^ 63 ->
  entry r =
    (key r,
     [Bigtable.mkSetCell (column_family r) (column r)
        (if Z.quot (timestamp r) 1000 =? -1 then -1 else 1000 * Z.quot (timestamp r) 1000000)
        (value r)]) /\
  (0 <= timestamp r ->
   (entry r).2 =
     [Bigtable.mkSetCell (column_family r) (column r) (1000 * (timestamp r / 1000000)) (value r)]) /\
  (- 1999 <= timestamp r <= - 1000 ->
   (entry r).2 =
     [Bigtable.mkSetCell (column_family r) (column r) Bigtable.ServerTime (value r)]).
Proof.
  intros Hts. pose proof (entry_timestamp r Hts) as He. split; [exact He|]. split.
  - intros Hpos. rewrite He. cbn [snd].
    destruct (Z.quot (timestamp r) 1000 =? -1) eqn:H1.
    + apply Z.eqb_eq in H1. assert (0 <= Z.quot (timestamp r) 1000) by (apply Z.quot_pos; lia). lia.
    + by rewrite Z.quot_div_nonneg by lia.
  - intros Hneg. rewrite He. cbn [snd].
    assert (Hq : Z.quot (timestamp r) 1000 = -1).
    { assert (H1 : 1 = Z.quot (- timestamp r) 1000)
        by (apply (Z.quot_unique _ _ _ (- timestamp r - 1000)); lia).
      rewrite Z.quot_opp_l in H1 by lia. lia. }
    by rewrite Hq.
Qed.

Lemma restore_cuts_to_milliseconds_witness :
  (entry (mkSnapRow "r" "cf" "c" [] 1600000000123456789 0)).2 =
    [Bigtable.mkSetCell "cf" "c" 1600000000123000 []] /\
  (entry (mkSnapRow "r" "cf" "c" [] (-1500) 0)).2 = [Bigtable.mkSetCell "cf" "c" (-1) []].
Proof.
  split.
  - exact (proj1 (proj2 (restore_cuts_to_milliseconds (mkSnapRow "r" "cf" "c" [] 1600000000123456789 0)
                           ltac:(simpl; lia))) ltac:(simpl; lia)).
  - exact (proj2 (proj2 (restore_cuts_to_milliseconds (mkSnapRow "r" "cf" "c" [] (-1500) 0)
                           ltac:(simpl; lia))) ltac:(simpl; lia)).
Defined.

(** The time of a Bigtable timestamp is the time of its nanoseconds, as
    long as these fit in an int64. *)
Lemma Timestamp_Time_Unix ts :
  - 2 ^ 63 <= ts * 1000 < 2 ^ 63 -> Bigtable.Timestamp_Time ts = Time.Unix 0 (ts * 1000).
Proof.
  intros Hfit. destruct (Z.le_gt_cases 0 ts) as [Hpos|Hneg].
  { apply Timestamp_Time_nanos; lia. }
  pose proof (Z.quot_rem' ts 1000000) as Hqr.
  pose proof (rem_bound_neg ts 1000000 ltac:(lia) ltac:(lia)) as Hr.
  assert (Hq : Z.quot (ts * 1000) 1000000000 = Z.quot ts 1000000).
  { change 1000000000 with (1000000 * 1000). apply Z.quot_mul_cancel_r; lia. }
  unfold Bigtable.Timestamp_Time, Time.Unix. pow_consts. rewrite Hq.
  set (q := Z.quot ts 1000000) in *. set (r := Z.rem ts 1000000) in *.
  assert (Hqb : - 9223372036854 <= q <= 0) by lia.
  replace (ts * 1000 <? 0) with true by (symmetry; apply Z.ltb_lt; lia). cbn [orb].
  rewrite Z.add_0_l, (wrap64_small q) by (pow_consts; lia).
  replace (ts * 1000 - q * 1000000000) with (r * 1000) by lia.
  destruct (Z.eq_dec r 0) as [Hr0|Hr0].
  - rewrite Hr0. cbn. done.
  - replace (r * 1000 <? 0) with true by (symmetry; apply Z.ltb_lt; lia). cbn [orb].
    replace (Z.quot (r * 1000) 1000000000) with 0.
    2:{ symmetry. apply Z.quot_small_iff; [lia|]. lia. }
    rewrite Z.add_0_r, (wrap64_small q) by (pow_consts; lia).
    replace (r * 1000 - 0 * 1000000000) with (r * 1000) by lia.
    replace (r * 1000 <? 0) with true by (symmetry; apply Z.ltb_lt; lia). done.
Qed.

Section SavedRows.
Context (E : Env).

(** X15. A row that [SaveTable] writes for an item whose timestamp
    fits, in nanoseconds, in an int64 holds that timestamp in nanoseconds
    and passes the integrity check of [RestoreTable], in whatever time
    zone the process runs: the two pipelines hash the same instant. When
    the timestamp is a whole number of milliseconds from the epoch on,
    the mutation that [RestoreTable] builds from the row sets the cell at
    the timestamp of the item, with its value. *)
Theorem saved_row_passes_check cf item :
  - 2 ^ 63 <= ReadItem.Timestamp item * 1000 < 2 ^ 63 ->
  timestamp (snapRow E cf item) = ReadItem.Timestamp item * 1000 /\
  verified E (snapRow E cf item) /\
  (0 <= ReadItem.Timestamp item -> ReadItem.Timestamp item mod 1000 = 0 ->
   entry (snapRow E cf item) =
     (ReadItem.Row item,
      [Bigtable.mkSetCell cf (Strings.TrimPrefix (ReadItem.Column item) (cf +:+ ":"))
         (ReadItem.Timestamp item) (ReadItem.Value item)])).
Proof.
  intros Hfit.
  pose proof (Timestamp_Time_Unix _ Hfit) as Htime.
  assert (Hn : Time.UnixNano (Bigtable.Timestamp_Time (ReadItem.Timestamp item)) =
               ReadItem.Timestamp item * 1000).
  { rewrite Htime. by apply UnixNano_Unix. }
  split; [exact Hn|]. split.
  - unfold verified, snapRow. simpl. unfold saveSum, restoreSum. by rewrite Hn, Htime.
  - intros Hpos Hms. unfold entry, snapRow. simpl. rewrite Hn.
    unfold Bigtable.Set_, Bigtable.NewMutation. cbn [app]. by rewrite restored_timestamp by lia.
Qed.

End SavedRows.

Lemma saved_row_passes_check_witness :
  timestamp (snapRow (Mem.envAt (fun _ => 3600)) "cf1" cf1Item) = 1600000000000000000 /\
  verified (Mem.envAt (fun _ => 3600)) (snapRow (Mem.envAt (fun _ => 3600)) "cf1" cf1Item).
Proof.
  destruct (saved_row_passes_check (Mem.envAt (fun _ => 3600)) "cf1" cf1Item ltac:(simpl; lia))
    as (H1 & H2 & _).
  split; [exact H1|exact H2].
Defined.

(** ** The in-memory store, table by table *)

Lemma Mem_lookup_update_ne {A} n m (f : A -> A) (l : list (string * A)) :
  n <> m -> Mem.lookup n (Mem.update m f l) = Mem.lookup n l.
Proof.
  intros Hne. induction l as [|[k a] l IH]; [done|]. cbn [Mem.update Mem.lookup].
  destruct (decide (k = m)) as [->|Hkm]; cbn [Mem.lookup].
  - by rewrite !decide_False by done.
  - destruct (decide (k = n)); [done|exact IH].
Qed.

Lemma Mem_fst_update {A} m (f : A -> A) (l : list (string * A)) : (Mem.update m f l).*1 = l.*1.
Proof.
  induction l as [|[k a] l IH]; [done|]. cbn [Mem.update].
  destruct (decide (k = m)); [done|]. rewrite !fmap_cons. by rewrite IH.
Qed.

Lemma Mem_lookup_remove_ne {A} n m (l : list (string * A)) :
  ~ Mem.sameName n m -> Mem.lookup n (Mem.remove m l) = Mem.lookup n l.
Proof.
  intros Hne. induction l as [|[k a] l IH]; [done|]. cbn [Mem.remove Mem.lookup].
  destruct (decide (Mem.sameName k m)) as [Hkm|Hkm]; cbn [Mem.lookup].
  - rewrite decide_False; [done|]. by intros ->.
  - destruct (decide (k = n)); [done|exact IH].
Qed.

Lemma Mem_lookup_app {A} n (l1 l2 : list (string * A)) :
  Mem.lookup n (l1 ++ l2) =
    match Mem.lookup n l1 with Some a => Some a | None => Mem.lookup n l2 end.
Proof.
  induction l1 as [|[k a] l1 IH]; [done|]. cbn [Mem.lookup app].
  destruct (decide (k = n)); [done|exact IH].
Qed.

Lemma Mem_lookup_is_Some {A} n (l : list (string * A)) :
  is_Some (Mem.lookup n l) <-> n ∈ l.*1.
Proof.
  induction l as [|[k a] l IH]; cbn [Mem.lookup].
  - split; [by intros [? ?]|by intros ?%elem_of_nil].
  - rewrite fmap_cons, elem_of_cons. cbn [fst]. destruct (decide (k = n)) as [->|Hne].
    + split; [by left|by eexists].
    + rewrite IH. split; [by right|]. intros [?|?]; [congruence|done].
Qed.

Lemma Mem_lookup_None {A} n (l : list (string * A)) :
  Mem.lookup n l = None <-> n ∉ l.*1.
Proof.
  rewrite <-Mem_lookup_is_Some. apply eq_None_not_Some.
Qed.

Lemma Mem_fst_remove {A} m (l : list (string * A)) :
  (Mem.remove m l).*1 = filter (fun k => ~ Mem.sameName k m) l.*1.
Proof.
  induction l as [|[k a] l IH]; [done|]. cbn [Mem.remove]. rewrite fmap_cons. cbn [fst].
  destruct (decide (Mem.sameName k m)) as [Hs|Hne].
  - rewrite filter_cons_False by (by intros ?). exact IH.
  - rewrite filter_cons_True by done. rewrite fmap_cons. by rewrite IH.
Qed.

(** An update that puts back what is there changes nothing. *)
Lemma Mem_update_const {A} n (f : A -> A) a (l : list (string * A)) :
  Mem.lookup n l = Some a -> Mem.update n f l = Mem.update n (fun _ => f a) l.
Proof.
  induction l as [|[k b] l IH]; [done|]. cbn [Mem.lookup Mem.update].
  destruct (decide (k = n)); [by intros [= ->]|]. intros H. by rewrite IH.
Qed.

(** A bulk write, whatever its answer, changes at most the table it is
    on. *)
Lemma Mem_ApplyBulk_frame table keys muts w :
  exists f,
    (Mem.ApplyBulk table keys muts w).2 =
      Mem.mkWorld (Mem.update table f (Mem.bt w)) (Mem.clock w) (Mem.mapSeed w) (Mem.db w).
Proof.
  unfold Mem.ApplyBulk.
  destruct (negb (length keys =? length muts)%nat).
  { exists (fun t => t). cbn [snd]. rewrite Mem_update_id. by destruct w. }
  destruct (Mem.lookup table (Mem.bt w)) as [t|].
  - destruct (Mem.applyEntries (Mem.clock w) (zip keys muts) t) as [errs t'].
    by exists (fun _ => t').
  - exists (fun t => t). cbn [snd]. rewrite Mem_update_id. by destruct w.
Qed.

Lemma Mem_applyBulk_frame table keys muts (s : State Mem.env) :
  exists f,
    world (applyBulk Mem.env table keys muts s).2 =
      Mem.mkWorld (Mem.update table f (Mem.bt (world s))) (Mem.clock (world s))
        (Mem.mapSeed (world s)) (Mem.db (world s)).
Proof.
  destruct (Mem_ApplyBulk_frame table keys muts (world s)) as (f & Hf). exists f.
  unfold applyBulk, callApplyBulk, bind. change (ApplyBulk Mem.env) with Mem.ApplyBulk.
  destruct (Mem.ApplyBulk table keys muts (world s)) as [[errs err] w]. cbn [snd] in Hf. subst w.
  destruct err; [done|]. by destruct (filterErrors errs).
Qed.

Lemma Mem_restoreRows_frame table rows : forall c keys muts (s : State Mem.env),
  exists f,
    world (restoreRows Mem.env table rows c keys muts s).2 =
      Mem.mkWorld (Mem.update table f (Mem.bt (world s))) (Mem.clock (world s))
        (Mem.mapSeed (world s)) (Mem.db (world s)).
Proof.
  induction rows as [|r rows IH]; intros c keys muts s.
  - exists (fun t => t). cbn [restoreRows ret snd]. rewrite Mem_update_id. by destruct (world s).
  - destruct r as [[k cf col v ts ch]|err].
    2:{ exists (fun t => t). cbn [restoreRows ret snd]. rewrite Mem_update_id. by destruct (world s). }
    cbn [restoreRows].
    destruct (negb (ch =? restoreSum Mem.env k cf col v ts)).
    { exists (fun t => t). cbn [ret snd]. rewrite Mem_update_id. by destruct (world s). }
    destruct (length (muts ++ _) =? 100)%nat; [|apply IH].
    unfold bind.
    match goal with |- context [applyBulk Mem.env table ?ks ?ms s] =>
      destruct (Mem_applyBulk_frame table ks ms s) as (f & Hf);
      destruct (applyBulk Mem.env table ks ms s) as [[e|] s1] end; cbn [snd] in Hf.
    + by exists f.
    + destruct (IH (c + 1) [] [] s1) as (g & Hg). exists (fun t => g (f t)).
      rewrite Hg, Hf. cbn [Mem.bt Mem.clock Mem.mapSeed Mem.db]. by rewrite Mem_update_update.
Qed.

Lemma Mem_RestoreTable_frame table (s : State Mem.env) :
  exists f,
    world (RestoreTable Mem.env table s).2 =
      Mem.mkWorld (Mem.update table f (Mem.bt (world s))) (Mem.clock (world s))
        (Mem.mapSeed (world s)) (Mem.db (world s)).
Proof.
  unfold RestoreTable, bind, logPrintf, emit, call. cbn [world trace].
  change (QueryRows Mem.env) with Mem.QueryRows. unfold Mem.QueryRows.
  destruct (Mem.find table (Mem.db (world s))) as [[stored rows]|].
  2:{ exists (fun t => t). cbn [ret snd world]. rewrite Mem_update_id. by destruct (world s). }
  match goal with |- context [restoreRows Mem.env table ?rs 0 [] [] ?s'] =>
    destruct (Mem_restoreRows_frame table rs 0 [] [] s') as (f & Hf);
    destruct (restoreRows Mem.env table rs 0 [] [] s') as [[e|[[c keys] muts]] s1] end;
    cbn [snd world] in Hf.
  - by exists f.
  - destruct (0 <? length muts)%nat.
    + destruct (Mem_applyBulk_frame table keys muts s1) as (g & Hg).
      destruct (applyBulk Mem.env table keys muts s1) as [[e|] s2]; cbn [snd] in Hg.
      * exists (fun t => g (f t)). cbn [ret snd]. rewrite Hg, Hf.
        cbn [Mem.bt Mem.clock Mem.mapSeed Mem.db]. by rewrite Mem_update_update.
      * exists (fun t => g (f t)). cbn [ret snd world]. rewrite Hg, Hf.
        cbn [Mem.bt Mem.clock Mem.mapSeed Mem.db]. by rewrite Mem_update_update.
    + by exists f.
Qed.

Lemma knownFamilies_entry t r :
  column_family r ∈ Mem.families t -> Mem.knownFamilies t (entry r).2 = true.
Proof.
  intros H. unfold Mem.knownFamilies, entry, Bigtable.Set_, Bigtable.NewMutation.
  cbn [snd app forallb Bigtable.FamilyName]. by rewrite bool_decide_eq_true_2.
Qed.

(** [RestoreTable] in memory, on a snapshot table whose rows are verified
    and of families that the remote table has: it returns nil and leaves
    the store as it was but for the remote table, to which the entries of
    the rows were applied in order. *)
Lemma Mem_RestoreTable table t0 rows (s : State Mem.env) :
  Mem.lookup table (Mem.bt (world s)) = Some t0 ->
  Mem.lookup table (Mem.db (world s)) = Some rows ->
  Forall (verified Mem.env) rows ->
  Forall (fun r => column_family r ∈ Mem.families t0) rows ->
  (RestoreTable Mem.env table s).1 = None /\
  world (RestoreTable Mem.env table s).2 =
    Mem.mkWorld
      (Mem.update table
         (fun _ => Mem.mkTable (Mem.families t0)
                     (applyAll (Mem.clock (world s)) (entry <$> rows) (Mem.cells t0)))
         (Mem.bt (world s)))
      (Mem.clock (world s)) (Mem.mapSeed (world s)) (Mem.db (world s)).
Proof.
  intros Ht Hdb Hv Hfam.
  assert (Hk : Forall (fun r => Mem.knownFamilies t0 (entry r).2 = true) rows).
  { eapply Forall_impl; [exact Hfam|]. intros r. apply knownFamilies_entry. }
  assert (Hmain : (RestoreTable Mem.env table s).1 = None /\
    Mem.lookup table (Mem.bt (world (RestoreTable Mem.env table s).2)) =
      Some (Mem.mkTable (Mem.families t0)
              (applyAll (Mem.clock (world s)) (entry <$> rows) (Mem.cells t0)))).
  { assert (Hq : QueryRows Mem.env table (world s) = (ok (ok <$> rows), world s)).
    { change (QueryRows Mem.env) with Mem.QueryRows. by apply Mem_QueryRows. }
    rewrite (RestoreTable_rows Mem.env table s _ _ Hq).
    set (s1 := mkState (E := Mem.env) (world s)
                 ((trace s ++ [EvLog (Restoring table)]) ++ [EvQueryRows table])).
    destruct (Mem_restoreRows table rows 0 [] s1 t0 Ht Hv Hk) as
      (flushed & p & H1 & H2 & H3 & H4 & H5); [done|simpl; lia|].
    change ((@nil (string * Bigtable.Mutation)).*1) with (@nil string) in *.
    change ((@nil (string * Bigtable.Mutation)).*2) with (@nil Bigtable.Mutation) in *.
    destruct (restoreRows Mem.env table (ok <$> rows) 0 [] [] s1) as [r s2].
    cbn [fst snd world] in *. subst r. rewrite app_nil_l in H2. rewrite <-H2.
    destruct (0 <? length p.*2)%nat eqn:Hp.
    - unfold applyBulk, callApplyBulk, bind. change (ApplyBulk Mem.env) with Mem.ApplyBulk.
      rewrite (Mem_ApplyBulk table p (world s2) _ H4 H3). cbn [filterErrors ret fst snd world].
      split; [done|]. cbn [Mem.bt Mem.families Mem.cells].
      rewrite Mem_lookup_update, H4. cbn [fmap option_fmap option_map].
      by rewrite H5, <-applyAll_app.
    - cbn [fst snd world]. split; [done|].
      assert (p = []) as ->.
      { apply Nat.ltb_ge in Hp. rewrite length_fmap in Hp. destruct p; [done|simpl in Hp; lia]. }
      by rewrite app_nil_r. }
  destruct Hmain as [Hnil Hl]. split; [done|].
  destruct (Mem_RestoreTable_frame table s) as (f & Hf). rewrite Hf in Hl |- *.
  cbn [Mem.bt] in Hl. rewrite Mem_lookup_update, Ht in Hl. injection Hl as Hl.
  by rewrite (Mem_update_const table f t0 _ Ht), Hl.
Qed.

(** ** Restore in memory *)

Lemma Mem_dropTables tables : forall s : State Mem.env,
  Forall (fun n => n ∈ (Mem.bt (world s)).*1) tables ->
  (dropTables Mem.env tables s).1 = None /\
  exists bt',
    world (dropTables Mem.env tables s).2 =
      Mem.mkWorld bt' (Mem.clock (world s)) (Mem.mapSeed (world s)) (Mem.db (world s)) /\
    bt'.*1 = (Mem.bt (world s)).*1 /\
    forall n, Mem.lookup n bt' =
      if decide (n ∈ tables) then cleared <$> Mem.lookup n (Mem.bt (world s))
      else Mem.lookup n (Mem.bt (world s)).
Proof.
  induction tables as [|table tables IH]; intros s Hall.
  - cbn [dropTables ret fst snd]. split; [done|]. exists (Mem.bt (world s)). split; [by destruct (world s)|]. split; [done|].
    intros n. rewrite decide_False; [done|]. by intros ?%elem_of_nil.
  - apply Forall_cons in Hall as [Hin Hall].
    apply Mem_lookup_is_Some in Hin as [t Ht].
    cbn [dropTables]. unfold bind, call. change (DropAllRows Mem.env) with Mem.DropAllRows.
    unfold Mem.DropAllRows. rewrite Ht.
    match goal with |- context [dropTables Mem.env tables ?s'] =>
      destruct (IH s') as (Hnil & bt' & Hw & Hfst & Hl) end.
    { cbn [world Mem.bt]. by rewrite Mem_fst_update. }
    split; [done|]. exists bt'. cbn [world Mem.bt Mem.clock Mem.mapSeed Mem.db] in *.
    split; [done|]. split; [by rewrite Hfst, Mem_fst_update|].
    intros n. rewrite Hl. destruct (decide (n = table)) as [->|Hne].
    + rewrite Mem_lookup_update, Ht. rewrite (decide_True (P := table ∈ table :: tables)) by (by left).
      by destruct (decide (table ∈ tables)).
    + rewrite Mem_lookup_update_ne by done.
      destruct (decide (n ∈ tables)) as [Hn|Hn].
      * rewrite decide_True; [done|]. by right.
      * rewrite decide_False; [done|]. by intros [?|?]%elem_of_cons.
Qed.

Lemma Mem_restoreTables names : forall s : State Mem.env,
  NoDup names ->
  (forall n, n ∈ names ->
     exists t0 rows,
       Mem.lookup n (Mem.bt (world s)) = Some t0 /\ Mem.lookup n (Mem.db (world s)) = Some rows /\
       Forall (verified Mem.env) rows /\
       Forall (fun r => column_family r ∈ Mem.families t0) rows) ->
  (restoreTables Mem.env (ok <$> names) s).1 = None /\
  exists bt',
    world (restoreTables Mem.env (ok <$> names) s).2 =
      Mem.mkWorld bt' (Mem.clock (world s)) (Mem.mapSeed (world s)) (Mem.db (world s)) /\
    bt'.*1 = (Mem.bt (world s)).*1 /\
    forall n, Mem.lookup n bt' =
      if decide (n ∈ names)
      then (fun t0 => Mem.mkTable (Mem.families t0)
              (applyAll (Mem.clock (world s))
                 (entry <$> default [] (Mem.lookup n (Mem.db (world s)))) (Mem.cells t0)))
             <$> Mem.lookup n (Mem.bt (world s))
      else Mem.lookup n (Mem.bt (world s)).
Proof.
  induction names as [|name names IH]; intros s Hnd Hall.
  - cbn [fmap list_fmap restoreTables ret fst snd]. split; [done|]. exists (Mem.bt (world s)). split; [by destruct (world s)|]. split; [done|].
    intros n. rewrite decide_False; [done|]. by intros ?%elem_of_nil.
  - apply NoDup_cons in Hnd as [Hnotin Hnd].
    destruct (Hall name) as (t0 & rows & Ht & Hdb & Hv & Hfam); [by left|].
    rewrite fmap_cons. cbn [restoreTables]. unfold bind.
    destruct (Mem_RestoreTable name t0 rows s Ht Hdb Hv Hfam) as [Hnil Hw].
    destruct (RestoreTable Mem.env name s) as [r s1]. cbn [fst snd] in *. subst r.
    destruct (IH s1 Hnd) as (Hnil' & bt' & Hw' & Hfst & Hl).
    { intros n Hn. destruct (Hall n) as (t & rs & H1 & H2 & H3 & H4); [by right|].
      exists t, rs. rewrite Hw. cbn [Mem.bt Mem.db].
      rewrite Mem_lookup_update_ne by (intros ->; done). done. }
    split; [done|]. exists bt'. rewrite Hw in Hw', Hfst, Hl.
    cbn [Mem.bt Mem.clock Mem.mapSeed Mem.db] in *.
    split; [done|]. split; [by rewrite Hfst, Mem_fst_update|].
    intros n. rewrite Hl. destruct (decide (n = name)) as [->|Hne].
    + rewrite decide_False by done. rewrite (decide_True (P := name ∈ name :: names)) by (by left).
      rewrite Mem_lookup_update, Ht, Hdb. done.
    + rewrite Mem_lookup_update_ne by done.
      destruct (decide (n ∈ names)) as [Hn|Hn].
      * rewrite decide_True; [done|]. by right.
      * rewrite decide_False; [done|]. by intros [?|?]%elem_of_cons.
Qed.

(** [Restore] in memory. *)
Lemma Mem_Restore (s : State Mem.env) :
  NoDup (userTables (world s)) ->
  (forall n rows, n ∈ userTables (world s) -> Mem.lookup n (Mem.db (world s)) = Some rows ->
     exists t, Mem.lookup n (Mem.bt (world s)) = Some t /\
       Forall (verified Mem.env) rows /\
       Forall (fun r => column_family r ∈ Mem.families t) rows) ->
  (Restore Mem.env s).1 = None /\
  Mem.db (world (Restore Mem.env s).2) = Mem.db (world s) /\
  Mem.clock (world (Restore Mem.env s).2) = Mem.clock (world s) /\
  (Mem.bt (world (Restore Mem.env s).2)).*1 = (Mem.bt (world s)).*1 /\
  forall n t, Mem.lookup n (Mem.bt (world s)) = Some t ->
    Mem.lookup n (Mem.bt (world (Restore Mem.env s).2)) =
      Some (Mem.mkTable (Mem.families t) (snapshotCells (world s) n)).
Proof.
  intros Hnd Hall.
  assert (HT : Tables Mem.env (world s) = (ok (Mem.bt (world s)).*1, world s)) by done.
  rewrite (Restore_eq Mem.env s _ _ HT).
  set (s1 := mkState (E := Mem.env) (world s) (trace s ++ [EvTables])).
  destruct (Mem_dropTables (Sort.Strings (Mem.bt (world s)).*1) s1) as (Hnil & bt1 & Hw1 & Hfst1 & Hl1).
  { apply Forall_forall. intros n Hn. by rewrite Strings_Permutation in Hn. }
  destruct (dropTables Mem.env (Sort.Strings (Mem.bt (world s)).*1) s1) as [r s2].
  cbn [fst snd world] in *. subst r.
  assert (Hl1' : forall n, Mem.lookup n bt1 = cleared <$> Mem.lookup n (Mem.bt (world s))).
  { intros n. rewrite Hl1. destruct (decide (n ∈ Sort.Strings (Mem.bt (world s)).*1)) as [Hn|Hn]; [done|].
    rewrite Strings_Permutation in Hn. apply Mem_lookup_None in Hn. by rewrite Hn. }
  assert (HQ : QueryTables Mem.env (world s2) = (ok (ok <$> userTables (world s)), world s2)).
  { change (QueryTables Mem.env) with Mem.QueryTables. unfold Mem.QueryTables, userTables.
    by rewrite Hw1. }
  rewrite HQ.
  set (s3 := mkState (E := Mem.env) (world s2) (trace s2 ++ [EvQueryTables])).
  destruct (Mem_restoreTables (userTables (world s)) s3 Hnd) as (Hnil3 & bt3 & Hw3 & Hfst3 & Hl3).
  { intros n Hn. unfold s3. cbn [world]. rewrite Hw1. cbn [Mem.bt Mem.db].
    assert (Hdb : is_Some (Mem.lookup n (Mem.db (world s)))).
    { apply Mem_lookup_is_Some. unfold userTables in Hn. by apply list_elem_of_filter in Hn as [_ ?]. }
    destruct Hdb as [rows Hdb].
    destruct (Hall n rows Hn Hdb) as (t & Ht & Hv & Hfam).
    exists (cleared t), rows. rewrite Hl1', Ht. done. }
  split; [done|]. rewrite Hw3. subst s3. cbn [world] in *. rewrite Hw1 in Hfst3, Hl3 |- *.
  cbn [Mem.bt Mem.clock Mem.mapSeed Mem.db] in *.
  split; [done|]. split; [done|]. split; [by rewrite Hfst3|].
  intros n t Ht. rewrite Hl3, Hl1', Ht. unfold snapshotCells.
  by destruct (decide (n ∈ userTables (world s))).
Qed.

(** X16. [Restore] replaces, it does not merge. In memory, when the
    user tables of the snapshot have distinct names, exist in the
    instance, and hold verified rows of families that their remote table
    has, [Restore] returns nil, leaves the snapshot as it was, and leaves
    in every remote table exactly the cells of the snapshot table of that
    name: a remote table without a user table of its name in the snapshot
    ends up empty. *)
Theorem restore_replaces_the_store (s : State Mem.env) :
  NoDup (userTables (world s)) ->
  (forall n rows, n ∈ userTables (world s) -> Mem.lookup n (Mem.db (world s)) = Some rows ->
     exists t, Mem.lookup n (Mem.bt (world s)) = Some t /\
       Forall (verified Mem.env) rows /\
       Forall (fun r => column_family r ∈ Mem.families t) rows) ->
  (Restore Mem.env s).1 = None /\
  Mem.db (world (Restore Mem.env s).2) = Mem.db (world s) /\
  (Mem.bt (world (Restore Mem.env s).2)).*1 = (Mem.bt (world s)).*1 /\
  forall n t, Mem.lookup n (Mem.bt (world s)) = Some t ->
    Mem.lookup n (Mem.bt (world (Restore Mem.env s).2)) =
      Some (Mem.mkTable (Mem.families t) (snapshotCells (world s) n)).
Proof.
  intros Hnd Hall. destruct (Mem_Restore s Hnd Hall) as (H1 & H2 & _ & H3 & H4). done.
Qed.

Lemma restore_replaces_the_store_witness :
  NoDup (userTables (world zeroState)) /\
  (Restore Mem.env zeroState).1 = None /\
  Mem.lookup "t" (Mem.bt (world (Restore Mem.env zeroState).2)) =
    Some (Mem.mkTable ["cf"; "meta"] (snapshotCells (world zeroState) "t")) /\
  snapshotCells (world zeroState) "t" = {[ ("row0", "cf", "c", 1600000000000000) := bytesOf "v" ]}.
Proof.
  assert (H1 : NoDup (userTables (world zeroState)))
    by (apply (bool_decide_unpack _); vm_compute; exact I).
  assert (H2 : forall n rows, n ∈ userTables (world zeroState) ->
            Mem.lookup n (Mem.db (world zeroState)) = Some rows ->
            exists t, Mem.lookup n (Mem.bt (world zeroState)) = Some t /\
              Forall (verified Mem.env) rows /\
              Forall (fun r => column_family r ∈ Mem.families t) rows).
  { intros n rows Hn Hdb.
    change (userTables (world zeroState)) with ["t"] in Hn.
    apply list_elem_of_singleton in Hn. subst n.
    change (Mem.lookup "t" (Mem.db (world zeroState))) with (Some [sampleRow 0]) in Hdb.
    injection Hdb as <-. exists zeroTable. split; [reflexivity|].
    split; apply (bool_decide_unpack _); vm_compute; exact I. }
  split; [exact H1|].
  destruct (restore_replaces_the_store zeroState H1 H2) as (Hnil & _ & _ & Hl).
  split; [exact Hnil|]. split; [exact (Hl "t" zeroTable eq_refl)|].
  vm_compute. reflexivity.
Defined.

(** ** SaveAll in memory *)

Lemma Mem_lookup_saved {A} n table (rows : A) (db : list (string * A)) :
  Mem.lookup n (Mem.remove table db ++ [(table, rows)]) =
    if decide (n = table) then Some rows
    else if decide (Mem.sameName n table) then None else Mem.lookup n db.
Proof.
  destruct (decide (n = table)) as [->|Hne].
  - rewrite Mem_lookup_app_None by apply Mem_lookup_remove. cbn [Mem.lookup].
    by rewrite decide_True.
  - rewrite Mem_lookup_app. cbn [Mem.lookup]. rewrite (decide_False (P := table = n)) by done.
    destruct (decide (Mem.sameName n table)) as [Hs|Hs].
    + assert (Hnone : Mem.lookup n (Mem.remove table db) = None); [|by rewrite Hnone].
      apply eq_None_not_Some. intros Hsome. apply Mem_lookup_is_Some in Hsome.
      rewrite Mem_fst_remove in Hsome. by apply list_elem_of_filter in Hsome as [? _].
    + rewrite Mem_lookup_remove_ne by done. by destruct (Mem.lookup n db).
Qed.

Lemma Mem_fst_saved {A} table (rows : A) (db : list (string * A)) :
  (Mem.remove table db ++ [(table, rows)]).*1 =
    filter (fun k => ~ Mem.sameName k table) db.*1 ++ [table].
Proof. by rewrite fmap_app, Mem_fst_remove. Qed.

(** The loop of [SaveAll] in memory, on tables that the instance has,
    whose names are not reserved and differ in more than the case of
    their letters. *)
Lemma Mem_saveTables tables : forall s : State Mem.env,
  Forall (fun n => n ∈ (Mem.bt (world s)).*1) tables ->
  Forall (fun n => Mem.reserved n = false) tables ->
  NoDup (Mem.lowerString <$> tables) ->
  (saveTables Mem.env tables s).1 = None /\
  exists seed' db',
    world (saveTables Mem.env tables s).2 =
      Mem.mkWorld (Mem.bt (world s)) (Mem.clock (world s)) seed' db' /\
    (forall n, (forall m, m ∈ tables -> ~ Mem.sameName n m) ->
       Mem.lookup n db' = Mem.lookup n (Mem.db (world s))) /\
    (forall n t, n ∈ tables -> Mem.lookup n (Mem.bt (world s)) = Some t ->
       exists seed, Mem.lookup n db' = Some (snapRows Mem.env (Mem.scan seed t))) /\
    (forall n, n ∈ db'.*1 -> n ∈ (Mem.db (world s)).*1 \/ n ∈ tables) /\
    (NoDup (Mem.db (world s)).*1 -> NoDup db'.*1).
Proof.
  induction tables as [|table tables IH]; intros s Hall Hres Hcase.
  - cbn [saveTables ret fst snd]. split; [done|].
    exists (Mem.mapSeed (world s)), (Mem.db (world s)). split; [by destruct (world s)|].
    split; [done|]. split; [by intros n t ?%elem_of_nil|]. split; [|done].
    intros n. by left.
  - apply Forall_cons in Hall as [Hin Hall]. apply Forall_cons in Hres as [Hres0 Hres].
    rewrite fmap_cons in Hcase. apply NoDup_cons in Hcase as [Hfresh Hcase].
    assert (Hother : forall m, m ∈ tables -> ~ Mem.sameName table m).
    { intros m Hm Hs. apply Hfresh. unfold Mem.sameName in Hs. rewrite Hs.
      apply list_elem_of_fmap. by exists m. }
    apply Mem_lookup_is_Some in Hin as [t Ht].
    cbn [saveTables]. unfold bind.
    destruct (Mem_SaveTable table t s Ht Hres0) as [Hnil Hw].
    destruct (SaveTable Mem.env table s) as [r s1]. cbn [fst snd] in *. subst r.
    destruct (IH s1) as (Hnil' & seed' & db' & Hw' & Hout & Hin & Hdom & Hnd).
    { by rewrite Hw. } { done. } { done. }
    split; [done|]. exists seed', db'. rewrite Hw in Hw', Hout, Hin, Hdom, Hnd.
    cbn [Mem.bt Mem.clock Mem.mapSeed Mem.db] in *.
    split; [done|]. split; [|split; [|split]].
    + intros n Hn. rewrite Hout by (intros m Hm; apply Hn; by right).
      assert (Hs : ~ Mem.sameName n table) by (apply Hn; by left).
      rewrite Mem_lookup_saved, decide_False, decide_False; [done|done|].
      intros ->. by apply Hs.
    + intros n t' Hn Ht'. destruct (decide (n ∈ tables)) as [Hn'|Hn']; [by eapply Hin|].
      apply elem_of_cons in Hn as [->|?]; [|done].
      rewrite Hout by done. rewrite Mem_lookup_saved, decide_True by done.
      rewrite Ht in Ht'. injection Ht' as <-. by eexists.
    + intros n Hn. apply Hdom in Hn as [Hn|Hn]; [|right; by right].
      rewrite Mem_fst_saved, elem_of_app, list_elem_of_filter, list_elem_of_singleton in Hn.
      destruct Hn as [[_ Hn]| ->]; [by left|right; by left].
    + intros Hnd0. apply Hnd. rewrite Mem_fst_saved. apply NoDup_app. split; [by apply NoDup_filter|].
      split; [|apply NoDup_singleton].
      intros n Hn Heq%list_elem_of_singleton. subst n.
      apply list_elem_of_filter in Hn as [Hn _]. by apply Hn.
Qed.

(** [SaveAll] in memory. *)
Lemma Mem_SaveAll (s : State Mem.env) :
  (forall n, n ∈ (Mem.bt (world s)).*1 -> Mem.reserved n = false) ->
  NoDup (Mem.lowerString <$> (Mem.bt (world s)).*1) ->
  (SaveAll Mem.env s).1 = None /\
  exists seed' db',
    world (SaveAll Mem.env s).2 =
      Mem.mkWorld (Mem.bt (world s)) (Mem.clock (world s)) seed' db' /\
    (forall n, (forall m, m ∈ (Mem.bt (world s)).*1 -> ~ Mem.sameName n m) ->
       Mem.lookup n db' = Mem.lookup n (Mem.db (world s))) /\
    (forall n t, Mem.lookup n (Mem.bt (world s)) = Some t ->
       exists seed, Mem.lookup n db' = Some (snapRows Mem.env (Mem.scan seed t))) /\
    (forall n, n ∈ db'.*1 -> n ∈ (Mem.db (world s)).*1 \/ n ∈ (Mem.bt (world s)).*1) /\
    (NoDup (Mem.db (world s)).*1 -> NoDup db'.*1).
Proof.
  intros Hres Hcase.
  unfold SaveAll, bind, call. change (Tables Mem.env) with Mem.Tables. unfold Mem.Tables.
  set (s1 := mkState (E := Mem.env) (world s) (trace s ++ [EvTables])).
  destruct (Mem_saveTables (Sort.Strings (map fst (Mem.bt (world s)))) s1)
    as (Hnil & seed' & db' & Hw & Hout & Hin & Hdom & Hnd).
  { apply Forall_forall. intros n Hn. by rewrite Strings_Permutation in Hn. }
  { apply Forall_forall. intros n Hn. rewrite Strings_Permutation in Hn. by apply Hres. }
  { by rewrite Strings_Permutation. }
  split; [done|]. exists seed', db'. cbn [world] in *. split; [done|].
  split; [|split; [|split]].
  - intros n Hn. apply Hout. intros m Hm. apply Hn. by rewrite Strings_Permutation in Hm.
  - intros n t Ht. apply Hin; [|done]. rewrite Strings_Permutation.
    apply Mem_lookup_is_Some. by eexists.
  - intros n Hn. apply Hdom in Hn. by rewrite Strings_Permutation in Hn.
  - done.
Qed.


(** ** One snapshot row for each cell *)

(** A list cut by the values of a key, the parts put end to end, is a
    rearrangement of the list. *)
Lemma bind_filter_cons {A K} `{EqDecision K} (g : A -> K) (ks : list K) x (l : list A) :
  NoDup ks -> g x ∈ ks ->
  ks ≫= (fun k => filter (fun y => g y = k) (x :: l)) ≡ₚ
  x :: (ks ≫= (fun k => filter (fun y => g y = k) l)).
Proof.
  induction ks as [|k ks IH]; intros Hnd Hin; [by apply elem_of_nil in Hin|].
  apply NoDup_cons in Hnd as [Hk Hnd]. rewrite !bind_cons.
  destruct (decide (g x = k)) as [Heq|Hne].
  - rewrite filter_cons_True by done. cbn [app]. constructor.
    apply Permutation_app_head. clear IH Hin.
    assert (Hx : g x ∉ ks) by (by rewrite Heq).
    clear Hk Heq. induction ks as [|k' ks IH]; [done|].
    apply NoDup_cons in Hnd as [_ Hnd]. rewrite !bind_cons.
    rewrite filter_cons_False.
    + apply Permutation_app_head, IH; [done|]. intros ?. apply Hx. by right.
    + intros Heq. apply Hx. rewrite Heq. by left.
  - rewrite filter_cons_False by done.
    apply elem_of_cons in Hin as [?|Hin]; [done|].
    rewrite (IH Hnd Hin). by rewrite Permutation_middle.
Qed.

Lemma bind_filter_Permutation {A K} `{EqDecision K} (g : A -> K) (ks : list K) (l : list A) :
  NoDup ks -> (forall x, x ∈ l -> g x ∈ ks) ->
  ks ≫= (fun k => filter (fun y => g y = k) l) ≡ₚ l.
Proof.
  intros Hnd. induction l as [|x l IH]; intros Hin.
  - clear Hin Hnd. induction ks as [|k ks IH]; [done|]. rewrite bind_cons. exact IH.
  - rewrite bind_filter_cons; [|done|apply Hin; by left].
    constructor. apply IH. intros y Hy. apply Hin. by right.
Qed.

Lemma bind_fmap_filter {A B K} `{EqDecision K} (g : A -> K) (h : A -> B) (ks : list K) (l : list A) :
  ks ≫= (fun k => h <$> filter (fun y => g y = k) l) =
  h <$> (ks ≫= (fun k => filter (fun y => g y = k) l)).
Proof.
  induction ks as [|k ks IH]; [done|]. rewrite !bind_cons, fmap_app. by rewrite IH.
Qed.

(** The snapshot rows of the families of a row of a scan are the rows of
    the cells of that row key. *)
Lemma familyRows_rowOf seed cs k :
  familyRows Mem.env (Mem.rowOf seed cs k) ≡ₚ
  cellRow <$> filter (fun c => Mem.rowKey c = k) cs.
Proof.
  unfold Mem.rowOf, familyRows. rewrite rotate_Permutation.
  set (here := filter (fun c => Mem.rowKey c = k) cs).
  transitivity (remove_dups (map Mem.family here) ≫=
                  (fun f => cellRow <$> filter (fun c => Mem.family c = f) here)).
  - generalize (remove_dups (map Mem.family here)). intros fams.
    induction fams as [|f fams IH]; [done|].
    cbn [map]. rewrite !bind_cons. apply Permutation_app; [|exact IH].
    change (map Mem.toItem ?l) with (Mem.toItem <$> l).
    rewrite <-list_fmap_compose.
    assert (Heq : (snapRow Mem.env f ∘ Mem.toItem) <$> filter (fun c => Mem.family c = f) here =
                  cellRow <$> filter (fun c => Mem.family c = f) here).
    { apply list_fmap_ext. intros i c Hc. apply list_elem_of_lookup_2, list_elem_of_filter in Hc as [Hf _].
      cbn. unfold cellRow. by rewrite Hf. }
    by rewrite Heq.
  - rewrite bind_fmap_filter. apply fmap_Permutation, bind_filter_Permutation.
    + apply NoDup_remove_dups.
    + intros c Hc. apply elem_of_remove_dups, list_elem_of_fmap. by exists c.
Qed.

(** The snapshot rows of a scan of a table: one for each cell. *)
Lemma snapRows_scan_cells seed t :
  snapRows Mem.env (Mem.scan seed t) ≡ₚ cellRow <$> map_to_list (Mem.cells t).
Proof.
  unfold Mem.scan. rewrite snapRows_fmap.
  set (cs := map_to_list (Mem.cells t)).
  rewrite (bind_Permutation_pointwise _ (fun k => cellRow <$> filter (fun c => Mem.rowKey c = k) cs))
    by (intros k; apply familyRows_rowOf).
  rewrite bind_fmap_filter. apply fmap_Permutation, bind_filter_Permutation.
  - unfold Sort.Strings. rewrite merge_sort_Permutation. apply NoDup_remove_dups.
  - intros c Hc. unfold Sort.Strings. rewrite merge_sort_Permutation.
    apply elem_of_remove_dups, list_elem_of_fmap. by exists c.
Qed.

(** X17. In memory, when the names of the remote tables stand for
    themselves in a statement, none is a name that SQLite keeps for itself
    (one that starts with [sqlite_]) and no two of them differ in case
    only, [SaveAll] returns nil and leaves
    the instance as it was. Afterwards the snapshot holds, for every
    remote table, a table of that name with exactly one row for each cell
    of the remote table, the snapshot row of that cell. The snapshot
    tables whose names differ from the names of the remote tables in more
    than case are left as they were: a table that is no longer in the
    instance stays in the snapshot. *)
Theorem save_all_snapshots_every_table (s : State Mem.env) :
  (forall n, n ∈ (Mem.bt (world s)).*1 -> Mem.quotable n = true /\ Mem.reserved n = false) ->
  NoDup (Mem.lowerString <$> (Mem.bt (world s)).*1) ->
  (SaveAll Mem.env s).1 = None /\
  Mem.bt (world (SaveAll Mem.env s).2) = Mem.bt (world s) /\
  (forall n t, Mem.lookup n (Mem.bt (world s)) = Some t ->
     exists rows,
       Mem.lookup n (Mem.db (world (SaveAll Mem.env s).2)) = Some rows /\
       rows ≡ₚ cellRow <$> map_to_list (Mem.cells t)) /\
  (forall n, (forall m, m ∈ (Mem.bt (world s)).*1 -> ~ Mem.sameName n m) ->
     Mem.lookup n (Mem.db (world (SaveAll Mem.env s).2)) = Mem.lookup n (Mem.db (world s))).
Proof.
  intros Hres Hcase.
  destruct (Mem_SaveAll s) as (Hnil & seed' & db' & Hw & Hout & Hin & _); [|done|].
  { intros n Hn. by destruct (Hres n Hn). }
  split; [done|]. rewrite Hw. cbn [Mem.bt Mem.db]. split; [done|]. split; [|done].
  intros n t Ht. destruct (Hin n t Ht) as (seed & Hl). eexists. split; [done|].
  apply snapRows_scan_cells.
Qed.

Lemma save_all_snapshots_every_table_witness :
  (forall n, n ∈ (Mem.bt (world twoTables)).*1 ->
     Mem.quotable n = true /\ Mem.reserved n = false) /\
  NoDup (Mem.lowerString <$> (Mem.bt (world twoTables)).*1) /\
  (SaveAll Mem.env twoTables).1 = None /\
  (Mem.db (world (SaveAll Mem.env twoTables).2)).*1 = ["a"; "b"] /\
  exists rows,
    Mem.lookup "b" (Mem.db (world (SaveAll Mem.env twoTables).2)) = Some rows /\
    rows ≡ₚ cellRow <$> map_to_list (Mem.cells zeroTable).
Proof.
  assert (H1 : forall n, n ∈ (Mem.bt (world twoTables)).*1 ->
            Mem.quotable n = true /\ Mem.reserved n = false).
  { intros n Hn. change ((Mem.bt (world twoTables)).*1) with ["b"; "a"] in Hn.
    apply elem_of_cons in Hn as [->|Hn]; [by split|].
    apply list_elem_of_singleton in Hn. by subst n. }
  assert (H2 : NoDup (Mem.lowerString <$> (Mem.bt (world twoTables)).*1))
    by (apply (bool_decide_unpack _); vm_compute; exact I).
  split; [exact H1|]. split; [exact H2|].
  destruct (save_all_snapshots_every_table twoTables H1 H2) as (Hnil & _ & Hin & _).
  split; [exact Hnil|]. split; [vm_compute; reflexivity|].
  exact (Hin "b" zeroTable eq_refl).
Defined.

(** ** Saving everything, then restoring *)

Lemma column_family_snapRows seed t :
  inRange t ->
  Forall (fun r => column_family r ∈ Mem.families t) (snapRows Mem.env (Mem.scan seed t)).
Proof.
  intros Hrange. apply Forall_forall. intros r Hr.
  apply elem_of_snapRows_scan in Hr as ([[[[row fam] qual] ts] v] & Hc & ->).
  apply elem_of_map_to_list in Hc. by destruct (Hrange _ _ _ _ _ Hc) as (Hfam & _).
Qed.

(** X18. Round trip of the whole store, in memory. When the tables of
    the instance are in range, their names stand for themselves in a
    statement, none has a name that the snapshot query leaves out, no two
    have names that differ in case only, and the snapshot has no user
    table of another name, [SaveAll] followed by
    [Restore] returns nil twice and leaves every remote table with the
    families and the cells it had. *)
Theorem save_all_then_restore (s : State Mem.env) :
  (forall n t, Mem.lookup n (Mem.bt (world s)) = Some t ->
     inRange t /\ Mem.quotable n = true /\ Mem.likeSqlite n = false) ->
  NoDup (Mem.lowerString <$> (Mem.bt (world s)).*1) ->
  NoDup (Mem.db (world s)).*1 ->
  (forall n, n ∈ (Mem.db (world s)).*1 -> Mem.likeSqlite n = false ->
     n ∈ (Mem.bt (world s)).*1) ->
  (SaveAll Mem.env s).1 = None /\
  (Restore Mem.env (SaveAll Mem.env s).2).1 = None /\
  forall n t, Mem.lookup n (Mem.bt (world s)) = Some t ->
    Mem.lookup n (Mem.bt (world (Restore Mem.env (SaveAll Mem.env s).2).2)) = Some t.
Proof.
  intros Hok Hcase Hnd0 Hstale.
  destruct (Mem_SaveAll s) as (Hnil & seed' & db' & Hw & Hout & Hin & Hdom & Hnd); [|done|].
  { intros n Hn. apply Mem_lookup_is_Some in Hn as [t Ht].
    apply likeSqlite_reserved. by destruct (Hok n t Ht) as (_ & _ & ?). }
  split; [done|].
  set (s1 := (SaveAll Mem.env s).2) in *.
  assert (Huser : forall n, n ∈ userTables (world s1) ->
            exists t seed, Mem.lookup n (Mem.bt (world s)) = Some t /\
              Mem.lookup n db' = Some (snapRows Mem.env (Mem.scan seed t))).
  { intros n Hn. unfold userTables in Hn. rewrite Hw in Hn. cbn [Mem.db] in Hn.
    apply list_elem_of_filter in Hn as [Hlike Hn].
    assert (Hbt : n ∈ (Mem.bt (world s)).*1).
    { apply Hdom in Hn as [Hn|Hn]; [by apply Hstale|done]. }
    apply Mem_lookup_is_Some in Hbt as [t Ht]. destruct (Hin n t Ht) as (seed & Hl).
    by exists t, seed. }
  destruct (Mem_Restore s1) as (Hnil1 & _ & _ & _ & Hl).
  { unfold userTables. apply NoDup_filter. rewrite Hw. cbn [Mem.db]. by apply Hnd. }
  { intros n rows Hn Hrows. destruct (Huser n Hn) as (t & seed & Ht & Hsaved).
    rewrite Hw in Hrows |- *. cbn [Mem.bt Mem.db] in *. rewrite Hsaved in Hrows.
    injection Hrows as <-. exists t. split; [done|].
    destruct (Hok n t Ht) as [Hrange _].
    split; [by apply snapRows_in_range|by apply column_family_snapRows]. }
  split; [done|]. intros n t Ht. rewrite (Hl n t) by (by rewrite Hw).
  destruct (Hok n t Ht) as (Hrange & _ & Hlike). destruct (Hin n t Ht) as (seed & Hsaved).
  assert (Hn : n ∈ userTables (world s1)).
  { unfold userTables. rewrite Hw. cbn [Mem.db]. apply list_elem_of_filter. split; [done|].
    apply Mem_lookup_is_Some. by eexists. }
  unfold snapshotCells. rewrite decide_True by done. rewrite Hw. cbn [Mem.db Mem.clock].
  rewrite Hsaved. cbn [default].
  rewrite (applyAll_restores _ t) by (done || intros r; apply elem_of_snapRows_scan).
  by destruct t.
Qed.

Lemma scanned_ok {A} (l : list A) : scanned (ok <$> l) = l.
Proof.
  induction l as [|a l IH]; [done|]. rewrite fmap_cons.
  change (scanned (ok a :: (ok <$> l))) with (a :: scanned (ok <$> l)). by rewrite IH.
Qed.

(** X19. [Restore] in memory never enters [RestoreTable] for a snapshot
    table whose name is [sqlite] followed by at least one character, in
    any letter case: the underscore of the pattern of the query stands for
    any character. A remote table of such a name is cleared with the
    others when [Restore] returns nil, and is not restored. *)
Theorem restore_skips_sqlite_names (s : State Mem.env) n :
  Mem.likeSqlite n = true ->
  (n ∉ restoring (events (Restore Mem.env) s)) /\
  ((Restore Mem.env s).1 = None -> n ∈ (Mem.bt (world s)).*1 ->
   n ∈ dropped (events (Restore Mem.env) s)).
Proof.
  intros Hlike.
  destruct (Restore_events Mem.env s (Mem.bt (world s)).*1 eq_refl)
    as [(k & e & Hev & Hres)|(R & Hev & HR & Hnames)].
  - rewrite Hev. split.
    + rewrite restoring_app, restoring_drops. by intros ?%elem_of_nil.
    + intros Hnil. congruence.
  - destruct (Hnames (ok <$> userTables (world (afterClear Mem.env (Mem.bt (world s)).*1 s))))
      as (j & Hj & Hall); [done|].
    rewrite Hev. split.
    + rewrite !restoring_app, restoring_drops.
      change (restoring (EvQueryTables :: R)) with (restoring R).
      rewrite app_nil_l, Hj, scanned_ok. intros Hin.
      apply elem_of_take in Hin as (i & Hin & _). apply list_elem_of_lookup_2 in Hin.
      unfold userTables in Hin. apply list_elem_of_filter in Hin as [Hno _]. congruence.
    + intros _ Hn. rewrite !dropped_app, dropped_drops. apply elem_of_app. right.
      apply elem_of_app. left. by rewrite Strings_Permutation.
Qed.

Lemma save_all_then_restore_witness :
  (SaveAll Mem.env twoTables).1 = None /\
  (Restore Mem.env (SaveAll Mem.env twoTables).2).1 = None /\
  Mem.lookup "a" (Mem.bt (world (Restore Mem.env (SaveAll Mem.env twoTables).2).2)) =
    Some twoFamilies /\
  Mem.lookup "b" (Mem.bt (world (Restore Mem.env (SaveAll Mem.env twoTables).2).2)) =
    Some zeroTable.
Proof.
  assert (Ha : inRange twoFamilies).
  { intros row fam qual ts v H. unfold twoFamilies in H. cbn [Mem.cells Mem.families] in *.
    apply lookup_insert_Some in H as [[[= <- <- <- <-] <-]|[_ H]].
    { split; [apply (bool_decide_unpack _); vm_compute; exact I|].
      split; [lia|]. split; [reflexivity|]. pow_consts. lia. }
    apply lookup_singleton_Some in H as [[= <- <- <- <-] <-].
    split; [apply (bool_decide_unpack _); vm_compute; exact I|].
    split; [lia|]. split; [reflexivity|]. pow_consts. lia. }
  assert (H1 : forall n t, Mem.lookup n (Mem.bt (world twoTables)) = Some t ->
            inRange t /\ Mem.quotable n = true /\ Mem.likeSqlite n = false).
  { intros n t H. cbn [twoTables world Mem.bt Mem.lookup] in H.
    destruct (decide ("b" = n)) as [<-|_].
    { injection H as <-. split; [apply zeroTable_inRange|by split]. }
    destruct (decide ("a" = n)) as [<-|_]; [|done].
    injection H as <-. split; [exact Ha|by split]. }
  assert (Hc : NoDup (Mem.lowerString <$> (Mem.bt (world twoTables)).*1))
    by (apply (bool_decide_unpack _); vm_compute; exact I).
  assert (H2 : NoDup (Mem.db (world twoTables)).*1)
    by (apply (bool_decide_unpack _); vm_compute; exact I).
  assert (H3 : forall n, n ∈ (Mem.db (world twoTables)).*1 -> Mem.likeSqlite n = false ->
            n ∈ (Mem.bt (world twoTables)).*1).
  { intros n Hn _. change ((Mem.db (world twoTables)).*1) with ["a"] in Hn.
    apply list_elem_of_singleton in Hn. subst n.
    apply (bool_decide_unpack _). vm_compute. exact I. }
  destruct (save_all_then_restore twoTables H1 Hc H2 H3) as (Hs & Hr & Hl).
  split; [exact Hs|]. split; [exact Hr|].
  split; [exact (Hl "a" twoFamilies eq_refl)|exact (Hl "b" zeroTable eq_refl)].
Defined.

Lemma restore_skips_sqlite_names_witness :
  Mem.likeSqlite "sqlitedata" = true /\
  (SaveAll Mem.env sqliteNamed).1 = None /\
  Mem.lookup "sqlitedata" (Mem.db (world (SaveAll Mem.env sqliteNamed).2)) <> None /\
  (Restore Mem.env (SaveAll Mem.env sqliteNamed).2).1 = None /\
  ("sqlitedata" ∉ restoring (events (Restore Mem.env) (SaveAll Mem.env sqliteNamed).2)) /\
  Mem.lookup "sqlitedata" (Mem.bt (world (Restore Mem.env (SaveAll Mem.env sqliteNamed).2).2)) =
    Some (cleared zeroTable).
Proof.
  split; [reflexivity|]. split; [vm_compute; reflexivity|].
  split; [vm_compute; discriminate|]. split; [vm_compute; reflexivity|].
  split; [|vm_compute; reflexivity].
  exact (proj1 (restore_skips_sqlite_names (SaveAll Mem.env sqliteNamed).2 "sqlitedata" eq_refl)).
Defined.

(** ** Clearing comes first *)

Section ClearFirst.
Context (E : Env).

(** X20. [Restore] clears the instance before it looks at the
    snapshot. When it reports that the query of the snapshot tables
    failed, every remote table has already been cleared, in sorted order,
    and nothing is restored; the error of the query is not part of the
    error returned. *)
Theorem snapshot_query_fails_after_clearing s tables :
  (Tables E (world s)).1 = ok tables ->
  (Restore E s).1 = Some FailedQueryTableList ->
  events (Restore E) s =
    EvTables :: (EvDropAllRows <$> Sort.Strings tables) ++ [EvQueryTables].
Proof.
  intros HT Hres. destruct (Tables E (world s)) as [r w] eqn:HTables. simpl in HT. subst r.
  pose proof (Restore_eq E _ _ _ HTables) as HR.
  set (s1 := mkState w (trace s ++ [EvTables])) in *.
  pose proof (dropTables_failure E (Sort.Strings tables) s1) as Hdrop.
  destruct (dropTables_shape E (Sort.Strings tables) s1) as (k & Htr & Hk).
  destruct (dropTables E (Sort.Strings tables) s1) as [[e|] s2]; cbn [fst snd] in *.
  { rewrite HR in Hres. cbn [fst] in Hres. injection Hres as ->.
    destruct (Hdrop _ eq_refl) as (? & ? & ? & [=] & _). }
  rewrite (Hk eq_refl), firstn_all in Htr.
  destruct (QueryTables E (world s2)) as [[rows|err] w3].
  - exfalso. rewrite HR in Hres.
    apply restoreTables_errors in Hres as [(err & [=])|(t' & e' & [=])].
  - apply events_spec. rewrite HR. cbn [snd trace]. rewrite Htr. unfold s1. cbn [trace].
    by rewrite <-!app_assoc.
Qed.

End ClearFirst.

Lemma snapshot_query_fails_after_clearing_witness :
  (Tables notADatabase (world (mkState (E := notADatabase) orderWorld []))).1 = ok ["b"; "a"; "c"] /\
  (Restore notADatabase (mkState (E := notADatabase) orderWorld [])).1 = Some FailedQueryTableList /\
  events (Restore notADatabase) (mkState (E := notADatabase) orderWorld []) =
    EvTables :: (EvDropAllRows <$> Sort.Strings ["b"; "a"; "c"]) ++ [EvQueryTables].
Proof.
  assert (H1 : (Tables notADatabase (world (mkState (E := notADatabase) orderWorld []))).1 =
               ok ["b"; "a"; "c"]) by reflexivity.
  assert (H2 : (Restore notADatabase (mkState (E := notADatabase) orderWorld [])).1 =
               Some FailedQueryTableList) by (vm_compute; reflexivity).
  split; [exact H1|]. split; [exact H2|].
  exact (snapshot_query_fails_after_clearing notADatabase _ _ H1 H2).
Defined.

(** X21. [Restore] can be run again. In memory, under the conditions of
    a successful restore, a second [Restore] from the same snapshot
    returns nil and leaves every remote table as the first one left
    it. *)
Theorem restore_twice (s : State Mem.env) :
  NoDup (userTables (world s)) ->
  (forall n rows, n ∈ userTables (world s) -> Mem.lookup n (Mem.db (world s)) = Some rows ->
     exists t, Mem.lookup n (Mem.bt (world s)) = Some t /\
       Forall (verified Mem.env) rows /\
       Forall (fun r => column_family r ∈ Mem.families t) rows) ->
  (Restore Mem.env s).1 = None /\
  (Restore Mem.env (Restore Mem.env s).2).1 = None /\
  forall n, Mem.lookup n (Mem.bt (world (Restore Mem.env (Restore Mem.env s).2).2)) =
            Mem.lookup n (Mem.bt (world (Restore Mem.env s).2)).
Proof.
  intros Hnd Hall.
  destruct (Mem_Restore s Hnd Hall) as (Hnil & Hdb & Hclock & Hfst & Hl).
  split; [done|].
  set (s1 := (Restore Mem.env s).2) in *.
  assert (Huser : userTables (world s1) = userTables (world s)).
  { unfold userTables. by rewrite Hdb. }
  assert (Hcells : forall n, snapshotCells (world s1) n = snapshotCells (world s) n).
  { intros n. unfold snapshotCells. by rewrite Huser, Hdb, Hclock. }
  destruct (Mem_Restore s1) as (Hnil1 & _ & _ & Hfst1 & Hl1).
  { by rewrite Huser. }
  { intros n rows Hn Hrows. rewrite Huser in Hn. rewrite Hdb in Hrows.
    destruct (Hall n rows Hn Hrows) as (t & Ht & Hv & Hfam).
    exists (Mem.mkTable (Mem.families t) (snapshotCells (world s) n)).
    split; [by apply Hl|]. done. }
  split; [done|]. intros n.
  destruct (Mem.lookup n (Mem.bt (world s1))) as [t1|] eqn:Ht1.
  - rewrite (Hl1 n t1 Ht1), Hcells.
    destruct (Mem.lookup n (Mem.bt (world s))) as [t|] eqn:Ht.
    + rewrite (Hl n t Ht) in Ht1. injection Ht1 as <-. done.
    + apply Mem_lookup_None in Ht. rewrite <-Hfst in Ht. apply Mem_lookup_None in Ht. congruence.
  - apply Mem_lookup_None. rewrite Hfst1. by apply Mem_lookup_None.
Qed.

Lemma restore_twice_witness :
  (Restore Mem.env zeroState).1 = None /\
  (Restore Mem.env (Restore Mem.env zeroState).2).1 = None /\
  forall n, Mem.lookup n (Mem.bt (world (Restore Mem.env (Restore Mem.env zeroState).2).2)) =
            Mem.lookup n (Mem.bt (world (Restore Mem.env zeroState).2)).
Proof.
  assert (H1 : NoDup (userTables (world zeroState)))
    by (apply (bool_decide_unpack _); vm_compute; exact I).
  assert (H2 : forall n rows, n ∈ userTables (world zeroState) ->
            Mem.lookup n (Mem.db (world zeroState)) = Some rows ->
            exists t, Mem.lookup n (Mem.bt (world zeroState)) = Some t /\
              Forall (verified Mem.env) rows /\
              Forall (fun r => column_family r ∈ Mem.families t) rows).
  { intros n rows Hn Hdb.
    change (userTables (world zeroState)) with ["t"] in Hn.
    apply list_elem_of_singleton in Hn. subst n.
    change (Mem.lookup "t" (Mem.db (world zeroState))) with (Some [sampleRow 0]) in Hdb.
    injection Hdb as <-. exists zeroTable. split; [reflexivity|].
    split; apply (bool_decide_unpack _); vm_compute; exact I. }
  exact (restore_twice zeroState H1 H2).
Defined.

(** ** The command *)

Example main_restore :
  (Main.main (Main.memShell "localhost:8086") (Main.mkFlags EmptyString "local" "local" false)
     ["Restore"] zeroState).1 =
    (Main.Returned,
     [Main.NewAdminClient "local" "local"; Main.NewClient "local" "local"; Main.Open "local.db";
      Main.RunRestore; Main.Close]).
Proof. vm_compute. reflexivity. Qed.

Section MainFacts.
Context {E : Env} (sh : Main.Shell E).

(** X22. The safeguard and the check of the arguments come before
    anything else. Without [BIGTABLE_EMULATOR_HOST] and without
    [-gcp=true], or with no argument or more than one, [main] exits with
    status 2 without connecting to the instance, opening the database or
    touching either store; the safeguard is reported first. *)
Theorem main_refuses f args s :
  (Main.Getenv sh "BIGTABLE_EMULATOR_HOST" = EmptyString /\ Main.gcp f = false) \/
  length args <> 1%nat ->
  exists line,
    Main.main sh f args s = (Main.Exit2 line, [], s) /\
    (Main.Getenv sh "BIGTABLE_EMULATOR_HOST" = EmptyString /\ Main.gcp f = false ->
     line = Main.MustSetHost) /\
    (line = Main.MustSetHost \/ line = Main.MustProvideAction \/
     line = Main.ExpectedSingleArgument).
Proof.
  intros H. unfold Main.main.
  destruct (bool_decide (Main.Getenv sh "BIGTABLE_EMULATOR_HOST" = EmptyString) && negb (Main.gcp f))
    eqn:Hguard.
  { exists Main.MustSetHost. split; [done|]. split; [done|]. by left. }
  assert (Hno : ~ (Main.Getenv sh "BIGTABLE_EMULATOR_HOST" = EmptyString /\ Main.gcp f = false)).
  { intros [H1 H2]. rewrite H1, H2 in Hguard. by rewrite bool_decide_eq_true_2 in Hguard. }
  destruct H as [H|Hlen]; [done|].
  destruct args as [|a [|b args]]; [| done |].
  - exists Main.MustProvideAction. split; [done|]. split; [done|]. right. by left.
  - exists Main.ExpectedSingleArgument. split; [done|]. split; [done|]. right. by right.
Qed.

(** X23. What [main] has done, by the way it ended. It makes its calls
    in one order: the admin client, the data client, the database, the
    action, the close. An action it does not know is found out only after
    the three connections; the database is closed only after the action
    returned nil, and is left open when [main] ends in any other way; when
    [main] reports that the restore or the save failed, it ends in the
    state in which [Restore] or [SaveAll] returned that error. *)
Theorem main_outcomes f args s :
  let connects :=
    [Main.NewAdminClient (Main.project f) (Main.instance f);
     Main.NewClient (Main.project f) (Main.instance f); Main.Open (Main.dbFile f)] in
  let calls := (Main.main sh f args s).1.2 in
  match (Main.main sh f args s).1.1 with
  | Main.Exit2 (Main.UnrecognizedAction a) => args = [a] /\ calls = connects
  | Main.Exit2 _ => calls = [] /\ (Main.main sh f args s).2 = s
  | Main.Fatalf (Main.FailedConnect _) => calls = take 1 connects \/ calls = take 2 connects
  | Main.Fatalf (Main.FailedOpen d _) => d = Main.dbFile f /\ calls = connects
  | Main.Fatalf (Main.FailedRestore e) =>
      calls = connects ++ [Main.RunRestore] /\
      exists s3, Restore E s3 = (Some e, (Main.main sh f args s).2)
  | Main.Fatalf (Main.FailedSave e) =>
      calls = connects ++ [Main.RunSaveAll] /\
      exists s3, SaveAll E s3 = (Some e, (Main.main sh f args s).2)
  | Main.Returned | Main.Fatalf (Main.FailedClose _) =>
      (calls = connects ++ [Main.RunRestore; Main.Close] /\
       exists s3, (Restore E s3).1 = None) \/
      (calls = connects ++ [Main.RunSaveAll; Main.Close] /\
       exists s3, (SaveAll E s3).1 = None)
  end.
Proof.
  cbv zeta. unfold Main.main.
  destruct (bool_decide (Main.Getenv sh "BIGTABLE_EMULATOR_HOST" = EmptyString) && negb (Main.gcp f));
    [done|].
  destruct args as [|a [|b args]]; [done| |done].
  destruct (Main.newAdminClient sh (Main.project f) (Main.instance f) (world s)) as [[err|] w1];
    [by left|].
  cbn [world trace].
  destruct (Main.newClient sh (Main.project f) (Main.instance f) w1) as [[err|] w2];
    [by right|].
  cbn [world trace].
  destruct (Main.sqlOpen sh (Main.dbFile f) w2) as [[err|] w3]; [done|].
  destruct (decide (Main.ToLower (Main.lowerMap sh) a = "restore")) as [Hr|Hr].
  { destruct (Restore E (mkState w3 (trace s))) as [[e|] s4] eqn:HR.
    - cbn [fst snd]. split; [done|]. by eexists.
    - unfold Main.close. destruct (Main.dbClose sh (world s4)) as [[err|] w5]; cbn [fst snd].
      + left. split; [done|]. eexists. by rewrite HR.
      + left. split; [done|]. eexists. by rewrite HR. }
  destruct (decide (Main.ToLower (Main.lowerMap sh) a = "save")) as [Hs|Hs]; [|done].
  destruct (SaveAll E (mkState w3 (trace s))) as [[e|] s4] eqn:HS.
  - cbn [fst snd]. split; [done|]. by eexists.
  - unfold Main.close. destruct (Main.dbClose sh (world s4)) as [[err|] w5]; cbn [fst snd].
    + right. split; [done|]. eexists. by rewrite HS.
    + right. split; [done|]. eexists. by rewrite HS.
Qed.

Lemma lowerASCII_idem a : Main.lowerASCII (Main.lowerASCII a) = Main.lowerASCII a.
Proof.
  induction a as [|c a IH]; [done|]. cbn [Main.lowerASCII]. rewrite IH. f_equal.
  destruct ((65 <=? code c) && (code c <=? 90)) eqn:Hc; [|by rewrite Hc].
  apply andb_true_iff in Hc as [H1 H2]. apply Z.leb_le in H1, H2.
  assert (Hcode : code (chr (code c + 32)) = code c + 32).
  { unfold code, chr. rewrite N_ascii_embedding; [lia|].
    unfold code in *. lia. }
  rewrite Hcode.
  destruct (65 <=? code c + 32) eqn:H3; [|done].
  destruct (code c + 32 <=? 90) eqn:H4; [|done]. apply Z.leb_le in H4. lia.
Qed.

Lemma isASCII_lowerASCII a : Main.isASCII a = true -> Main.isASCII (Main.lowerASCII a) = true.
Proof.
  induction a as [|c a IH]; [done|]. cbn [Main.isASCII Main.lowerASCII].
  intros [Hc Ha]%andb_true_iff. rewrite (IH Ha), andb_true_r.
  destruct ((65 <=? code c) && (code c <=? 90)) eqn:Hu; [|done].
  apply andb_true_iff in Hu as [H1 H2]. apply Z.leb_le in H1, H2.
  apply Z.ltb_lt. unfold code, chr in *. rewrite N_ascii_embedding; lia.
Qed.

(** X24. The action is read without regard to the case of its letters:
    for an argument made of ASCII characters whose lower-case form is
    [restore] or [save], [main] does what it does for that lower-case
    form. *)
Theorem main_ignores_case f a s :
  Main.isASCII a = true ->
  Main.lowerASCII a = "restore" \/ Main.lowerASCII a = "save" ->
  Main.main sh f [a] s = Main.main sh f [Main.lowerASCII a] s.
Proof.
  intros Hascii Hact.
  assert (Hlow : Main.ToLower (Main.lowerMap sh) (Main.lowerASCII a) =
                 Main.ToLower (Main.lowerMap sh) a).
  { unfold Main.ToLower. by rewrite Hascii, isASCII_lowerASCII, lowerASCII_idem. }
  assert (Hknown : Main.ToLower (Main.lowerMap sh) a = "restore" \/
                   Main.ToLower (Main.lowerMap sh) a = "save").
  { unfold Main.ToLower. by rewrite Hascii. }
  unfold Main.main. rewrite Hlow.
  destruct (bool_decide _ && negb _); [done|].
  destruct (Main.newAdminClient sh _ _ _) as [[err|] w1]; [done|].
  destruct (Main.newClient sh _ _ _) as [[err|] w2]; [done|].
  destruct (Main.sqlOpen sh _ _) as [[err|] w3]; [done|].
  destruct (decide (Main.ToLower (Main.lowerMap sh) a = "restore")); [done|].
  destruct (decide (Main.ToLower (Main.lowerMap sh) a = "save")); [done|].
  by destruct Hknown.
Qed.

End MainFacts.

Lemma main_refuses_witness :
  exists line,
    Main.main (Main.memShell EmptyString) (Main.mkFlags "snap.db" "local" "local" false)
      ["restore"] zeroState = (Main.Exit2 line, [], zeroState) /\
    line = Main.MustSetHost.
Proof.
  destruct (main_refuses (Main.memShell EmptyString) (Main.mkFlags "snap.db" "local" "local" false)
              ["restore"] zeroState (or_introl (conj eq_refl eq_refl)))
    as (line & H1 & H2 & _).
  exists line. split; [exact H1|]. apply H2. split; reflexivity.
Defined.

Lemma main_ignores_case_witness :
  Main.main (Main.memShell "localhost:8086") (Main.mkFlags EmptyString "local" "local" false)
    ["SaVe"] twoTables =
  Main.main (Main.memShell "localhost:8086") (Main.mkFlags EmptyString "local" "local" false)
    ["save"] twoTables.
Proof.
  exact (main_ignores_case (Main.memShell "localhost:8086")
           (Main.mkFlags EmptyString "local" "local" false) "SaVe" twoTables eq_refl
           (or_intror eq_refl)).
Defined.

(** ** filterErrors *)

(** X25. [filterErrors] returns the errors of its argument that are not
    nil, each as often as it occurs and in the order of the argument:
    nothing else is in the result, the result is empty exactly when every
    item is nil, and the result of a longer slice starts with the result
    of its beginning. *)
Theorem filterErrors_keeps_the_errors errs :
  Some <$> filterErrors errs = filter (fun e => e <> None) errs /\
  (forall e, e ∈ filterErrors errs <-> Some e ∈ errs) /\
  (filterErrors errs = [] <-> Forall (fun e => e = None) errs) /\
  (forall more, filterErrors (errs ++ more) = filterErrors errs ++ filterErrors more).
Proof.
  assert (H1 : Some <$> filterErrors errs = filter (fun e => e <> None) errs).
  { induction errs as [|[e|] errs IH]; [done| |].
    - cbn [filterErrors]. rewrite fmap_cons, filter_cons_True by done. by rewrite IH.
    - cbn [filterErrors]. rewrite filter_cons_False by (by intros ?). exact IH. }
  split; [exact H1|]. split; [|split].
  - intros e. split.
    + intros He. assert (Hin : Some e ∈ Some <$> filterErrors errs).
      { apply list_elem_of_fmap. by exists e. }
      rewrite H1 in Hin. by apply list_elem_of_filter in Hin as [_ ?].
    + intros He. assert (Hin : Some e ∈ Some <$> filterErrors errs).
      { rewrite H1. by apply list_elem_of_filter. }
      apply list_elem_of_fmap in Hin as (e' & [= ->] & ?). done.
  - clear H1. induction errs as [|[e|] errs IH]; [done| |].
    + cbn [filterErrors]. split; [discriminate|]. intros Hall.
      apply Forall_cons in Hall as [? _]. discriminate.
    + cbn [filterErrors]. rewrite Forall_cons. tauto.
  - clear H1. intros more. induction errs as [|[e|] errs IH]; [done| |].
    + cbn [filterErrors app]. by rewrite IH.
    + cbn [filterErrors app]. exact IH.
Qed.

(** ** RestoreTable does not clear *)

Lemma applyAll_keeps now es : forall (m : gmap Mem.CellId (list byte)) id,
  is_Some (m !! id) -> is_Some (applyAll now es m !! id).
Proof.
  unfold applyAll. induction es as [|[k mut] es IH]; intros m id Hid; [done|].
  cbn [foldl fst snd]. apply IH. clear IH.
  revert m Hid. induction mut as [|op mut IH]; intros m Hid; [done|].
  cbn [foldl]. apply IH. unfold Mem.setCell.
  match goal with |- is_Some (<[?i := _]> _ !! _) => destruct (decide (i = id)) as [->|Hne] end.
  - rewrite lookup_insert_eq. by eexists.
  - by rewrite lookup_insert_ne.
Qed.

(** X26. [RestoreTable] by itself clears nothing: it is [Restore] that
    clears. In memory, on a snapshot table whose rows are verified and of
    families of the remote table, [RestoreTable] returns nil and applies
    the entries of the rows to what the remote table holds: every cell
    that was there is still there afterwards, with its old value unless a
    row of the snapshot sets it. *)
Theorem restore_table_merges table t0 rows (s : State Mem.env) :
  Mem.lookup table (Mem.bt (world s)) = Some t0 ->
  Mem.lookup table (Mem.db (world s)) = Some rows ->
  Forall (verified Mem.env) rows ->
  Forall (fun r => column_family r ∈ Mem.families t0) rows ->
  (RestoreTable Mem.env table s).1 = None /\
  exists cells',
    Mem.lookup table (Mem.bt (world (RestoreTable Mem.env table s).2)) =
      Some (Mem.mkTable (Mem.families t0) cells') /\
    cells' = applyAll (Mem.clock (world s)) (entry <$> rows) (Mem.cells t0) /\
    (forall id, is_Some (Mem.cells t0 !! id) -> is_Some (cells' !! id)) /\
    (rows = [] -> cells' = Mem.cells t0).
Proof.
  intros Ht Hdb Hv Hfam.
  destruct (Mem_RestoreTable table t0 rows s Ht Hdb Hv Hfam) as [Hnil Hw].
  split; [done|]. eexists. rewrite Hw. cbn [Mem.bt]. rewrite Mem_lookup_update, Ht.
  split; [done|]. split; [done|]. split.
  - intros id Hid. by apply applyAll_keeps.
  - by intros ->.
Qed.

Lemma restore_table_merges_witness :
  (RestoreTable Mem.env "t" mergeState).1 = None /\
  exists cells',
    Mem.lookup "t" (Mem.bt (world (RestoreTable Mem.env "t" mergeState).2)) =
      Some (Mem.mkTable ["cf"; "meta"] cells') /\
    is_Some (cells' !! ("r1", "cf", "a", 1600000000000000)) /\
    cells' !! ("row0", "cf", "c", 1600000000000000) = Some (bytesOf "v").
Proof.
  assert (H1 : Forall (verified Mem.env) [sampleRow 0])
    by (apply (bool_decide_unpack _); vm_compute; exact I).
  assert (H2 : Forall (fun r => column_family r ∈ Mem.families zeroTable) [sampleRow 0])
    by (apply (bool_decide_unpack _); vm_compute; exact I).
  destruct (restore_table_merges "t" zeroTable [sampleRow 0] mergeState eq_refl eq_refl H1 H2)
    as (Hnil & cells' & Hl & Hc & Hkeep & _).
  split; [exact Hnil|]. exists cells'. split; [exact Hl|]. split.
  - apply Hkeep. unfold zeroTable. cbn [Mem.cells]. rewrite lookup_insert_eq. by eexists.
  - rewrite Hc. vm_compute. reflexivity.
Defined.

(** ** Names that SQLite does not take as they are *)

(** X27. [SaveTable] names the snapshot table as the remote table. In
    memory, for a table whose name stands for itself in a statement and
    starts with [sqlite_], in any letter case, it fails before it reads
    the remote table: at the
    preparation of the DROP when SQLite has a table of its own that
    answers to the name, and otherwise at the preparation of the CREATE,
    after the DROP was run. *)
Theorem save_table_refuses_reserved_names table (s : State Mem.env) :
  Mem.quotable table = true ->
  Mem.reserved table = true ->
  ((SaveTable Mem.env table s).1 = Some (FailedPrepareDrop "table may not be dropped") /\
   events (SaveTable Mem.env table) s = [EvLog (Saving table); EvPrepare (DropTable table)] /\
   world (SaveTable Mem.env table s).2 = world s) \/
  ((SaveTable Mem.env table s).1 =
     Some (FailedPrepareCreate "object name reserved for internal use") /\
   events (SaveTable Mem.env table) s =
     [EvLog (Saving table); EvPrepare (DropTable table); EvExec (DropTable table) None;
      EvPrepare (CreateTable table)] /\
   Mem.find table (Mem.db (world (SaveTable Mem.env table s).2)) = None).
Proof.
  intros _ Hres.
  assert (Hcreate : forall w, Mem.Prepare (CreateTable table) w =
                      (Some "object name reserved for internal use", w)).
  { intros w. unfold Mem.Prepare. by rewrite Hres. }
  destruct (Mem.Prepare (DropTable table) (world s)) as [[err|] w] eqn:Hdrop.
  - left. assert (err = "table may not be dropped" /\ w = world s) as [-> ->].
    { unfold Mem.Prepare in Hdrop. destruct (_ && _) in Hdrop; [|done]. by injection Hdrop as <- <-. }
    unfold events, SaveTable, bind, logPrintf, emit, call.
    change (Prepare Mem.env) with Mem.Prepare. cbn [world trace]. rewrite Hdrop.
    cbn [fst snd world trace ret]. split; [done|]. split; [|done].
    by rewrite <-app_assoc, drop_app_length.
  - right. assert (w = world s) as ->.
    { unfold Mem.Prepare in Hdrop. destruct (_ && _) in Hdrop; [done|]. by injection Hdrop as <-. }
    assert (Hexec : Mem.Exec (DropTable table) None (world s) =
              (None, Mem.mkWorld (Mem.bt (world s)) (Mem.clock (world s)) (Mem.mapSeed (world s))
                       (Mem.remove table (Mem.db (world s))))).
    { unfold Mem.Exec. by rewrite Hdrop. }
    unfold events, SaveTable, bind, logPrintf, emit, call.
    change (Prepare Mem.env) with Mem.Prepare. change (Exec Mem.env) with Mem.Exec.
    cbn [world trace]. rewrite Hdrop. cbn [world trace]. rewrite Hexec.
    cbn [world trace]. rewrite Hcreate. cbn [fst snd world trace ret Mem.db].
    split; [done|]. split; [|apply Mem_find_remove].
    by rewrite <-!app_assoc, drop_app_length.
Qed.

Lemma save_table_refuses_reserved_names_witness :
  Mem.quotable "sqlite_foo" = true /\
  Mem.reserved "sqlite_foo" = true /\
  (SaveTable Mem.env "sqlite_foo" reservedState).1 =
    Some (FailedPrepareCreate "object name reserved for internal use") /\
  events (SaveTable Mem.env "sqlite_foo") reservedState =
    [EvLog (Saving "sqlite_foo"); EvPrepare (DropTable "sqlite_foo");
     EvExec (DropTable "sqlite_foo") None; EvPrepare (CreateTable "sqlite_foo")].
Proof.
  split; [reflexivity|]. split; [reflexivity|].
  destruct (save_table_refuses_reserved_names "sqlite_foo" reservedState eq_refl eq_refl)
    as [(H & _)|(H1 & H2 & _)]; [vm_compute in H; discriminate|].
  split; [exact H1|exact H2].
Defined.

Lemma Mem_filter_remove {A} n table (l : list (string * A)) :
  Mem.sameName n table -> filter (fun e => Mem.sameName e.1 n) (Mem.remove table l) = [].
Proof.
  intros Hs. induction l as [|[k a] l IH]; [done|]. cbn [Mem.remove].
  destruct (decide (Mem.sameName k table)) as [Hk|Hk]; [done|].
  rewrite filter_cons_False; [done|]. cbn [fst]. unfold Mem.sameName in *. congruence.
Qed.

(** X28. SQLite tells the names of tables apart without regard to the
    case of their letters, Bigtable by their bytes. In memory, the save of
    a remote table, of a name that SQLite takes, drops the snapshot table whose name differs from its
    name in case only: of two remote tables with such names, the snapshot
    keeps the one that was saved last. *)
Theorem save_table_drops_names_that_differ_in_case table t n (s : State Mem.env) :
  Mem.lookup table (Mem.bt (world s)) = Some t ->
  Mem.quotable table = true ->
  Mem.reserved table = false ->
  Mem.sameName n table -> n <> table ->
  (SaveTable Mem.env table s).1 = None /\
  Mem.lookup n (Mem.db (world (SaveTable Mem.env table s).2)) = None /\
  (Mem.QueryRows n (world (SaveTable Mem.env table s).2)).1 =
    ok (ok <$> snapRows Mem.env (Mem.scan (Mem.mapSeed (world s)) t)).
Proof.
  intros Ht _ Hres Hs Hne. destruct (Mem_SaveTable table t s Ht Hres) as [Hnil Hw].
  split; [done|]. rewrite Hw.
  assert (Hl : Mem.lookup n (Mem.remove table (Mem.db (world s)) ++
                 [(table, snapRows Mem.env (Mem.scan (Mem.mapSeed (world s)) t))]) = None).
  { rewrite Mem_lookup_saved. rewrite (decide_False (P := n = table)) by done.
    by rewrite decide_True. }
  split; [exact Hl|].
  unfold Mem.QueryRows, Mem.find. cbn [Mem.db]. rewrite Hl.
  rewrite filter_app.
  rewrite (Mem_filter_remove _ _ _ Hs). rewrite filter_cons_True by (cbn [fst]; unfold Mem.sameName in *; congruence).
  done.
Qed.

Lemma save_table_drops_names_that_differ_in_case_witness :
  Mem.lookup "T" (Mem.db (world (SaveTable Mem.env "T" caseState).2)) <> None /\
  Mem.lookup "t" (Mem.bt (world (SaveTable Mem.env "T" caseState).2)) = Some zeroTable /\
  Mem.sameName "T" "t" /\
  (SaveTable Mem.env "t" (SaveTable Mem.env "T" caseState).2).1 = None /\
  Mem.lookup "T"
    (Mem.db (world (SaveTable Mem.env "t" (SaveTable Mem.env "T" caseState).2).2)) = None.
Proof.
  assert (H1 : Mem.lookup "t" (Mem.bt (world (SaveTable Mem.env "T" caseState).2)) =
               Some zeroTable) by (vm_compute; reflexivity).
  assert (H2 : Mem.sameName "T" "t") by reflexivity.
  assert (H3 : "T" <> "t") by discriminate.
  split; [vm_compute; discriminate|]. split; [exact H1|]. split; [exact H2|].
  destruct (save_table_drops_names_that_differ_in_case "t" zeroTable "T" _ H1 eq_refl eq_refl H2 H3)
    as (Hnil & Hgone & _).
  split; [exact Hnil|exact Hgone].
Defined.

(** Two remote tables [T] and [t]: [SaveAll] saves [T], then [t], and
    returns nil; the snapshot holds the table [t] only, and a [Restore]
    from it returns nil and leaves [T] empty. *)
Example case_clash_loses_a_table :
  (SaveAll Mem.env caseState).1 = None /\
  saving (events (SaveAll Mem.env) caseState) = ["T"; "t"] /\
  (Mem.db (world (SaveAll Mem.env caseState).2)).*1 = ["t"] /\
  (Restore Mem.env (SaveAll Mem.env caseState).2).1 = None /\
  Mem.lookup "T" (Mem.bt (world (Restore Mem.env (SaveAll Mem.env caseState).2).2)) =
    Some (cleared twoFamilies) /\
  Mem.lookup "t" (Mem.bt (world (Restore Mem.env (SaveAll Mem.env caseState).2).2)) =
    Some zeroTable.
Proof.
  split; [vm_compute; reflexivity|]. split; [vm_compute; reflexivity|].
  split; [vm_compute; reflexivity|]. split; [vm_compute; reflexivity|].
  split; vm_compute; reflexivity.
Qed.
